(** * q2api: request transcoder, Event Stream decoder and SSE emitter

    A shallow embedding of the transformation and streaming pipeline of the
    gateway ([claude_parser.py], [claude_stream.py], [claude_converter.py])
    and the properties of its specification checked against it.

    Conventions of the embedding:
    - Python [int] is [Z]; [bytes] is [list byte]; [str] is a list of Unicode
      code points ([pystr]); a [dict] kept for its insertion order is an
      association list.
    - [while] loops carry an explicit fuel; every loop comes with a lemma
      that the fuel given by its caller is enough.
    - Library calls the repository does not define (json, tiktoken, uuid,
      datetime, str.lower) are fields of the class [Builtins]. *)

From Stdlib Require Import ZArith NArith List Bool Lia String Ascii Floats.
From Stdlib.Strings Require Import Byte.
From stdpp Require Import base list.
Import ListNotations.
Open Scope Z_scope.

(* ================================================================== *)
(** * Python values *)
(* ================================================================== *)

Module Py.

(** A [str] is a sequence of code points. *)
Definition pystr := list N.

Definition py (s : string) : pystr :=
  map N_of_ascii (list_ascii_of_string s).

Definition bz (b : byte) : Z := Z.of_N (Byte.to_N b).

Definition byte_of_Z (z : Z) : byte :=
  match Byte.of_N (Z.to_N (z mod 256)) with
  | Some b => b
  | None => Byte.x00
  end.

(** [s[i:j]] for [0 <= i], [0 <= j]: clamped at the end of the sequence,
    empty when [j <= i]. *)
Definition slice {A} (l : list A) (i j : nat) : list A :=
  take (j - i) (drop i l).

Definition str_eqb (a b : pystr) : bool := bool_decide (a = b).

Fixpoint starts_with (pre s : pystr) : bool :=
  match pre, s with
  | [], _ => true
  | p :: pre', c :: s' => N.eqb p c && starts_with pre' s'
  | _ :: _, [] => false
  end.

(** [s.endswith(suf)] *)
Definition ends_with (suf s : pystr) : bool :=
  starts_with (rev suf) (rev s).

(** [text.find(tag, pos)]: lowest index [>= pos] where [tag] occurs. *)
Fixpoint find_from (tag s : pystr) (i : nat) : option nat :=
  if starts_with tag s then Some i
  else match s with
       | [] => None
       | _ :: s' => find_from tag s' (S i)
       end.

Definition find (text tag : pystr) (pos : nat) : option nat :=
  find_from tag (drop pos text) pos.

(** [sep.join(parts)] *)
Fixpoint join (sep : pystr) (parts : list pystr) : pystr :=
  match parts with
  | [] => []
  | [p] => p
  | p :: ps => p ++ sep ++ join sep ps
  end.

(** [c.isspace()]: the code points Python strips as whitespace. *)
Definition is_space (c : N) : bool :=
  (((9 <=? c) && (c <=? 13)) || ((28 <=? c) && (c <=? 32))
   || (c =? 133) || (c =? 160) || (c =? 5760)
   || ((8192 <=? c) && (c <=? 8202)) || (c =? 8232) || (c =? 8233)
   || (c =? 8239) || (c =? 8287) || (c =? 12288))%N.

Fixpoint lstrip (s : pystr) : pystr :=
  match s with
  | c :: s' => if is_space c then lstrip s' else s
  | [] => []
  end.

(** [s.rstrip()] *)
Definition rstrip (s : pystr) : pystr := rev (lstrip (rev s)).

(** [s.strip()] *)
Definition strip (s : pystr) : pystr := rstrip (lstrip s).

(** [s.replace(old, "")] for a non-empty [old]: occurrences are removed
    from left to right, without overlap. *)
Fixpoint remove_all_fuel (fuel : nat) (old s : pystr) : pystr :=
  match fuel with
  | O => s
  | S fuel' =>
      match s with
      | [] => []
      | c :: s' =>
          if starts_with old s
          then remove_all_fuel fuel' old (drop (length old) s)
          else c :: remove_all_fuel fuel' old s'
      end
  end.

Definition remove_all (old s : pystr) : pystr :=
  remove_all_fuel (length s) old s.

(** [sub in s] *)
Definition contains (sub s : pystr) : bool :=
  match find_from sub s 0 with Some _ => true | None => false end.

(** Insertion-ordered dictionaries with [str] keys. *)
Definition odict (V : Type) := list (pystr * V).

(** [d[key] = value]: an existing key keeps its position. *)
Fixpoint dict_set {V} (d : odict V) (key : pystr) (value : V) : odict V :=
  match d with
  | [] => [(key, value)]
  | (k, v) :: d' =>
      if str_eqb k key then (k, value) :: d'
      else (k, v) :: dict_set d' key value
  end.

(** [d.get(key)] *)
Fixpoint dict_get {V} (d : odict V) (key : pystr) : option V :=
  match d with
  | [] => None
  | (k, v) :: d' => if str_eqb k key then Some v else dict_get d' key
  end.

(** [del d[key]] *)
Fixpoint dict_del {V} (d : odict V) (key : pystr) : odict V :=
  match d with
  | [] => []
  | (k, v) :: d' => if str_eqb k key then d' else (k, v) :: dict_del d' key
  end.

(** Result of a call that can raise. [OutOfFuel] is a loop of the model
    that was not given enough fuel; it never stands for a Python result. *)
Inductive outcome (A E : Type) :=
| Return (a : A)
| Raised (e : E)
| OutOfFuel.
Arguments Return {A E} a.
Arguments Raised {A E} e.
Arguments OutOfFuel {A E}.

(** JSON-shaped values ([Dict[str, Any]] payloads and tool inputs). *)
#[local] Unset Elimination Schemes.
Inductive json :=
| JNull
| JBool (b : bool)
| JInt (z : Z)
| JFloat (f : float)
| JStr (s : pystr)
| JList (l : list json)
| JDict (d : list (pystr * json)).
#[local] Set Elimination Schemes.

(** Truth value of a JSON-shaped value, as [if v:] tests it. *)
Definition truthy (v : json) : bool :=
  match v with
  | JNull => false
  | JBool b => b
  | JInt z => negb (z =? 0)
  | JFloat f => negb (PrimFloat.eqb f 0%float)
  | JStr s => negb (str_eqb s [])
  | JList l => match l with [] => false | _ => true end
  | JDict d => match d with [] => false | _ => true end
  end.

(** The library functions the repository calls but does not define. *)
Class Builtins := {
  (** [json.loads(data.decode('utf-8'))]; [None] when either step raises
      [UnicodeDecodeError] or [JSONDecodeError]. *)
  json_loads_utf8 : list byte -> option json;
  (** [json.dumps(v, ensure_ascii=False)] *)
  json_dumps : json -> pystr;
  (** [json.dumps(v, sort_keys=True)] *)
  json_dumps_sorted : json -> pystr;
  (** [str.lower] *)
  str_lower : pystr -> pystr;
  (** [str(v)] *)
  str_of : json -> pystr;
  (** [len(ENCODING.encode(text))], when tiktoken could be imported. *)
  tiktoken_len : option (pystr -> Z);
  (** [str(uuid.uuid4())], one value per call site. *)
  uuid4 : pystr;
  (** [datetime.now().astimezone()] rendered by [get_current_timestamp]. *)
  current_timestamp : pystr;
  (** [q2api_core.compute_crc32c], when the extension could be imported. *)
  rust_crc32c : option (list byte -> Z)
}.

End Py.
Import Py.

(* ================================================================== *)
(** * CRC32C (claude_parser.py, lines 22-53) *)
(* ================================================================== *)

Module Crc.

Definition poly : Z := 0x82F63B78.

(** The inner loop of [_init_crc32c_table]: eight shift/xor rounds. *)
Fixpoint table_rounds (n : nat) (crc : Z) : Z :=
  match n with
  | O => crc
  | S n' =>
      table_rounds n'
        (if negb (Z.land crc 1 =? 0) then Z.lxor (Z.shiftr crc 1) poly
         else Z.shiftr crc 1)
  end.

Definition CRC32C_TABLE : list Z :=
  Eval vm_compute in map (fun i => table_rounds 8 (Z.of_nat i)) (seq 0 256).

(** One iteration of [for byte in data]. *)
Definition crc_step (crc : Z) (b : byte) : Z :=
  Z.lxor (nth (Z.to_nat (Z.land (Z.lxor crc (bz b)) 0xFF)) CRC32C_TABLE 0)
         (Z.shiftr crc 8).

Definition _crc32c_python (data : list byte) (initial : Z) : Z :=
  Z.lxor (fold_left crc_step data (Z.lxor initial 0xFFFFFFFF)) 0xFFFFFFFF.

(** [crc32c]: the extension, when loaded, is called without [initial]. *)
Definition crc32c `{Builtins} (data : list byte) (initial : Z) : Z :=
  match rust_crc32c with
  | Some compute_crc32c => compute_crc32c data
  | None => _crc32c_python data initial
  end.

End Crc.
Import Crc.


(* ================================================================== *)
(** * Event Stream decoder (claude_parser.py, lines 59-294) *)
(* ================================================================== *)

Module EventStream.

(** ** struct.unpack and bytes.decode *)

(** The exceptions of the parser: [struct.error] and
    [UnicodeDecodeError], both caught by [_try_parse_message]. *)
Inductive parse_exception := StructError | UnicodeDecodeError.

(** Big-endian unsigned value of a byte string. *)
Definition be_uint (bs : list byte) : Z :=
  fold_left (fun acc b => acc * 256 + bz b) bs 0.

Definition to_signed (bits u : Z) : Z :=
  if u <? 2 ^ (bits - 1) then u else u - 2 ^ bits.

(** [struct.unpack(fmt, bs)[0]]; [None] is [struct.error] (wrong size). *)
Definition unpack_I (bs : list byte) : option Z :=
  if Nat.eqb (length bs) 4 then Some (be_uint bs) else None.
Definition unpack_H (bs : list byte) : option Z :=
  if Nat.eqb (length bs) 2 then Some (be_uint bs) else None.
Definition unpack_h (bs : list byte) : option Z :=
  if Nat.eqb (length bs) 2 then Some (to_signed 16 (be_uint bs)) else None.
Definition unpack_i (bs : list byte) : option Z :=
  if Nat.eqb (length bs) 4 then Some (to_signed 32 (be_uint bs)) else None.
Definition unpack_q (bs : list byte) : option Z :=
  if Nat.eqb (length bs) 8 then Some (to_signed 64 (be_uint bs)) else None.

Definition is_cont (b : byte) : bool :=
  let x := Byte.to_N b in ((0x80 <=? x) && (x <=? 0xBF))%N.

(** [bs.decode('utf-8')] (strict): [None] is [UnicodeDecodeError]. Overlong
    forms, surrogates and values above U+10FFFF are rejected. *)
Fixpoint utf8_decode (bs : list byte) : option pystr :=
  match bs with
  | [] => Some []
  | b0 :: r0 =>
      let x0 := Byte.to_N b0 in
      if (x0 <? 0x80)%N then option_map (cons x0) (utf8_decode r0)
      else if (x0 <? 0xC2)%N then None
      else if (x0 <? 0xE0)%N then
        match r0 with
        | b1 :: r1 =>
            if is_cont b1
            then option_map
                   (cons ((x0 - 0xC0) * 64 + (Byte.to_N b1 - 0x80))%N)
                   (utf8_decode r1)
            else None
        | [] => None
        end
      else if (x0 <? 0xF0)%N then
        match r0 with
        | b1 :: b2 :: r2 =>
            let x1 := Byte.to_N b1 in
            let lo := if (x0 =? 0xE0)%N then 0xA0%N else 0x80%N in
            let hi := if (x0 =? 0xED)%N then 0x9F%N else 0xBF%N in
            if (lo <=? x1)%N && (x1 <=? hi)%N && is_cont b2
            then option_map
                   (cons ((x0 - 0xE0) * 4096 + (x1 - 0x80) * 64
                          + (Byte.to_N b2 - 0x80))%N)
                   (utf8_decode r2)
            else None
        | _ => None
        end
      else if (x0 <? 0xF5)%N then
        match r0 with
        | b1 :: b2 :: b3 :: r3 =>
            let x1 := Byte.to_N b1 in
            let lo := if (x0 =? 0xF0)%N then 0x90%N else 0x80%N in
            let hi := if (x0 =? 0xF4)%N then 0x8F%N else 0xBF%N in
            if (lo <=? x1)%N && (x1 <=? hi)%N && is_cont b2 && is_cont b3
            then option_map
                   (cons ((x0 - 0xF0) * 262144 + (x1 - 0x80) * 4096
                          + (Byte.to_N b2 - 0x80) * 64
                          + (Byte.to_N b3 - 0x80))%N)
                   (utf8_decode r3)
            else None
        | _ => None
        end
      else None
  end.

Definition hex_digit (n : N) : N :=
  if (n <? 10)%N then (48 + n)%N else (87 + n)%N.

(** [bs.hex()] *)
Definition hex (bs : list byte) : pystr :=
  flat_map (fun b => let x := Byte.to_N b in
                     [hex_digit (x / 16)%N; hex_digit (x mod 16)%N]) bs.

(** ** Header codec: [EventStreamParser.parse_headers] *)

(** The Python value a header carries: [True]/[False], an [int], [bytes]
    or a [str] (a UUID is kept as its hex string). *)
Inductive header_value :=
| HBool (b : bool)
| HInt (z : Z)
| HBytes (bs : list byte)
| HStr (s : pystr).

Definition headers_dict := odict header_value.


Definition HEADER_TYPE_BOOL_TRUE : Z := 0.
Definition HEADER_TYPE_BOOL_FALSE : Z := 1.
Definition HEADER_TYPE_BYTE : Z := 2.
Definition HEADER_TYPE_SHORT : Z := 3.
Definition HEADER_TYPE_INT : Z := 4.
Definition HEADER_TYPE_LONG : Z := 5.
Definition HEADER_TYPE_BYTES : Z := 6.
Definition HEADER_TYPE_STRING : Z := 7.
Definition HEADER_TYPE_TIMESTAMP : Z := 8.
Definition HEADER_TYPE_UUID : Z := 9.

(** What one pass through the body of the [while] loop does. *)
Inductive header_step :=
| HBreak                                   (** a [break] *)
| HRaise (e : parse_exception)             (** an exception *)
| HNext (offset : nat) (name : pystr) (value : header_value).

(** A fixed-width integer value of [width] bytes at [offset]. *)
Definition fixed_value (headers_data : list byte) (offset width : nat)
    (name : pystr) (unpack : list byte -> option Z) : header_step :=
  if Nat.ltb (length headers_data) (offset + width) then HBreak
  else match unpack (slice headers_data offset (offset + width)) with
       | Some value => HNext (offset + width) name (HInt value)
       | None => HRaise StructError
       end.

(** The value part of a header, [offset] just past the type byte. *)
Definition parse_value (headers_data : list byte) (offset : nat)
    (name : pystr) (value_type : Z) : header_step :=
  if value_type =? HEADER_TYPE_BOOL_TRUE then HNext offset name (HBool true)
  else if value_type =? HEADER_TYPE_BOOL_FALSE then
    HNext offset name (HBool false)
  else if value_type =? HEADER_TYPE_BYTE then
    if Nat.ltb (length headers_data) (offset + 1) then HBreak
    else match headers_data !! offset with
         | Some b => HNext (offset + 1) name (HInt (bz b))
         | None => HRaise StructError
         end
  else if value_type =? HEADER_TYPE_SHORT then
    fixed_value headers_data offset 2 name unpack_h
  else if value_type =? HEADER_TYPE_INT then
    fixed_value headers_data offset 4 name unpack_i
  else if value_type =? HEADER_TYPE_LONG then
    fixed_value headers_data offset 8 name unpack_q
  else if value_type =? HEADER_TYPE_TIMESTAMP then
    fixed_value headers_data offset 8 name unpack_q
  else if (value_type =? HEADER_TYPE_BYTES)
          || (value_type =? HEADER_TYPE_STRING) then
    if Nat.ltb (length headers_data) (offset + 2) then HBreak
    else match unpack_H (slice headers_data offset (offset + 2)) with
         | None => HRaise StructError
         | Some value_length =>
             let offset := (offset + 2)%nat in
             let n := Z.to_nat value_length in
             if Nat.ltb (length headers_data) (offset + n) then HBreak
             else
               let raw := slice headers_data offset (offset + n) in
               if value_type =? HEADER_TYPE_STRING then
                 match utf8_decode raw with
                 | Some s => HNext (offset + n) name (HStr s)
                 | None => HRaise UnicodeDecodeError
                 end
               else HNext (offset + n) name (HBytes raw)
         end
  else if value_type =? HEADER_TYPE_UUID then
    if Nat.ltb (length headers_data) (offset + 16) then HBreak
    else HNext (offset + 16) name
           (HStr (hex (slice headers_data offset (offset + 16))))
  else HBreak.                                   (* unknown header type *)

(** One header at [offset], with [offset < len(headers_data)]. *)
Definition parse_header (headers_data : list byte) (offset : nat)
  : header_step :=
  match headers_data !! offset with
  | None => HBreak
  | Some nl =>
      let name_length := Z.to_nat (bz nl) in
      let offset := (offset + 1)%nat in
      if Nat.ltb (length headers_data) (offset + name_length) then HBreak
      else
        match utf8_decode (slice headers_data offset (offset + name_length))
        with
        | None => HRaise UnicodeDecodeError
        | Some name =>
            let offset := (offset + name_length)%nat in
            match headers_data !! offset with
            | None => HBreak
            | Some vt => parse_value headers_data (offset + 1) name (bz vt)
            end
        end
  end.


Fixpoint parse_headers_loop (fuel : nat) (headers_data : list byte)
    (offset : nat) (headers : headers_dict) : outcome headers_dict parse_exception :=
  match fuel with
  | O => OutOfFuel
  | S fuel' =>
      if Nat.ltb offset (length headers_data) then
        match parse_header headers_data offset with
        | HBreak => Return headers
        | HRaise e => Raised e
        | HNext offset' name value =>
            parse_headers_loop fuel' headers_data offset'
              (dict_set headers name value)
        end
      else Return headers
  end.

Definition parse_headers (headers_data : list byte) : outcome headers_dict parse_exception :=
  parse_headers_loop (S (length headers_data)) headers_data 0 [].

(** ** The decoder: [EventStreamDecoder] *)

Inductive DecoderState := READY | PARSING | RECOVERING | STOPPED.

Definition state_eqb (a b : DecoderState) : bool :=
  match a, b with
  | READY, READY | PARSING, PARSING
  | RECOVERING, RECOVERING | STOPPED, STOPPED => true
  | _, _ => false
  end.

Record Decoder := mkDecoder {
  state : DecoderState;
  buffer : list byte;
  error_count : Z;
  max_errors : Z;
  validate_crc : bool;
  messages_parsed : Z;
  crc_errors : Z
}.

(** [EventStreamDecoder(max_errors, validate_crc)] *)
Definition new_decoder (max_errors : Z) (validate_crc : bool) : Decoder :=
  mkDecoder READY [] 0 max_errors validate_crc 0 0.

Definition set_state (s : DecoderState) (d : Decoder) : Decoder :=
  mkDecoder s (buffer d) (error_count d) (max_errors d) (validate_crc d)
            (messages_parsed d) (crc_errors d).
Definition set_buffer (b : list byte) (d : Decoder) : Decoder :=
  mkDecoder (state d) b (error_count d) (max_errors d) (validate_crc d)
            (messages_parsed d) (crc_errors d).
Definition set_error_count (n : Z) (d : Decoder) : Decoder :=
  mkDecoder (state d) (buffer d) n (max_errors d) (validate_crc d)
            (messages_parsed d) (crc_errors d).
Definition set_messages_parsed (n : Z) (d : Decoder) : Decoder :=
  mkDecoder (state d) (buffer d) (error_count d) (max_errors d)
            (validate_crc d) n (crc_errors d).
Definition set_crc_errors (n : Z) (d : Decoder) : Decoder :=
  mkDecoder (state d) (buffer d) (error_count d) (max_errors d)
            (validate_crc d) (messages_parsed d) n.

(** The payload of a frame: absent, a decoded JSON value, or raw bytes. *)
Inductive payload_value :=
| PNone
| PJson (j : json)
| PRaw (bs : list byte).

Record Message := mkMessage {
  headers : headers_dict;
  payload : payload_value;
  total_length : Z
}.

(** What [_try_parse_message] returns: a message, [None], or [False]. *)
Inductive parse_result :=
| Parsed (m : Message)
| NeedMoreData
| ParseError.

Definition MAX_MESSAGE : Z := 16 * 1024 * 1024.

Section Decoder.
Context `{B : Builtins}.

(** The two checksum tests, made only when [validate_crc] is set. The
    result is the decoder (its [crc_errors] counted up on a mismatch) and
    whether the parse goes on. *)
Definition check_crcs (d : Decoder) (message_data : list byte)
  : Decoder * option bool :=
  if validate_crc d then
    match unpack_I (slice message_data 8 12) with
    | None => (d, None)
    | Some prelude_crc_expected =>
        let prelude_crc_actual := crc32c (slice message_data 0 8) 0 in
        if negb (prelude_crc_expected =? prelude_crc_actual)
        then (set_crc_errors (crc_errors d + 1) d, Some false)
        else
          match unpack_I (drop (length message_data - 4) message_data) with
          | None => (d, None)
          | Some message_crc_expected =>
              let message_crc_actual :=
                crc32c (take (length message_data - 4) message_data) 0 in
              if negb (message_crc_expected =? message_crc_actual)
              then (set_crc_errors (crc_errors d + 1) d, Some false)
              else (d, Some true)
          end
    end
  else (d, Some true).

Definition decode_payload (payload_data : list byte) : payload_value :=
  match payload_data with
  | [] => PNone
  | _ :: _ =>
      match json_loads_utf8 payload_data with
      | Some j => PJson j
      | None => PRaw payload_data
      end
  end.

(** [_try_parse_message]; every exception ends in [return False]. *)
Definition _try_parse_message (d : Decoder) : Decoder * parse_result :=
  match unpack_I (slice (buffer d) 0 4) with
  | None => (d, ParseError)
  | Some total_length =>
      if (total_length <? 16) || (MAX_MESSAGE <? total_length)
      then (d, ParseError)
      else if Z.of_nat (length (buffer d)) <? total_length
      then (d, NeedMoreData)
      else
        let message_data := take (Z.to_nat total_length) (buffer d) in
        match check_crcs d message_data with
        | (d, None) => (d, ParseError)
        | (d, Some false) => (d, ParseError)
        | (d, Some true) =>
            match unpack_I (slice message_data 4 8) with
            | None => (d, ParseError)
            | Some headers_length =>
                let hl := Z.to_nat headers_length in
                let headers_data := slice message_data 12 (12 + hl) in
                match parse_headers headers_data with
                | Raised _ | OutOfFuel => (d, ParseError)
                | Return headers =>
                    let payload_start := (12 + hl)%nat in
                    let payload_end := Z.to_nat (total_length - 4) in
                    let payload_data :=
                      slice message_data payload_start payload_end in
                    let payload := decode_payload payload_data in
                    (set_buffer (drop (Z.to_nat total_length) (buffer d)) d,
                     Parsed (mkMessage headers payload total_length))
                end
            end
        end
  end.

(** The test made at offset [i] of the recovery scan. *)
Definition prelude_at (buf : list byte) (i : nat) : bool :=
  match unpack_I (slice buf i (i + 4)) with
  | None => false
  | Some total_length =>
      if (16 <=? total_length) && (total_length <=? MAX_MESSAGE) then
        if Nat.leb (i + 12) (length buf) then
          match unpack_I (slice buf (i + 8) (i + 12)) with
          | None => false
          | Some prelude_crc =>
              crc32c (slice buf i (i + 8)) 0 =? prelude_crc
          end
        else false
      else false
  end.

(** [_try_recover] *)
Definition _try_recover (d : Decoder) : Decoder * bool :=
  if Nat.ltb (length (buffer d)) 12 then (d, false)
  else
    let buf := drop 1 (buffer d) in
    match List.find (prelude_at buf) (seq 0 (length buf - 11)) with
    | Some i => (set_buffer (drop i buf) d, true)
    | None =>
        let buf :=
          if 16 * 1024 <? Z.of_nat (length buf)
          then drop (Z.to_nat (Z.of_nat (length buf) - 1024)) buf
          else buf in
        (set_buffer buf d, false)
    end.

(** The [while True] loop of [feed]. *)
Fixpoint feed_loop (fuel : nat) (d : Decoder) (messages : list Message)
  : outcome (Decoder * list Message) parse_exception :=
  match fuel with
  | O => OutOfFuel
  | S fuel' =>
      let '(d, go_on) :=
        if state_eqb (state d) RECOVERING then
          let '(d, ok) := _try_recover d in
          if ok then (set_state READY d, true) else (d, false)
        else (d, true) in
      if negb go_on then Return (d, messages)
      else if Nat.ltb (length (buffer d)) 12 then Return (d, messages)
      else
        let d := set_state PARSING d in
        match _try_parse_message d with
        | (d, NeedMoreData) => Return (d, messages)
        | (d, ParseError) =>
            let d := set_error_count (error_count d + 1) d in
            if max_errors d <=? error_count d
            then Return (set_state STOPPED d, messages)
            else feed_loop fuel' (set_state RECOVERING d) messages
        | (d, Parsed result) =>
            let d := set_state READY d in
            let d := set_error_count 0 d in
            let d := set_messages_parsed (messages_parsed d + 1) d in
            feed_loop fuel' d (messages ++ [result])
        end
  end.

(** [feed]: the fuel bounds the number of passes, each of which either
    leaves the loop, removes bytes from the buffer, or enters recovery. *)
Definition feed (d : Decoder) (data : list byte)
  : outcome (Decoder * list Message) parse_exception :=
  if state_eqb (state d) STOPPED then Return (d, [])
  else
    let d := set_buffer (buffer d ++ data) d in
    feed_loop (2 * length (buffer d) + 2) d [].

(** Feeding chunks one after the other to the same decoder, collecting
    the messages of every call. *)
Fixpoint feed_all (d : Decoder) (chunks : list (list byte))
  : outcome (Decoder * list Message) parse_exception :=
  match chunks with
  | [] => Return (d, [])
  | c :: chunks' =>
      match feed d c with
      | Return (d', ms) =>
          match feed_all d' chunks' with
          | Return (d'', ms') => Return (d'', ms ++ ms')
          | Raised e => Raised e
          | OutOfFuel => OutOfFuel
          end
      | Raised e => Raised e
      | OutOfFuel => OutOfFuel
      end
  end.

End Decoder.

(** ** The wire format, as the specification describes it *)

Definition be_bytes (width : nat) (z : Z) : list byte :=
  map (fun k => byte_of_Z (z / 256 ^ Z.of_nat k)) (rev (seq 0 width)).

Section Wire.
Context `{B : Builtins}.

(** A frame with the given header region and payload:
    [total_length(4) | headers_length(4) | prelude_crc(4) | headers |
     payload | message_crc(4)]. *)
Definition mk_frame (headers_data payload_data : list byte) : list byte :=
  let total := Z.of_nat (16 + length headers_data + length payload_data) in
  let prelude :=
    be_bytes 4 total ++ be_bytes 4 (Z.of_nat (length headers_data)) in
  let body := prelude ++ be_bytes 4 (crc32c prelude 0)
              ++ headers_data ++ payload_data in
  body ++ be_bytes 4 (crc32c body 0).

Definition frame_total (f : list byte) : Z := be_uint (slice f 0 4).
Definition frame_headers_length (f : list byte) : nat :=
  Z.to_nat (be_uint (slice f 4 8)).
Definition header_region (f : list byte) : list byte :=
  slice f 12 (12 + frame_headers_length f).
Definition payload_region (f : list byte) : list byte :=
  slice f (12 + frame_headers_length f) (length f - 4).

(** [f] is exactly one frame: its length is its [total_length], which is
    within [[16, 16 MiB]], and, when checksums are validated, both
    checksums agree with the bytes they cover. *)
Definition frame_checked (validate : bool) (f : list byte) : bool :=
  (16 <=? frame_total f) && (frame_total f <=? MAX_MESSAGE)
  && (Z.of_nat (length f) =? frame_total f)
  && (negb validate
      || ((be_uint (slice f 8 12) =? crc32c (slice f 0 8) 0)
          && (be_uint (drop (length f - 4) f)
              =? crc32c (take (length f - 4) f) 0))).

Definition headers_decodable (f : list byte) : bool :=
  match parse_headers (header_region f) with
  | Return _ => true
  | _ => false
  end.

(** A well-formed frame: checked, and its header names and string values
    are UTF-8. *)
Definition frame_ok (validate : bool) (f : list byte) : bool :=
  frame_checked validate f && headers_decodable f.

(** The message a frame stands for. *)
Definition message_of (f : list byte) : Message :=
  mkMessage
    (match parse_headers (header_region f) with
     | Return h => h
     | _ => []
     end)
    (decode_payload (payload_region f))
    (frame_total f).

End Wire.











End EventStream.


(* ================================================================== *)
(** * An instance of the library functions, for the examples *)
(* ================================================================== *)

Module Reference.

(** [str.lower] on the ASCII letters. *)
Definition ascii_lower (s : pystr) : pystr :=
  map (fun c => if ((65 <=? c) && (c <=? 90))%N then (c + 32)%N else c) s.

Fixpoint decimal_digits (fuel : nat) (n : N) (acc : pystr) : pystr :=
  match fuel with
  | O => acc
  | S fuel' =>
      let acc := ((48 + n mod 10)%N :: acc) in
      if (n <? 10)%N then acc else decimal_digits fuel' (n / 10)%N acc
  end.

Definition decimal (z : Z) : pystr :=
  let n := Z.to_N (Z.abs z) in
  (if z <? 0 then py "-" else [])
  ++ decimal_digits (S (N.to_nat (N.log2 n))) n [].

Fixpoint str_ltb (a b : pystr) : bool :=
  match a, b with
  | _, [] => false
  | [], _ :: _ => true
  | x :: a', y :: b' => (x <? y)%N || ((x =? y)%N && str_ltb a' b')
  end.

Fixpoint insert_sorted {A} (k : pystr) (v : A) (l : list (pystr * A))
  : list (pystr * A) :=
  match l with
  | [] => [(k, v)]
  | (k', v') :: l' =>
      if str_ltb k k' then (k, v) :: l
      else (k', v') :: insert_sorted k v l'
  end.

Definition sort_items {A} (l : list (pystr * A)) : list (pystr * A) :=
  fold_right (fun kv acc => insert_sorted (fst kv) (snd kv) acc) [] l.

Definition quoted (s : pystr) : pystr :=
  34%N :: flat_map (fun c => if ((c =? 34) || (c =? 92))%N
                              then [92%N; c] else [c]) s ++ [34%N].


(** [json.dumps] for values without floats and with plain strings. *)
Fixpoint dumps (sorted : bool) (v : json) : pystr :=
  match v with
  | JNull => py "null"
  | JBool true => py "true"
  | JBool false => py "false"
  | JInt z => decimal z
  | JFloat _ => py "0.0"
  | JStr s => quoted s
  | JList l => py "[" ++ join (py ", ") (map (dumps sorted) l) ++ py "]"
  | JDict d =>
      let items := map (fun kv => (fst kv, dumps sorted (snd kv))) d in
      let items := if sorted then sort_items items else items in
      py "{"
      ++ join (py ", ")
           (map (fun kv => quoted (fst kv) ++ py ": " ++ snd kv) items)
      ++ py "}"
  end.

Definition str_of_value (v : json) : pystr :=
  match v with
  | JNull => py "None"
  | JBool true => py "True"
  | JBool false => py "False"
  | JInt z => decimal z
  | JStr s => s
  | other => dumps false other
  end.

(** No extension and no tiktoken; payloads are kept as raw bytes. *)
#[export] Instance builtins : Builtins := {|
  json_loads_utf8 := fun _ => None;
  json_dumps := dumps false;
  json_dumps_sorted := dumps true;
  str_lower := ascii_lower;
  str_of := str_of_value;
  tiktoken_len := None;
  uuid4 := py "00000000-0000-4000-8000-000000000000";
  current_timestamp := py "Monday, 2025-01-06T10:00:00.000+00:00";
  rust_crc32c := None
|}.

End Reference.

(* ================================================================== *)
(** * Example data for the decoder *)
(* ================================================================== *)

Module DecoderExamples.
Import EventStream Reference.

Definition bytes_of (l : list Z) : list byte := map byte_of_Z l.

(** The smallest frame: no header, no payload. *)
Definition empty_frame : list byte := mk_frame [] [].

(** One byte of garbage, then a frame. *)
Definition garbage_then_frame : list byte := byte_of_Z 255 :: empty_frame.





End DecoderExamples.

(* ================================================================== *)
(** * Request transcoder (claude_converter.py, claude_types.py) *)
(* ================================================================== *)

Module Converter.

(** ** The request (claude_types.py)

    A content block is a [Dict[str, Any]]; the model keeps the keys the
    transcoder reads, an absent key being [None] (or the default the
    code passes to [get]). Images, tool specifications and message ids
    are left out: no other field depends on them. *)

(** One item of the [content] list of a [tool_result]. *)
Inductive result_item :=
| ItemDict (item_type item_text : option pystr)
| ItemStr (s : pystr)
| ItemOther.

Inductive result_content :=
| RCStr (s : pystr)
| RCList (items : list result_item)
| RCOther.

Inductive block :=
| BText (text : pystr)
| BThinking (thinking : pystr)
| BImage
| BToolUse (id name : option pystr) (input : option json)
| BToolResult (tool_use_id : option pystr) (content : result_content)
              (status : option pystr) (is_error : bool)
| BOther.

Inductive message_content :=
| CStr (s : pystr)
| CList (blocks : list block).

Record ClaudeMessage := mkMessage {
  role : pystr;
  content : message_content
}.

Record ClaudeTool := mkTool {
  tool_name : pystr;
  description : option pystr
}.

Inductive system_prompt :=
| SysStr (s : pystr)
| SysList (blocks : list block).

Record ClaudeRequest := mkRequest {
  model : pystr;
  messages : list ClaudeMessage;
  tools : option (list ClaudeTool);
  system : option system_prompt;
  thinking : option json
}.

(** ** Constants and small helpers (lines 24-68) *)

Definition THINKING_HINT : pystr :=
  py "<thinking_mode>interleaved</thinking_mode><max_thinking_length>16000</max_thinking_length>".
Definition THINKING_START_TAG : pystr := py "<thinking>".
Definition THINKING_END_TAG : pystr := py "</thinking>".

Definition _wrap_thinking_content (thinking_text : pystr) : pystr :=
  THINKING_START_TAG ++ thinking_text ++ THINKING_END_TAG.

Definition nonempty {A} (l : list A) : bool :=
  match l with [] => false | _ => true end.

Section WithBuiltins.
Context `{B : Builtins}.

(** [is_thinking_mode_enabled] *)
Definition is_thinking_mode_enabled (thinking_cfg : option json) : bool :=
  match thinking_cfg with
  | None | Some JNull => false
  | Some (JBool b) => b
  | Some (JStr s) => str_eqb (str_lower s) (py "enabled")
  | Some (JDict d) =>
      let type_val :=
        str_lower (str_of (default (JStr []) (dict_get d (py "type")))) in
      if str_eqb type_val (py "enabled") then true
      else
        match dict_get d (py "enabled") with
        | Some (JBool enabled_flag) => enabled_flag
        | _ =>
            match dict_get d (py "budget_tokens") with
            | Some (JInt budget) => 0 <? budget
            | Some (JFloat budget) => PrimFloat.ltb 0%float budget
            | Some (JBool budget) => budget     (* a bool is an int *)
            | _ => false
            end
        end
  | Some _ => false
  end.

(** [_append_thinking_hint] *)
Definition _append_thinking_hint (text hint : pystr) : pystr :=
  let normalized := rstrip text in
  if ends_with hint normalized then text
  else if negb (nonempty text) then hint
  else
    let separator :=
      if ends_with [10%N] text || ends_with [13%N] text then []
      else [10%N] in
    text ++ separator ++ hint.

(** [get_current_timestamp] *)
Definition get_current_timestamp : pystr := current_timestamp.

(** ** [map_model_name] (lines 70-132) *)

Definition DEFAULT_MODEL : pystr := py "claude-sonnet-4.5".

Definition VALID_MODELS : list pystr :=
  [py "auto"; py "claude-sonnet-4.5"; py "claude-haiku-4.5";
   py "claude-opus-4.5"].

Definition CANONICAL_TO_SHORT : odict pystr :=
  [(py "claude-sonnet-4-20250514", py "claude-sonnet-4.5");
   (py "claude-sonnet-4-5-20250929", py "claude-sonnet-4.5");
   (py "claude-opus-4-5-20251101", py "claude-opus-4.5");
   (py "claude-3-5-sonnet-20241022", py "claude-sonnet-4.5");
   (py "claude-3-5-sonnet-20240620", py "claude-sonnet-4.5");
   (py "claude-sonnet-4-5", py "claude-sonnet-4.5");
   (py "claude-opus-4-5", py "claude-opus-4.5")].

Definition str_in (s : pystr) (l : list pystr) : bool :=
  existsb (str_eqb s) l.

(** The model name after [strip().lower()]. *)
Definition normalize_model (claude_model : pystr) : pystr :=
  str_lower (strip claude_model).

Definition map_model_name (claude_model : pystr) : pystr * bool :=
  let model_normalized := normalize_model claude_model in
  if Nat.ltb 100 (length model_normalized) then (DEFAULT_MODEL, false)
  else
    let thinking_requested := ends_with (py "-thinking") model_normalized in
    let model_normalized :=
      if thinking_requested
      then take (length model_normalized - 9) model_normalized
      else model_normalized in
    if str_in model_normalized VALID_MODELS
       && negb (str_eqb model_normalized (py "auto"))
    then (model_normalized, thinking_requested)
    else
      match dict_get CANONICAL_TO_SHORT model_normalized with
      | Some short => (short, thinking_requested)
      | None => (DEFAULT_MODEL, thinking_requested)
      end.

(** ** Text and tool results of a message (lines 134-148, 337-393) *)

(** The text a block adds to [text_parts], if any. *)
Definition block_text (b : block) : option pystr :=
  match b with
  | BText text => Some text
  | BThinking thinking => Some (_wrap_thinking_content thinking)
  | _ => None
  end.

(** [extract_text_from_content] *)
Definition extract_text_from_content (content : message_content) : pystr :=
  match content with
  | CStr s => s
  | CList blocks => join [10%N] (omap block_text blocks)
  end.

(** An entry of [toolResults]. *)
Record ToolResult := mkToolResult {
  toolUseId : option pystr;
  result_texts : list pystr;       (** [content]: a list of [{"text": t}] *)
  result_status : pystr
}.

Definition item_text_of (item : result_item) : option pystr :=
  match item with
  | ItemDict (Some t) text =>
      if str_eqb t (py "text") then Some (default [] text) else text
  | ItemDict None text => text
  | ItemStr s => Some s
  | ItemOther => None
  end.

(** [aq_content], before the test for actual content. *)
Definition raw_aq_content (raw_c : result_content) : list pystr :=
  match raw_c with
  | RCStr s => [s]
  | RCList items => omap item_text_of items
  | RCOther => []
  end.

Definition is_error_status (status : option pystr) : bool :=
  match status with
  | Some s => str_eqb s (py "error")
  | None => false
  end.

Definition aq_content_of (raw_c : result_content) (status : option pystr)
    (is_error : bool) : list pystr :=
  let aq_content := raw_aq_content raw_c in
  if existsb (fun t => nonempty (strip t)) aq_content then aq_content
  else if negb (is_error_status status) && negb is_error
       then [py "Command executed successfully"]
       else [py "Tool use was cancelled by the user"].

Definition status_of (status : option pystr) (is_error : bool) : pystr :=
  match status with
  | Some s => if nonempty s then s
              else if is_error then py "error" else py "success"
  | None => if is_error then py "error" else py "success"
  end.

Definition same_id (a b : option pystr) : bool := bool_decide (a = b).

(** The merge of a [tool_result] into the first entry of the same id. *)
Fixpoint merge_result (tool_results : list ToolResult)
    (tid : option pystr) (aq_content : list pystr) (status : pystr)
  : option (list ToolResult) :=
  match tool_results with
  | [] => None
  | r :: rest =>
      if same_id (toolUseId r) tid then
        Some (mkToolResult (toolUseId r) (result_texts r ++ aq_content)
                (if str_eqb status (py "error") then py "error"
                 else result_status r)
              :: rest)
      else option_map (cons r) (merge_result rest tid aq_content status)
  end.

(** What one [tool_result] block does to [tool_results]. *)
Definition add_tool_result (tool_results : list ToolResult)
    (tid : option pystr) (raw_c : result_content) (status : option pystr)
    (is_error : bool) : list ToolResult :=
  let aq_content := aq_content_of raw_c status is_error in
  let status := status_of status is_error in
  match merge_result tool_results tid aq_content status with
  | Some merged => merged
  | None => tool_results ++ [mkToolResult tid aq_content status]
  end.

(** The loop over the blocks of a user message: the text parts and the
    tool results ([None] until the first [tool_result] block). *)
Fixpoint scan_user_blocks (blocks : list block) (text_parts : list pystr)
    (tool_results : option (list ToolResult))
  : list pystr * option (list ToolResult) :=
  match blocks with
  | [] => (text_parts, tool_results)
  | b :: rest =>
      match b with
      | BText text => scan_user_blocks rest (text_parts ++ [text]) tool_results
      | BThinking thinking =>
          scan_user_blocks rest
            (text_parts ++ [_wrap_thinking_content thinking]) tool_results
      | BToolResult tid raw_c status is_error =>
          scan_user_blocks rest text_parts
            (Some (add_tool_result (default [] tool_results)
                     tid raw_c status is_error))
      | _ => scan_user_blocks rest text_parts tool_results
      end
  end.

(** Text and tool results of a user message. *)
Definition user_message_parts (content : message_content)
  : pystr * option (list ToolResult) :=
  match content with
  | CList blocks =>
      let '(text_parts, tool_results) := scan_user_blocks blocks [] None in
      (join [10%N] text_parts, tool_results)
  | CStr _ => (extract_text_from_content content, None)
  end.

(** ** [_reorder_tool_results_by_tool_uses] (lines 279-308) *)

Definition has_id (r : ToolResult) : bool :=
  match toolUseId r with
  | Some i => nonempty i
  | None => false
  end.

Definition id_of (r : ToolResult) : pystr := default [] (toolUseId r).

(** [{r.get("toolUseId"): r for r in tool_results if r.get("toolUseId")}] *)
Definition result_by_id_of (tool_results : list ToolResult)
  : odict ToolResult :=
  fold_left (fun d r => if has_id r then dict_set d (id_of r) r else d)
            tool_results [].

(** The loop [for tool_use_id in tool_use_order]. *)
Fixpoint take_in_order (tool_use_order : list pystr)
    (result_by_id : odict ToolResult) (ordered_results : list ToolResult)
  : odict ToolResult * list ToolResult :=
  match tool_use_order with
  | [] => (result_by_id, ordered_results)
  | tool_use_id :: rest =>
      match dict_get result_by_id tool_use_id with
      | Some r =>
          take_in_order rest (dict_del result_by_id tool_use_id)
            (ordered_results ++ [r])
      | None => take_in_order rest result_by_id ordered_results
      end
  end.

Definition _reorder_tool_results_by_tool_uses
    (tool_results : list ToolResult) (tool_use_order : list pystr)
  : list ToolResult :=
  if negb (nonempty tool_use_order) || negb (nonempty tool_results)
  then tool_results
  else
    let result_by_id := result_by_id_of tool_results in
    let results_without_id := filter (fun r => has_id r = false) tool_results in
    let '(result_by_id, ordered_results) :=
      take_in_order tool_use_order result_by_id [] in
    ordered_results ++ map snd result_by_id ++ results_without_id.

(** [if tool_results and last_tool_use_order: tool_results = reorder(...)] *)
Definition reorder_if_any (tool_results : option (list ToolResult))
    (last_tool_use_order : list pystr) : option (list ToolResult) :=
  match tool_results with
  | Some rs =>
      if nonempty rs && nonempty last_tool_use_order
      then Some (_reorder_tool_results_by_tool_uses rs last_tool_use_order)
      else Some rs
  | None => None
  end.

(** ** [merge_user_messages] and [process_history] (lines 196-498) *)

Record ToolUse := mkToolUse {
  tu_id : pystr;
  tu_name : option pystr;
  tu_input : json
}.

Record UserInputMessage := mkUser {
  u_content : pystr;
  u_toolResults : option (list ToolResult)   (** absent when empty *)
}.

Inductive history_entry :=
| HUser (user_msg : UserInputMessage)
| HAssistant (a_content : pystr) (toolUses : list ToolUse).

Definition merge_user_messages (msgs : list UserInputMessage)
    (hint : pystr) : UserInputMessage :=
  let all_contents :=
    omap (fun m =>
            if nonempty (u_content m) then
              let content_cleaned := strip (remove_all hint (u_content m)) in
              if nonempty content_cleaned then Some content_cleaned else None
            else None) msgs in
  let all_tool_results :=
    flat_map (fun m => default [] (u_toolResults m)) msgs in
  let merged_content := join [10%N; 10%N] all_contents in
  let had_thinking_hint := existsb (fun m => contains hint (u_content m)) msgs in
  let merged_content :=
    if had_thinking_hint then _append_thinking_hint merged_content hint
    else merged_content in
  mkUser merged_content
    (if nonempty all_tool_results then Some all_tool_results else None).

(** The [tool_use] blocks of an assistant message not seen before: ids
    seen so far, their order in this message, the [toolUses] entries. *)
Fixpoint scan_tool_uses (blocks : list block) (seen : list pystr)
    (order : list pystr) (tool_uses : list ToolUse)
  : list pystr * list pystr * list ToolUse :=
  match blocks with
  | [] => (seen, order, tool_uses)
  | BToolUse (Some tid) name input :: rest =>
      if nonempty tid && negb (str_in tid seen) then
        scan_tool_uses rest (seen ++ [tid]) (order ++ [tid])
          (tool_uses ++ [mkToolUse tid name (default (JDict []) input)])
      else scan_tool_uses rest seen order tool_uses
  | _ :: rest => scan_tool_uses rest seen order tool_uses
  end.

(** First pass of [process_history]. *)
Fixpoint first_pass (msgs : list ClaudeMessage) (thinking_enabled : bool)
    (hint : pystr) (seen : list pystr) (last_tool_use_order : list pystr)
    (raw_history : list history_entry) : list history_entry :=
  match msgs with
  | [] => raw_history
  | msg :: rest =>
      if str_eqb (role msg) (py "user") then
        let '(text_content, tool_results) :=
          user_message_parts (content msg) in
        let text_content :=
          if thinking_enabled then _append_thinking_hint text_content hint
          else text_content in
        let tool_results := reorder_if_any tool_results last_tool_use_order in
        let tool_results :=
          match tool_results with
          | Some (_ :: _) => tool_results
          | _ => None
          end in
        first_pass rest thinking_enabled hint seen last_tool_use_order
          (raw_history ++ [HUser (mkUser text_content tool_results)])
      else if str_eqb (role msg) (py "assistant") then
        let text_content := extract_text_from_content (content msg) in
        let '(seen, order, tool_uses) :=
          match content msg with
          | CList blocks => scan_tool_uses blocks seen [] []
          | CStr _ => (seen, [], [])
          end in
        first_pass rest thinking_enabled hint seen order
          (raw_history ++ [HAssistant text_content tool_uses])
      else first_pass rest thinking_enabled hint seen last_tool_use_order
             raw_history
  end.

Definition is_user (e : history_entry) : bool :=
  match e with HUser _ => true | HAssistant _ _ => false end.

Fixpoint has_consecutive_same_role (prev_role : option bool)
    (raw_history : list history_entry) : bool :=
  match raw_history with
  | [] => false
  | item :: rest =>
      if bool_decide (prev_role = Some (is_user item)) then true
      else has_consecutive_same_role (Some (is_user item)) rest
  end.

Definition flush (pending : list UserInputMessage) (hint : pystr)
    (history : list history_entry) : list history_entry :=
  if nonempty pending
  then history ++ [HUser (merge_user_messages pending hint)]
  else history.

(** Second pass of [process_history]. *)
Fixpoint second_pass (raw_history : list history_entry) (hint : pystr)
    (pending : list UserInputMessage) (history : list history_entry)
  : list history_entry :=
  match raw_history with
  | [] => flush pending hint history
  | HUser user_msg :: rest =>
      if nonempty (default [] (u_toolResults user_msg)) then
        second_pass rest hint [] (flush pending hint history ++ [HUser user_msg])
      else second_pass rest hint (pending ++ [user_msg]) history
  | HAssistant c tu :: rest =>
      second_pass rest hint [] (flush pending hint history ++ [HAssistant c tu])
  end.

Definition process_history (msgs : list ClaudeMessage)
    (thinking_enabled : bool) (hint : pystr) : list history_entry :=
  let raw_history := first_pass msgs thinking_enabled hint [] [] [] in
  if negb (has_consecutive_same_role None raw_history) then raw_history
  else second_pass raw_history hint [] [].

(** ** The errors of the transcoder

    Both are [ValueError] in the source, told apart by their message. *)
Inductive convert_error :=
| LoopDetected (tool : option pystr) (count : Z)
| MalformedHistory (idx : nat) (consecutive_user : bool)
| TypeError.

(** [_validate_history_alternation] *)
Fixpoint validate_from (idx : nat) (prev_role : option bool)
    (history : list history_entry) : option convert_error :=
  match history with
  | [] => None
  | item :: rest =>
      if bool_decide (prev_role = Some (is_user item))
      then Some (MalformedHistory idx (is_user item))
      else validate_from (S idx) (Some (is_user item)) rest
  end.

Definition _validate_history_alternation (history : list history_entry)
  : option convert_error := validate_from 0 None history.

(** ** [_detect_tool_call_loop] (lines 589-624) *)

(** A call as the detector compares it: the name and the canonical JSON
    of the input. *)
Definition tool_call : Type := option pystr * pystr.

Definition call_eqb (a b : tool_call) : bool := bool_decide (a = b).

Record loop_state := mkLoop {
  consecutive_count : Z;
  last_tool_call : option tool_call
}.

(** The body of [for block in msg.content]. *)
Definition loop_block (st : loop_state) (b : block) : loop_state :=
  match b with
  | BToolUse _ tool_name input =>
      let tool_input := json_dumps_sorted (default (JDict []) input) in
      let current_call := (tool_name, tool_input) in
      if bool_decide (Some current_call = last_tool_call st)
      then mkLoop (consecutive_count st + 1) (last_tool_call st)
      else mkLoop 1 (Some current_call)
  | _ => st
  end.

(** The body of [for msg in messages[-10:]]. *)
Definition loop_message (st : loop_state) (msg : ClaudeMessage)
  : loop_state :=
  match str_eqb (role msg) (py "assistant"), content msg with
  | true, CList blocks => fold_left loop_block blocks st
  | _, _ => if str_eqb (role msg) (py "user") then mkLoop 0 None else st
  end.

(** [messages[-10:]] *)
Definition last_ten {A} (l : list A) : list A := drop (length l - 10) l.

(** [_detect_tool_call_loop]: the report, from which the message of the
    error is formatted, or [None]. *)
Definition _detect_tool_call_loop (msgs : list ClaudeMessage) (threshold : Z)
  : outcome (option (option pystr * Z)) convert_error :=
  let st := fold_left loop_message (last_ten msgs) (mkLoop 0 None) in
  if threshold <=? consecutive_count st then
    match last_tool_call st with
    | Some (tool, _) => Return (Some (tool, consecutive_count st))
    | None => Raised TypeError           (* [last_tool_call[0]] on [None] *)
    end
  else Return None.

(** ** [convert_claude_to_amazonq_request] (lines 626-853) *)

(** The ids of the [tool_use] blocks of the last assistant message before
    the current one (lines 733-745). *)
Definition tool_use_ids (blocks : list block) : list pystr :=
  omap (fun b => match b with
                 | BToolUse (Some tid) _ _ =>
                     if nonempty tid then Some tid else None
                 | _ => None
                 end) blocks.

Fixpoint order_of_last_assistant (rev_earlier : list ClaudeMessage)
  : list pystr :=
  match rev_earlier with
  | [] => []
  | msg :: rest =>
      if str_eqb (role msg) (py "assistant") then
        match content msg with
        | CList blocks => tool_use_ids blocks
        | CStr _ => []
        end
      else order_of_last_assistant rest
  end.

Definition last_tool_use_order_of (msgs : list ClaudeMessage) : list pystr :=
  order_of_last_assistant (rev (take (length msgs - 1) msgs)).

(** The tools whose description is longer than 10240 characters. *)
Definition long_desc_tools_of (tools : option (list ClaudeTool))
  : list (pystr * pystr) :=
  omap (fun t => match description t with
                 | Some d => if 10240 <? Z.of_nat (length d)
                             then Some (tool_name t, d) else None
                 | None => None
                 end) (default [] tools).

(** [sys_text] *)
Definition system_text (sys : system_prompt) : pystr :=
  match sys with
  | SysStr s => s
  | SysList blocks =>
      join [10%N]
        (omap (fun b => match b with BText t => Some t | _ => None end) blocks)
  end.

Definition system_truthy (sys : option system_prompt) : bool :=
  match sys with
  | None => false
  | Some (SysStr s) => nonempty s
  | Some (SysList l) => nonempty l
  end.

(** The current message (lines 661-730): [prompt_content], the tool
    results and [has_tool_result]. *)
Definition current_message_parts (msgs : list ClaudeMessage)
  : pystr * option (list ToolResult) * bool :=
  match last msgs with
  | Some last_msg =>
      if str_eqb (role last_msg) (py "user") then
        let '(prompt_content, tool_results) :=
          user_message_parts (content last_msg) in
        (prompt_content, tool_results,
         match tool_results with Some _ => true | None => false end)
      else ([], None, false)
  | None => ([], None, false)
  end.

Definition context_and_user_sections (prompt_content : pystr) : pystr :=
  py "--- CONTEXT ENTRY BEGIN ---" ++ [10%N]
  ++ py "Current time: " ++ get_current_timestamp ++ [10%N]
  ++ py "--- CONTEXT ENTRY END ---" ++ [10%N; 10%N]
  ++ py "--- USER MESSAGE BEGIN ---" ++ [10%N]
  ++ prompt_content ++ [10%N]
  ++ py "--- USER MESSAGE END ---".

Definition tool_doc (info : pystr * pystr) : pystr :=
  py "Tool: " ++ fst info ++ [10%N] ++ py "Full Description:" ++ [10%N]
  ++ snd info ++ [10%N].

(** [formatted_content] (lines 764-810). *)
Definition format_content (req : ClaudeRequest) (prompt_content : pystr)
    (has_tool_result thinking_enabled : bool) : pystr :=
  let formatted_content :=
    if has_tool_result && negb (nonempty prompt_content) then []
    else context_and_user_sections prompt_content in
  let long_desc_tools := long_desc_tools_of (tools req) in
  let formatted_content :=
    if nonempty long_desc_tools then
      py "--- TOOL DOCUMENTATION BEGIN ---" ++ [10%N]
      ++ concat (map tool_doc long_desc_tools)
      ++ py "--- TOOL DOCUMENTATION END ---" ++ [10%N; 10%N]
      ++ formatted_content
    else formatted_content in
  let formatted_content :=
    if system_truthy (system req) && nonempty formatted_content then
      let sys_text := system_text (default (SysStr []) (system req)) in
      if nonempty sys_text then
        py "--- SYSTEM PROMPT BEGIN ---" ++ [10%N]
        ++ sys_text ++ [10%N]
        ++ py "--- SYSTEM PROMPT END ---" ++ [10%N; 10%N]
        ++ formatted_content
      else formatted_content
    else formatted_content in
  if thinking_enabled
  then _append_thinking_hint formatted_content THINKING_HINT
  else formatted_content.

(** [thinking_enabled] as the transcoder settles it (lines 636-645). *)
Definition thinking_enabled_of (req : ClaudeRequest) : bool :=
  let thinking_enabled := is_thinking_mode_enabled (thinking req) in
  let '(_, model_requests_thinking) := map_model_name (model req) in
  if model_requests_thinking && negb thinking_enabled then true
  else thinking_enabled.

(** The payload: [conversationState], without tools and images. *)
Record QPayload := mkPayload {
  conversationId : pystr;
  history : list history_entry;
  current_content : pystr;
  current_toolResults : option (list ToolResult);
  modelId : pystr
}.

Definition convert_claude_to_amazonq_request (req : ClaudeRequest)
    (conversation_id : option pystr) : outcome QPayload convert_error :=
  let conversation_id := default uuid4 conversation_id in
  match _detect_tool_call_loop (messages req) 3 with
  | Raised e => Raised e
  | OutOfFuel => OutOfFuel
  | Return (Some (tool, count)) => Raised (LoopDetected tool count)
  | Return None =>
      let thinking_enabled := thinking_enabled_of req in
      let model_id := fst (map_model_name (model req)) in
      let '(prompt_content, tool_results, has_tool_result) :=
        current_message_parts (messages req) in
      let last_tool_use_order := last_tool_use_order_of (messages req) in
      let tool_results := reorder_if_any tool_results last_tool_use_order in
      let tool_results :=
        match tool_results with
        | Some (_ :: _) => tool_results
        | _ => None
        end in
      let formatted_content :=
        format_content req prompt_content has_tool_result thinking_enabled in
      let history_msgs :=
        if Nat.ltb 1 (length (messages req))
        then take (length (messages req) - 1) (messages req) else [] in
      let aq_history :=
        process_history history_msgs thinking_enabled THINKING_HINT in
      match _validate_history_alternation aq_history with
      | Some e => Raised e
      | None =>
          Return (mkPayload conversation_id aq_history formatted_content
                    tool_results model_id)
      end
  end.

End WithBuiltins.

End Converter.

(* ================================================================== *)
(** * Example requests *)
(* ================================================================== *)

Module ConverterExamples.
Import Converter Reference.

Definition user_text (s : string) : ClaudeMessage :=
  mkMessage (py "user") (CStr (py s)).

Definition assistant (blocks : list block) : ClaudeMessage :=
  mkMessage (py "assistant") (CList blocks).

Definition plain_request (msgs : list ClaudeMessage) : ClaudeRequest :=
  mkRequest (py "claude-sonnet-4.5") msgs None None None.

(** [tool_use{id, name: "search", input: {"q": "x"}}] *)
Definition search_input : json := JDict [(py "q", JStr (py "x"))].
Definition search_call (id : string) : block :=
  BToolUse (Some (py id)) (Some (py "search")) (Some search_input).

Definition result_for (id : string) (text : string) : block :=
  BToolResult (Some (py id)) (RCStr (py text)) None false.

(** Three identical calls in one assistant message, answered by the
    user message that follows. *)
Definition parallel_calls_request : ClaudeRequest :=
  plain_request
    [user_text "go";
     assistant [search_call "t1"; search_call "t2"; search_call "t3"];
     mkMessage (py "user")
       (CList [result_for "t1" "a"; result_for "t2" "b";
               result_for "t3" "c"])].

(** Three assistant messages in a row, each with the same call. *)
Definition three_in_a_row_request : ClaudeRequest :=
  plain_request
    [user_text "go"; assistant [search_call "t1"];
     assistant [search_call "t2"]; assistant [search_call "t3"]].

(** Results given as [C, A, B]. *)
Definition results_c_a_b : list block :=
  [result_for "C" "c"; result_for "A" "a"; result_for "B" "b"].


Definition ok_result (id : option pystr) (text : string) : ToolResult :=
  mkToolResult id [py text] (py "success").



(** [thinking = {"enabled": false, "budget_tokens": 1000}] *)
Definition budget_without_enabled_request : ClaudeRequest :=
  mkRequest (py "claude-sonnet-4.5") [user_text "hi"] None None
    (Some (JDict [(py "enabled", JBool false);
                  (py "budget_tokens", JInt 1000)])).


End ConverterExamples.

(* ================================================================== *)
(** * Streaming emitter (claude_stream.py) *)
(* ================================================================== *)

Module Stream.

Definition THINKING_START_TAG : pystr := py "<thinking>".
Definition THINKING_END_TAG : pystr := py "</thinking>".

Definition nonempty {A} (l : list A) : bool :=
  match l with [] => false | _ => true end.

(** ** [_pending_tag_suffix] (lines 24-32) *)

(** [for length in range(max_len, 0, -1)] *)
Fixpoint pending_loop (len : nat) (buffer tag : pystr) : nat :=
  match len with
  | O => 0
  | S len' =>
      if str_eqb (drop (length buffer - len) buffer) (take len tag) then len
      else pending_loop len' buffer tag
  end.

Definition _pending_tag_suffix (buffer tag : pystr) : nat :=
  if negb (nonempty buffer) || negb (nonempty tag) then 0%nat
  else pending_loop (Nat.min (length buffer) (length tag - 1)) buffer tag.

(** ** [QuoteState] (lines 44-110) *)

Record QuoteState := mkQuote {
  in_single : bool;
  in_double : bool;
  in_backtick : bool;
  in_triple_backtick : bool
}.

(** [QuoteState()], and what [reset] restores. *)
Definition new_quote_state : QuoteState := mkQuote false false false false.

Definition is_inside_quotes (q : QuoteState) : bool :=
  in_single q || in_double q || in_backtick q || in_triple_backtick q.

Definition BACKTICK : N := 96.
Definition DOUBLE_QUOTE : N := 34.
Definition SINGLE_QUOTE : N := 39.
Definition BACKSLASH : N := 92.

(** The characters a backslash escapes: both quotes, the backtick and
    the backslash itself. *)
Definition escapable (c : N) : bool :=
  ((c =? DOUBLE_QUOTE) || (c =? SINGLE_QUOTE) || (c =? BACKTICK)
   || (c =? BACKSLASH))%N.

(** The toggles of one character. *)
Definition toggle (ch : N) (q : QuoteState) : QuoteState :=
  if (ch =? BACKTICK)%N && negb (in_triple_backtick q)
     && negb (in_single q) && negb (in_double q)
  then mkQuote (in_single q) (in_double q) (negb (in_backtick q))
         (in_triple_backtick q)
  else if (ch =? DOUBLE_QUOTE)%N && negb (in_single q)
          && negb (in_backtick q) && negb (in_triple_backtick q)
  then mkQuote (in_single q) (negb (in_double q)) (in_backtick q)
         (in_triple_backtick q)
  else if (ch =? SINGLE_QUOTE)%N && negb (in_double q)
          && negb (in_backtick q) && negb (in_triple_backtick q)
  then mkQuote (negb (in_single q)) (in_double q) (in_backtick q)
         (in_triple_backtick q)
  else q.

(** One pass through the body of the [while] loop that [update] and
    [check_at_position] share: the next index and the flags. *)
Definition quote_step (text : pystr) (i : nat) (q : QuoteState)
  : nat * QuoteState :=
  if Nat.ltb (i + 2) (length text)
     && str_eqb (slice text i (i + 3)) [BACKTICK; BACKTICK; BACKTICK]
  then ((i + 3)%nat,
        mkQuote (in_single q) (in_double q) (in_backtick q)
          (negb (in_triple_backtick q)))
  else
    match text !! i with
    | None => ((i + 1)%nat, q)
    | Some ch =>
        if (ch =? BACKSLASH)%N && Nat.ltb (i + 1) (length text)
           && match text !! (i + 1)%nat with
              | Some next_ch => escapable next_ch
              | None => false
              end
        then ((i + 2)%nat, q)
        else ((i + 1)%nat, toggle ch q)
    end.

(** [while i < bound]; every pass moves [i] forward, so [bound - i]
    passes are enough. *)
Fixpoint quote_loop (fuel : nat) (text : pystr) (bound i : nat)
    (q : QuoteState) : QuoteState :=
  match fuel with
  | O => q
  | S fuel' =>
      if Nat.ltb i bound then
        let '(i', q') := quote_step text i q in
        quote_loop fuel' text bound i' q'
      else q
  end.

(** [update] *)
Definition update (q : QuoteState) (text : pystr) : QuoteState :=
  quote_loop (length text) text (length text) 0 q.

(** [check_at_position], for [pos <= len(text)]. *)
Definition check_at_position (q : QuoteState) (text : pystr) (pos : nat)
  : bool :=
  is_inside_quotes (quote_loop pos text pos 0 q).

(** ** [find_real_tag] (lines 117-130), always called with a state *)

Fixpoint find_real_tag_loop (fuel : nat) (text tag : pystr) (pos : nat)
    (q : QuoteState) : option nat :=
  match fuel with
  | O => None
  | S fuel' =>
      match Py.find text tag pos with
      | None => None
      | Some idx =>
          if negb (check_at_position q text idx) then Some idx
          else find_real_tag_loop fuel' text tag (idx + 1) q
      end
  end.

(** [None] is the [-1] of the source. Every pass starts after the
    occurrence found by the one before, so [len(text) + 1] passes are
    enough. *)
Definition find_real_tag (text tag : pystr) (start : nat) (q : QuoteState)
  : option nat :=
  find_real_tag_loop (S (length text)) text tag start q.

(** ** The events (claude_parser.py, lines 377-479)

    An SSE event is kept as the data [_sse_format] renders. *)

Inductive block_kind :=
| TextBlock
| ThinkingBlock
| ToolUseBlock (tool_use_id tool_name : pystr).

Inductive delta_kind := TextDelta | ThinkingDelta | InputJsonDelta.

Inductive sse :=
| MessageStart (conversation_id model : pystr) (input_tokens : Z)
| Ping
| ContentBlockStart (index : Z) (kind : block_kind)
| ContentBlockDelta (index : Z) (kind : delta_kind) (payload : pystr)
| ContentBlockStop (index : Z)
| MessageDelta (stop_reason : pystr) (output_tokens : Z)
| MessageStop.

Definition build_message_start (conversation_id model : pystr)
    (input_tokens : Z) : list sse :=
  [MessageStart conversation_id model input_tokens].
Definition build_ping : list sse := [Ping].
Definition build_content_block_start (index : Z) (kind : block_kind)
  : list sse := [ContentBlockStart index kind].
Definition build_content_block_delta (index : Z) (text : pystr)
    (kind : delta_kind) : list sse := [ContentBlockDelta index kind text].
Definition build_content_block_stop (index : Z) : list sse :=
  [ContentBlockStop index].
(** [x or default] on an optional string: [None] when [x] is [None] or
    empty. *)
Definition truthy_str (s : option pystr) : option pystr :=
  match s with
  | Some (c :: s') => Some (c :: s')
  | _ => None
  end.

(** One string of the source, holding two events. *)
Definition build_message_stop (input_tokens output_tokens : Z)
    (stop_reason : option pystr) : list sse :=
  [MessageDelta (default (py "end_turn") (truthy_str stop_reason))
     output_tokens;
   MessageStop].
Definition build_tool_use_start (index : Z) (tool_use_id tool_name : pystr)
  : list sse := [ContentBlockStart index (ToolUseBlock tool_use_id tool_name)].
Definition build_tool_use_input_delta (index : Z) (input_json_delta : pystr)
  : list sse := [ContentBlockDelta index InputJsonDelta input_json_delta].

(** The upstream events, with the keys of the payload the handler reads
    (an absent key is [None], or the default passed to [get]). *)
Inductive upstream_event :=
| InitialResponse (conversationId : option pystr)
| AssistantResponseEvent (content : pystr)
| ToolUseEvent (toolUseId name : option pystr) (input : json) (stop : bool)
| AssistantResponseEnd
| OtherEvent (event_type : pystr).

(** ** [ClaudeStreamHandler] (lines 166-421) *)

Record ClaudeStreamHandler := mkHandler {
  model : pystr;
  input_tokens : Z;
  response_buffer : list pystr;
  content_block_index : Z;
  content_block_started : bool;
  content_block_start_sent : bool;
  content_block_stop_sent : bool;
  message_start_sent : bool;
  conversation_id : option pystr;
  current_tool_use : option (pystr * pystr);
  tool_input_buffer : list pystr;
  tool_use_id : option pystr;
  tool_name : option pystr;
  _processed_tool_use_ids : list pystr;
  all_tool_inputs : list pystr;
  has_tool_use : bool;
  response_ended : bool;
  in_think_block : bool;
  think_buffer : pystr;
  pending_start_tag_chars : nat;
  quote_state : QuoteState
}.

(** Assignments to the attributes. *)
Definition set_model (v : pystr) (h : ClaudeStreamHandler)
  : ClaudeStreamHandler :=
  mkHandler v (input_tokens h) (response_buffer h) (content_block_index h)
    (content_block_started h) (content_block_start_sent h)
    (content_block_stop_sent h) (message_start_sent h) (conversation_id h)
    (current_tool_use h) (tool_input_buffer h) (tool_use_id h) (tool_name h)
    (_processed_tool_use_ids h) (all_tool_inputs h) (has_tool_use h)
    (response_ended h) (in_think_block h) (think_buffer h)
    (pending_start_tag_chars h) (quote_state h).
Definition set_input_tokens (v : Z) (h : ClaudeStreamHandler)
  : ClaudeStreamHandler :=
  mkHandler (model h) v (response_buffer h) (content_block_index h)
    (content_block_started h) (content_block_start_sent h)
    (content_block_stop_sent h) (message_start_sent h) (conversation_id h)
    (current_tool_use h) (tool_input_buffer h) (tool_use_id h) (tool_name h)
    (_processed_tool_use_ids h) (all_tool_inputs h) (has_tool_use h)
    (response_ended h) (in_think_block h) (think_buffer h)
    (pending_start_tag_chars h) (quote_state h).
Definition set_response_buffer (v : list pystr) (h : ClaudeStreamHandler)
  : ClaudeStreamHandler :=
  mkHandler (model h) (input_tokens h) v (content_block_index h)
    (content_block_started h) (content_block_start_sent h)
    (content_block_stop_sent h) (message_start_sent h) (conversation_id h)
    (current_tool_use h) (tool_input_buffer h) (tool_use_id h) (tool_name h)
    (_processed_tool_use_ids h) (all_tool_inputs h) (has_tool_use h)
    (response_ended h) (in_think_block h) (think_buffer h)
    (pending_start_tag_chars h) (quote_state h).
Definition set_content_block_index (v : Z) (h : ClaudeStreamHandler)
  : ClaudeStreamHandler :=
  mkHandler (model h) (input_tokens h) (response_buffer h) v
    (content_block_started h) (content_block_start_sent h)
    (content_block_stop_sent h) (message_start_sent h) (conversation_id h)
    (current_tool_use h) (tool_input_buffer h) (tool_use_id h) (tool_name h)
    (_processed_tool_use_ids h) (all_tool_inputs h) (has_tool_use h)
    (response_ended h) (in_think_block h) (think_buffer h)
    (pending_start_tag_chars h) (quote_state h).
Definition set_content_block_started (v : bool) (h : ClaudeStreamHandler)
  : ClaudeStreamHandler :=
  mkHandler (model h) (input_tokens h) (response_buffer h)
    (content_block_index h) v (content_block_start_sent h)
    (content_block_stop_sent h) (message_start_sent h) (conversation_id h)
    (current_tool_use h) (tool_input_buffer h) (tool_use_id h) (tool_name h)
    (_processed_tool_use_ids h) (all_tool_inputs h) (has_tool_use h)
    (response_ended h) (in_think_block h) (think_buffer h)
    (pending_start_tag_chars h) (quote_state h).
Definition set_content_block_start_sent (v : bool) (h : ClaudeStreamHandler)
  : ClaudeStreamHandler :=
  mkHandler (model h) (input_tokens h) (response_buffer h)
    (content_block_index h) (content_block_started h) v
    (content_block_stop_sent h) (message_start_sent h) (conversation_id h)
    (current_tool_use h) (tool_input_buffer h) (tool_use_id h) (tool_name h)
    (_processed_tool_use_ids h) (all_tool_inputs h) (has_tool_use h)
    (response_ended h) (in_think_block h) (think_buffer h)
    (pending_start_tag_chars h) (quote_state h).
Definition set_content_block_stop_sent (v : bool) (h : ClaudeStreamHandler)
  : ClaudeStreamHandler :=
  mkHandler (model h) (input_tokens h) (response_buffer h)
    (content_block_index h) (content_block_started h)
    (content_block_start_sent h) v (message_start_sent h)
    (conversation_id h) (current_tool_use h) (tool_input_buffer h)
    (tool_use_id h) (tool_name h) (_processed_tool_use_ids h)
    (all_tool_inputs h) (has_tool_use h) (response_ended h)
    (in_think_block h) (think_buffer h) (pending_start_tag_chars h)
    (quote_state h).
Definition set_message_start_sent (v : bool) (h : ClaudeStreamHandler)
  : ClaudeStreamHandler :=
  mkHandler (model h) (input_tokens h) (response_buffer h)
    (content_block_index h) (content_block_started h)
    (content_block_start_sent h) (content_block_stop_sent h) v
    (conversation_id h) (current_tool_use h) (tool_input_buffer h)
    (tool_use_id h) (tool_name h) (_processed_tool_use_ids h)
    (all_tool_inputs h) (has_tool_use h) (response_ended h)
    (in_think_block h) (think_buffer h) (pending_start_tag_chars h)
    (quote_state h).
Definition set_conversation_id (v : option pystr) (h : ClaudeStreamHandler)
  : ClaudeStreamHandler :=
  mkHandler (model h) (input_tokens h) (response_buffer h)
    (content_block_index h) (content_block_started h)
    (content_block_start_sent h) (content_block_stop_sent h)
    (message_start_sent h) v (current_tool_use h) (tool_input_buffer h)
    (tool_use_id h) (tool_name h) (_processed_tool_use_ids h)
    (all_tool_inputs h) (has_tool_use h) (response_ended h)
    (in_think_block h) (think_buffer h) (pending_start_tag_chars h)
    (quote_state h).
Definition set_current_tool_use (v : option (pystr * pystr)) (h : ClaudeStreamHandler)
  : ClaudeStreamHandler :=
  mkHandler (model h) (input_tokens h) (response_buffer h)
    (content_block_index h) (content_block_started h)
    (content_block_start_sent h) (content_block_stop_sent h)
    (message_start_sent h) (conversation_id h) v (tool_input_buffer h)
    (tool_use_id h) (tool_name h) (_processed_tool_use_ids h)
    (all_tool_inputs h) (has_tool_use h) (response_ended h)
    (in_think_block h) (think_buffer h) (pending_start_tag_chars h)
    (quote_state h).
Definition set_tool_input_buffer (v : list pystr) (h : ClaudeStreamHandler)
  : ClaudeStreamHandler :=
  mkHandler (model h) (input_tokens h) (response_buffer h)
    (content_block_index h) (content_block_started h)
    (content_block_start_sent h) (content_block_stop_sent h)
    (message_start_sent h) (conversation_id h) (current_tool_use h) v
    (tool_use_id h) (tool_name h) (_processed_tool_use_ids h)
    (all_tool_inputs h) (has_tool_use h) (response_ended h)
    (in_think_block h) (think_buffer h) (pending_start_tag_chars h)
    (quote_state h).
Definition set_tool_use_id (v : option pystr) (h : ClaudeStreamHandler)
  : ClaudeStreamHandler :=
  mkHandler (model h) (input_tokens h) (response_buffer h)
    (content_block_index h) (content_block_started h)
    (content_block_start_sent h) (content_block_stop_sent h)
    (message_start_sent h) (conversation_id h) (current_tool_use h)
    (tool_input_buffer h) v (tool_name h) (_processed_tool_use_ids h)
    (all_tool_inputs h) (has_tool_use h) (response_ended h)
    (in_think_block h) (think_buffer h) (pending_start_tag_chars h)
    (quote_state h).
Definition set_tool_name (v : option pystr) (h : ClaudeStreamHandler)
  : ClaudeStreamHandler :=
  mkHandler (model h) (input_tokens h) (response_buffer h)
    (content_block_index h) (content_block_started h)
    (content_block_start_sent h) (content_block_stop_sent h)
    (message_start_sent h) (conversation_id h) (current_tool_use h)
    (tool_input_buffer h) (tool_use_id h) v (_processed_tool_use_ids h)
    (all_tool_inputs h) (has_tool_use h) (response_ended h)
    (in_think_block h) (think_buffer h) (pending_start_tag_chars h)
    (quote_state h).
Definition set_processed_tool_use_ids (v : list pystr) (h : ClaudeStreamHandler)
  : ClaudeStreamHandler :=
  mkHandler (model h) (input_tokens h) (response_buffer h)
    (content_block_index h) (content_block_started h)
    (content_block_start_sent h) (content_block_stop_sent h)
    (message_start_sent h) (conversation_id h) (current_tool_use h)
    (tool_input_buffer h) (tool_use_id h) (tool_name h) v
    (all_tool_inputs h) (has_tool_use h) (response_ended h)
    (in_think_block h) (think_buffer h) (pending_start_tag_chars h)
    (quote_state h).
Definition set_all_tool_inputs (v : list pystr) (h : ClaudeStreamHandler)
  : ClaudeStreamHandler :=
  mkHandler (model h) (input_tokens h) (response_buffer h)
    (content_block_index h) (content_block_started h)
    (content_block_start_sent h) (content_block_stop_sent h)
    (message_start_sent h) (conversation_id h) (current_tool_use h)
    (tool_input_buffer h) (tool_use_id h) (tool_name h)
    (_processed_tool_use_ids h) v (has_tool_use h) (response_ended h)
    (in_think_block h) (think_buffer h) (pending_start_tag_chars h)
    (quote_state h).
Definition set_has_tool_use (v : bool) (h : ClaudeStreamHandler)
  : ClaudeStreamHandler :=
  mkHandler (model h) (input_tokens h) (response_buffer h)
    (content_block_index h) (content_block_started h)
    (content_block_start_sent h) (content_block_stop_sent h)
    (message_start_sent h) (conversation_id h) (current_tool_use h)
    (tool_input_buffer h) (tool_use_id h) (tool_name h)
    (_processed_tool_use_ids h) (all_tool_inputs h) v (response_ended h)
    (in_think_block h) (think_buffer h) (pending_start_tag_chars h)
    (quote_state h).
Definition set_response_ended (v : bool) (h : ClaudeStreamHandler)
  : ClaudeStreamHandler :=
  mkHandler (model h) (input_tokens h) (response_buffer h)
    (content_block_index h) (content_block_started h)
    (content_block_start_sent h) (content_block_stop_sent h)
    (message_start_sent h) (conversation_id h) (current_tool_use h)
    (tool_input_buffer h) (tool_use_id h) (tool_name h)
    (_processed_tool_use_ids h) (all_tool_inputs h) (has_tool_use h) v
    (in_think_block h) (think_buffer h) (pending_start_tag_chars h)
    (quote_state h).
Definition set_in_think_block (v : bool) (h : ClaudeStreamHandler)
  : ClaudeStreamHandler :=
  mkHandler (model h) (input_tokens h) (response_buffer h)
    (content_block_index h) (content_block_started h)
    (content_block_start_sent h) (content_block_stop_sent h)
    (message_start_sent h) (conversation_id h) (current_tool_use h)
    (tool_input_buffer h) (tool_use_id h) (tool_name h)
    (_processed_tool_use_ids h) (all_tool_inputs h) (has_tool_use h)
    (response_ended h) v (think_buffer h) (pending_start_tag_chars h)
    (quote_state h).
Definition set_think_buffer (v : pystr) (h : ClaudeStreamHandler)
  : ClaudeStreamHandler :=
  mkHandler (model h) (input_tokens h) (response_buffer h)
    (content_block_index h) (content_block_started h)
    (content_block_start_sent h) (content_block_stop_sent h)
    (message_start_sent h) (conversation_id h) (current_tool_use h)
    (tool_input_buffer h) (tool_use_id h) (tool_name h)
    (_processed_tool_use_ids h) (all_tool_inputs h) (has_tool_use h)
    (response_ended h) (in_think_block h) v (pending_start_tag_chars h)
    (quote_state h).
Definition set_pending_start_tag_chars (v : nat) (h : ClaudeStreamHandler)
  : ClaudeStreamHandler :=
  mkHandler (model h) (input_tokens h) (response_buffer h)
    (content_block_index h) (content_block_started h)
    (content_block_start_sent h) (content_block_stop_sent h)
    (message_start_sent h) (conversation_id h) (current_tool_use h)
    (tool_input_buffer h) (tool_use_id h) (tool_name h)
    (_processed_tool_use_ids h) (all_tool_inputs h) (has_tool_use h)
    (response_ended h) (in_think_block h) (think_buffer h) v (quote_state h).
Definition set_quote_state (v : QuoteState) (h : ClaudeStreamHandler)
  : ClaudeStreamHandler :=
  mkHandler (model h) (input_tokens h) (response_buffer h)
    (content_block_index h) (content_block_started h)
    (content_block_start_sent h) (content_block_stop_sent h)
    (message_start_sent h) (conversation_id h) (current_tool_use h)
    (tool_input_buffer h) (tool_use_id h) (tool_name h)
    (_processed_tool_use_ids h) (all_tool_inputs h) (has_tool_use h)
    (response_ended h) (in_think_block h) (think_buffer h)
    (pending_start_tag_chars h) v.

(** [ClaudeStreamHandler(model, input_tokens, conversation_id)] *)
Definition new_handler (model : pystr) (input_tokens : Z)
    (conversation_id : option pystr) : ClaudeStreamHandler :=
  mkHandler model input_tokens [] (-1) false false false false
    conversation_id None [] None None [] [] false false false [] 0
    new_quote_state.

Section WithBuiltins.
Context `{B : Builtins}.

(** [count_tokens] *)
Definition count_tokens (text : pystr) : Z :=
  match tiktoken_len with
  | Some encoded_len => if nonempty text then encoded_len text else 0
  | None => 0
  end.

(** [if self.content_block_start_sent:] stop the open block (lines
    242-245 and 287-290). *)
Definition stop_open_block (h : ClaudeStreamHandler)
  : ClaudeStreamHandler * list sse :=
  if content_block_start_sent h then
    let out := build_content_block_stop (content_block_index h) in
    let h := set_content_block_stop_sent true h in
    let h := set_content_block_start_sent false h in
    (h, out)
  else (h, []).

(** Start a block of the next index (lines 247-251, 263-267, 276-280 and
    292-296). *)
Definition start_block (kind : block_kind) (h : ClaudeStreamHandler)
  : ClaudeStreamHandler * list sse :=
  let h := set_content_block_index (content_block_index h + 1) h in
  let out := build_content_block_start (content_block_index h) kind in
  let h := set_content_block_start_sent true h in
  let h := set_content_block_started true h in
  let h := set_content_block_stop_sent false h in
  (h, out).

(** [if text_chunk:] emit it as a text delta (lines 261-270 and 274-283). *)
Definition emit_text (text_chunk : pystr) (h : ClaudeStreamHandler)
  : ClaudeStreamHandler * list sse :=
  if nonempty text_chunk then
    let '(h, out1) :=
      if negb (content_block_start_sent h) then start_block TextBlock h
      else (h, []) in
    let h := set_response_buffer (response_buffer h ++ [text_chunk]) h in
    let out2 :=
      build_content_block_delta (content_block_index h) text_chunk TextDelta in
    let h := set_quote_state (update (quote_state h) text_chunk) h in
    (h, out1 ++ out2)
  else (h, []).

(** [if thinking_chunk:] emit it as a thinking delta. *)
Definition emit_thinking (thinking_chunk : pystr) (h : ClaudeStreamHandler)
  : list sse :=
  if nonempty thinking_chunk then
    build_content_block_delta (content_block_index h) thinking_chunk
      ThinkingDelta
  else [].

(** One pass through the body of [while self.think_buffer] (lines
    225-329): the handler, what was yielded, and whether the pass ended
    without [break]. *)
Definition think_step (h : ClaudeStreamHandler)
  : ClaudeStreamHandler * list sse * bool :=
  if Nat.ltb 0 (pending_start_tag_chars h) then
    if Nat.ltb (length (think_buffer h)) (pending_start_tag_chars h) then
      let h := set_pending_start_tag_chars
                 (pending_start_tag_chars h - length (think_buffer h)) h in
      let h := set_think_buffer [] h in
      (h, [], false)
    else
      let h := set_think_buffer
                 (drop (pending_start_tag_chars h) (think_buffer h)) h in
      let h := set_pending_start_tag_chars 0 h in
      if negb (nonempty (think_buffer h)) then (h, [], false)
      else (h, [], true)
  else if negb (in_think_block h) then
    match find_real_tag (think_buffer h) THINKING_START_TAG 0 (quote_state h)
    with
    | None =>
        let pending :=
          _pending_tag_suffix (think_buffer h) THINKING_START_TAG in
        if Nat.eqb pending (length (think_buffer h)) && Nat.ltb 0 pending
        then
          let '(h, out1) := stop_open_block h in
          let '(h, out2) := start_block ThinkingBlock h in
          let h := set_in_think_block true h in
          let h := set_pending_start_tag_chars
                     (length THINKING_START_TAG - pending) h in
          let h := set_think_buffer [] h in
          (h, out1 ++ out2, false)
        else
          let emit_len := (length (think_buffer h) - pending)%nat in
          if Nat.leb emit_len 0 then (h, [], false)
          else
            let text_chunk := take emit_len (think_buffer h) in
            let '(h, out) := emit_text text_chunk h in
            let h := set_think_buffer (drop emit_len (think_buffer h)) h in
            (h, out, true)
    | Some think_start =>
        let before_text := take think_start (think_buffer h) in
        let '(h, out1) := emit_text before_text h in
        let h := set_think_buffer
                   (drop (think_start + length THINKING_START_TAG)
                      (think_buffer h)) h in
        let h := set_quote_state new_quote_state h in
        let '(h, out2) := stop_open_block h in
        let '(h, out3) := start_block ThinkingBlock h in
        let h := set_in_think_block true h in
        let h := set_pending_start_tag_chars 0 h in
        (h, out1 ++ out2 ++ out3, true)
    end
  else
    match find_real_tag (think_buffer h) THINKING_END_TAG 0 (quote_state h)
    with
    | None =>
        let pending := _pending_tag_suffix (think_buffer h) THINKING_END_TAG in
        let emit_len := (length (think_buffer h) - pending)%nat in
        if Nat.leb emit_len 0 then (h, [], false)
        else
          let thinking_chunk := take emit_len (think_buffer h) in
          let out := emit_thinking thinking_chunk h in
          let h := set_think_buffer (drop emit_len (think_buffer h)) h in
          (h, out, true)
    | Some think_end =>
        let thinking_chunk := take think_end (think_buffer h) in
        let out1 := emit_thinking thinking_chunk h in
        let h := set_think_buffer
                   (drop (think_end + length THINKING_END_TAG)
                      (think_buffer h)) h in
        let out2 := build_content_block_stop (content_block_index h) in
        let h := set_content_block_stop_sent true h in
        let h := set_content_block_start_sent false h in
        let h := set_in_think_block false h in
        (h, out1 ++ out2, true)
    end.

(** [while self.think_buffer]: a pass that does not [break] shortens
    the buffer, so [len(think_buffer) + 1] passes are enough. *)
Fixpoint think_loop (fuel : nat) (h : ClaudeStreamHandler)
  : outcome (ClaudeStreamHandler * list sse) unit :=
  match fuel with
  | O => OutOfFuel
  | S fuel' =>
      if negb (nonempty (think_buffer h)) then Return (h, [])
      else
        let '(h, out, go_on) := think_step h in
        if go_on then
          match think_loop fuel' h with
          | Return (h', out') => Return (h', out ++ out')
          | other => other
          end
        else Return (h, out)
  end.

(** [if self.current_tool_use and not self.content_block_stop_sent:]
    close the tool use block (lines 215-219). *)
Definition close_tool_block (h : ClaudeStreamHandler)
  : ClaudeStreamHandler * list sse :=
  match current_tool_use h with
  | Some _ =>
      if negb (content_block_stop_sent h) then
        let out := build_content_block_stop (content_block_index h) in
        let h := set_content_block_stop_sent true h in
        let h := set_current_tool_use None h in
        (h, out)
      else (h, [])
  | None => (h, [])
  end.

(** [handle_event] *)
Definition handle_event (h : ClaudeStreamHandler) (ev : upstream_event)
  : outcome (ClaudeStreamHandler * list sse) unit :=
  if response_ended h then Return (h, [])
  else
    match ev with
    | InitialResponse conversationId =>
        if negb (message_start_sent h) then
          let conv_id :=
            match truthy_str conversationId, truthy_str (conversation_id h)
            with
            | Some c, _ => c
            | None, Some c => c
            | None, None => uuid4
            end in
          let h := set_conversation_id (Some conv_id) h in
          let out1 := build_message_start conv_id (model h) (input_tokens h) in
          let h := set_message_start_sent true h in
          Return (h, out1 ++ build_ping)
        else Return (h, [])
    | AssistantResponseEvent content =>
        let '(h, out1) := close_tool_block h in
        if nonempty content then
          let h := set_think_buffer (think_buffer h ++ content) h in
          match think_loop (S (length (think_buffer h))) h with
          | Return (h, out2) => Return (h, out1 ++ out2)
          | other => other
          end
        else Return (h, out1)
    | ToolUseEvent tool_use_id tool_name tool_input is_stop =>
        let '(h, out1) :=
          match truthy_str tool_use_id, truthy_str tool_name,
                current_tool_use h with
          | Some tid, Some tname, None =>
              let '(h, out_stop) :=
                if content_block_start_sent h
                   && negb (content_block_stop_sent h)
                then (set_content_block_stop_sent true h,
                      build_content_block_stop (content_block_index h))
                else (h, []) in
              let h := set_processed_tool_use_ids
                         (_processed_tool_use_ids h ++ [tid]) h in
              let h := set_content_block_index (content_block_index h + 1) h in
              let out_start :=
                build_tool_use_start (content_block_index h) tid tname in
              let h := set_content_block_started true h in
              let h := set_current_tool_use (Some (tid, tname)) h in
              let h := set_tool_use_id (Some tid) h in
              let h := set_tool_name (Some tname) h in
              let h := set_tool_input_buffer [] h in
              let h := set_content_block_stop_sent false h in
              let h := set_content_block_start_sent true h in
              let h := set_has_tool_use true h in
              (h, out_stop ++ out_start)
          | _, _, _ => (h, [])
          end in
        let '(h, out2) :=
          match current_tool_use h with
          | Some _ =>
              if truthy tool_input then
                let fragment :=
                  match tool_input with
                  | JStr s => s
                  | other => json_dumps other
                  end in
                let h := set_tool_input_buffer
                           (tool_input_buffer h ++ [fragment]) h in
                (h, build_tool_use_input_delta (content_block_index h) fragment)
              else (h, [])
          | None => (h, [])
          end in
        let '(h, out3) :=
          match current_tool_use h with
          | Some _ =>
              if is_stop then
                let full_input := concat (tool_input_buffer h) in
                let h := set_all_tool_inputs
                           (all_tool_inputs h ++ [full_input]) h in
                let out := build_content_block_stop (content_block_index h) in
                let h := set_content_block_stop_sent true h in
                let h := set_content_block_started false h in
                let h := set_current_tool_use None h in
                let h := set_tool_use_id None h in
                let h := set_tool_name None h in
                let h := set_tool_input_buffer [] h in
                (h, out)
              else (h, [])
          | None => (h, [])
          end in
        Return (h, out1 ++ out2 ++ out3)
    | AssistantResponseEnd =>
        let '(h, out1) :=
          if content_block_started h && negb (content_block_stop_sent h)
          then (set_content_block_stop_sent true h,
                build_content_block_stop (content_block_index h))
          else (h, []) in
        let h := set_response_ended true h in
        let full_text := concat (response_buffer h) in
        let full_tool_input := concat (all_tool_inputs h) in
        let output_tokens :=
          count_tokens full_text + count_tokens full_tool_input in
        let stop_reason :=
          if has_tool_use h then py "tool_use" else py "end_turn" in
        Return (h, out1 ++ build_message_stop (input_tokens h) output_tokens
                             (Some stop_reason))
    | OtherEvent _ => Return (h, [])
    end.

(** [finish] *)
Definition finish (h : ClaudeStreamHandler)
  : ClaudeStreamHandler * list sse :=
  if response_ended h then (h, [])
  else
    let '(h, out1) :=
      if content_block_started h && negb (content_block_stop_sent h)
      then (set_content_block_stop_sent true h,
            build_content_block_stop (content_block_index h))
      else (h, []) in
    let full_text := concat (response_buffer h) in
    let full_tool_input := concat (all_tool_inputs h) in
    let output_tokens :=
      count_tokens full_text + count_tokens full_tool_input in
    let stop_reason :=
      if has_tool_use h then py "tool_use" else py "end_turn" in
    (h, out1 ++ build_message_stop (input_tokens h) output_tokens
                (Some stop_reason)).

(** The events fed one after the other to the same handler. *)
Fixpoint handle_events (h : ClaudeStreamHandler) (evs : list upstream_event)
  : outcome (ClaudeStreamHandler * list sse) unit :=
  match evs with
  | [] => Return (h, [])
  | ev :: evs' =>
      match handle_event h ev with
      | Return (h', out) =>
          match handle_events h' evs' with
          | Return (h'', out') => Return (h'', out ++ out')
          | other => other
          end
      | other => other
      end
  end.

End WithBuiltins.

End Stream.

(* ================================================================== *)
(** * Notions used to state the properties of the decoder *)
(* ================================================================== *)

Module DecoderSpec.
Import EventStream.


Section WithBuiltins.
Context `{B : Builtins}.




End WithBuiltins.

(** The measure that decreases at every pass of the loop of [feed]. *)
Definition feed_measure (d : Decoder) : nat :=
  2 * length (buffer d) + (if state_eqb (state d) RECOVERING then 0 else 1).


End DecoderSpec.

(* ================================================================== *)
(** * Notions used to state the properties of the transcoder *)
(* ================================================================== *)

Module ConverterSpec.
Import Converter.

Section WithBuiltins.
Context `{B : Builtins}.

(** ** Runs of identical tool calls *)

(** What the loop guard sees of a conversation: the tool calls of the
    assistant, and the user messages between them. *)
Inductive loop_event :=
| Call (c : tool_call)
| UserTurn.

Definition call_of (b : block) : option loop_event :=
  match b with
  | BToolUse _ tool_name input =>
      Some (Call (tool_name, json_dumps_sorted (default (JDict []) input)))
  | _ => None
  end.

Definition events_of_message (msg : ClaudeMessage) : list loop_event :=
  match str_eqb (role msg) (py "assistant"), content msg with
  | true, CList blocks => omap call_of blocks
  | _, _ => if str_eqb (role msg) (py "user") then [UserTurn] else []
  end.

(** The events of the last ten messages. *)
Definition events_of (msgs : list ClaudeMessage) : list loop_event :=
  flat_map events_of_message (last_ten msgs).

(** Somewhere in [evs], [n] identical calls in a row. *)
Definition has_run (n : nat) (evs : list loop_event) : Prop :=
  exists pre c post, evs = pre ++ repeat (Call c) n ++ post.

(** [evs] ends with [n] identical calls. *)
Definition ends_with_run (n : nat) (evs : list loop_event) : Prop :=
  exists pre c, evs = pre ++ repeat (Call c) n.

Definition loop_event_step (st : loop_state) (e : loop_event) : loop_state :=
  match e with
  | Call c =>
      if bool_decide (Some c = last_tool_call st)
      then mkLoop (consecutive_count st + 1) (last_tool_call st)
      else mkLoop 1 (Some c)
  | UserTurn => mkLoop 0 None
  end.

(** ** The order of tool results *)




(** The [toolResults] the transcoder builds from the blocks of a user
    message, before any reordering. *)
Definition tool_results_of (blocks : list block) : list ToolResult :=
  default [] (snd (scan_user_blocks blocks [] None)).

(** ** The sections of the current message *)






(** ** Thinking mode *)

(** [str(type).lower() == "enabled"] for the [type] key of a dict. *)
Definition type_enabled (d : odict json) : Prop :=
  str_lower (str_of (default (JStr []) (dict_get d (py "type"))))
  = py "enabled".

Definition positive_budget (d : odict json) : Prop :=
  match dict_get d (py "budget_tokens") with
  | Some (JInt z) => 0 < z
  | Some (JFloat f) => PrimFloat.ltb 0%float f = true
  | Some (JBool b) => b = true
  | _ => False
  end.

Definition enabled_flag (d : odict json) : option bool :=
  match dict_get d (py "enabled") with
  | Some (JBool b) => Some b
  | _ => None
  end.

(** The configurations that enable thinking. *)
Definition config_enables (cfg : option json) : Prop :=
  cfg = Some (JBool true)
  \/ (exists s, cfg = Some (JStr s) /\ str_lower s = py "enabled")
  \/ (exists d, cfg = Some (JDict d)
                /\ (type_enabled d
                    \/ enabled_flag d = Some true
                    \/ (enabled_flag d = None /\ positive_budget d))).

(** The model names that request thinking: trimmed and lower-cased, at
    most 100 characters, ending in [-thinking]. *)
Definition model_requests_thinking (claude_model : pystr) : Prop :=
  (length (normalize_model claude_model) <= 100)%nat
  /\ ends_with (py "-thinking") (normalize_model claude_model) = true.

End WithBuiltins.

End ConverterSpec.

(* ================================================================== *)
(** * Notions used to state the properties of the streaming emitter *)
(* ================================================================== *)

Module StreamSpec.
Import Stream.

(** ** What a client reads off the events *)

Definition text_delta_of (e : sse) : option pystr :=
  match e with
  | ContentBlockDelta _ TextDelta payload => Some payload
  | _ => None
  end.

Definition thinking_delta_of (e : sse) : option pystr :=
  match e with
  | ContentBlockDelta _ ThinkingDelta payload => Some payload
  | _ => None
  end.

(** The payloads of the text deltas, in order. *)
Definition text_deltas (out : list sse) : list pystr :=
  omap text_delta_of out.

(** The payloads of the thinking deltas, in order. *)
Definition thinking_deltas (out : list sse) : list pystr :=
  omap thinking_delta_of out.

Definition is_message_start (e : sse) : bool :=
  match e with MessageStart _ _ _ => true | _ => false end.

Definition is_message_stop (e : sse) : bool :=
  match e with MessageStop => true | _ => false end.

Definition is_block_start (index : Z) (e : sse) : bool :=
  match e with ContentBlockStart i _ => i =? index | _ => false end.

Definition is_block_stop (index : Z) (e : sse) : bool :=
  match e with ContentBlockStop i => i =? index | _ => false end.

Definition count (p : sse -> bool) (out : list sse) : nat :=
  length (List.filter p out).


Definition start_index_of (e : sse) : option Z :=
  match e with ContentBlockStart i _ => Some i | _ => None end.

(** The indices of the blocks started, in order. *)
Definition start_indices (out : list sse) : list Z :=
  omap start_index_of out.



Definition delta_payload_of (e : sse) : option pystr :=
  match e with
  | ContentBlockDelta _ TextDelta payload
  | ContentBlockDelta _ ThinkingDelta payload => Some payload
  | _ => None
  end.

(** The events of a response: those of the upstream events, then those
    of [finish] when it is called. *)
Definition response `{B : Builtins} (h : ClaudeStreamHandler)
    (evs : list upstream_event) (call_finish : bool)
  : outcome (ClaudeStreamHandler * list sse) unit :=
  match handle_events h evs with
  | Return (h', out) =>
      if call_finish then
        let '(h'', out') := finish h' in Return (h'', out ++ out')
      else Return (h', out)
  | other => other
  end.


(** ** What a run of the handler keeps

    Relations between the handler before, the events emitted and the
    handler after. *)

(** The text kept for the token count is the text sent. *)
Definition keeps_response_text (h : ClaudeStreamHandler) (out : list sse)
    (h' : ClaudeStreamHandler) : Prop :=
  concat (response_buffer h')
  = concat (response_buffer h) ++ concat (text_deltas out).

(** The blocks started are numbered on from the handler's index. *)
Definition numbers_blocks (h : ClaudeStreamHandler) (out : list sse)
    (h' : ClaudeStreamHandler) : Prop :=
  start_indices out
  = seqZ (content_block_index h + 1) (Z.of_nat (length (start_indices out)))
  /\ content_block_index h'
     = content_block_index h + Z.of_nat (length (start_indices out)).

(** [message_start] is sent when [message_start_sent] is down, and
    raises it. *)
Definition starts_message_once (h : ClaudeStreamHandler) (out : list sse)
    (h' : ClaudeStreamHandler) : Prop :=
  if message_start_sent h
  then count is_message_start out = 0%nat /\ message_start_sent h' = true
  else count is_message_start out = 0%nat
       \/ (count is_message_start out = 1%nat
           /\ message_start_sent h' = true).




(** No text or thinking delta is empty. *)
Definition deltas_nonempty (out : list sse) : Prop :=
  Forall (fun payload : pystr => payload <> []) (omap delta_payload_of out).

(** ** Tags outside quotes *)

(** [tag] occurs in [text] at [j], and [check_at_position] finds [j]
    outside quotes. *)
Definition real_occurrence (q : QuoteState) (text tag : pystr) (j : nat)
  : bool :=
  starts_with tag (drop j text) && negb (check_at_position q text j).

(** [result] is what a search for the first such position from [start]
    on returns: the position, or [None] when there is none. *)
Definition first_real_occurrence (q : QuoteState) (text tag : pystr)
    (start : nat) (result : option nat) : Prop :=
  match result with
  | Some idx =>
      (start <= idx)%nat
      /\ real_occurrence q text tag idx = true
      /\ forall j, (start <= j < idx)%nat ->
                   real_occurrence q text tag j = false
  | None =>
      forall j, (start <= j)%nat -> real_occurrence q text tag j = false
  end.

(** ** Quote state of a chunked text *)

(** The state [update] leaves after the chunks, one call per chunk. *)
Definition update_chunks (q : QuoteState) (chunks : list pystr)
  : QuoteState :=
  fold_left update chunks q.

(** ** Texts with thinking spans *)

(** A text outside any span, then either the end or a span and what
    follows it. *)
Inductive doc :=
| Done (t : pystr)
| Span (t k : pystr) (rest : doc).

(** The text as it is streamed. *)
Fixpoint flatten (d : doc) : pystr :=
  match d with
  | Done t => t
  | Span t k rest =>
      t ++ THINKING_START_TAG ++ k ++ THINKING_END_TAG ++ flatten rest
  end.

(** The text with the spans removed. *)
Fixpoint text_of (d : doc) : pystr :=
  match d with
  | Done t => t
  | Span t _ rest => t ++ text_of rest
  end.

(** The interiors of the spans. *)
Fixpoint thinking_of (d : doc) : pystr :=
  match d with
  | Done _ => []
  | Span _ k rest => k ++ thinking_of rest
  end.

Definition LESS_THAN : N := 60.

Definition quote_char (c : N) : bool :=
  ((c =? BACKTICK) || (c =? DOUBLE_QUOTE) || (c =? SINGLE_QUOTE))%N.

(** No quote and no backtick: nothing [QuoteState] reacts to. *)
Definition quote_free (s : pystr) : bool :=
  forallb (fun c => negb (quote_char c)) s.

(** No [<]: no tag can start in it. *)
Definition angle_free (s : pystr) : bool :=
  forallb (fun c => negb (c =? LESS_THAN)%N) s.

(** [tag] does not occur in [k ++ tag] before the end of [k]. *)
Fixpoint closed_by (tag k : pystr) : bool :=
  match k with
  | [] => true
  | _ :: k' => negb (starts_with tag (k ++ tag)) && closed_by tag k'
  end.

(** Every text outside the spans is free of [<], every interior ends at
    the first end tag after its start tag, and no quote or backtick
    occurs. *)
Fixpoint well_formed (d : doc) : bool :=
  match d with
  | Done t => angle_free t && quote_free t
  | Span t k rest =>
      angle_free t && quote_free t
      && closed_by THINKING_END_TAG k && quote_free k
      && well_formed rest
  end.

(** What is left of the stream, seen from the handler: outside a span,
    inside a start tag with [n] characters to come, or inside a span. *)
Inductive residual :=
| ROuter (d : doc)
| RTag (n : nat) (k : pystr) (d : doc)
| RInner (k : pystr) (d : doc).

Definition remaining (r : residual) : pystr :=
  match r with
  | ROuter d => flatten d
  | RTag n k d =>
      drop (length THINKING_START_TAG - n) THINKING_START_TAG
      ++ k ++ THINKING_END_TAG ++ flatten d
  | RInner k d => k ++ THINKING_END_TAG ++ flatten d
  end.

Definition text_left (r : residual) : pystr :=
  match r with
  | ROuter d | RTag _ _ d | RInner _ d => text_of d
  end.

Definition thinking_left (r : residual) : pystr :=
  match r with
  | ROuter d => thinking_of d
  | RTag _ k d | RInner k d => k ++ thinking_of d
  end.

Definition residual_ok (r : residual) : bool :=
  match r with
  | ROuter d => well_formed d
  | RTag n k d =>
      Nat.ltb 0 n && Nat.leb n (length THINKING_START_TAG)
      && closed_by THINKING_END_TAG k && quote_free k && well_formed d
  | RInner k d =>
      closed_by THINKING_END_TAG k && quote_free k && well_formed d
  end.

(** ** The tag scanner of [handle_event]

    What the loop over [think_buffer] reads and writes of the handler:
    the buffer, [in_think_block], [pending_start_tag_chars] and the
    quote state. *)
Definition scan_state : Type := pystr * bool * nat * QuoteState.

Definition scanner (h : ClaudeStreamHandler) : scan_state :=
  (think_buffer h, in_think_block h, pending_start_tag_chars h,
   quote_state h).

Definition chunk_list (chunk : pystr) : list pystr :=
  if nonempty chunk then [chunk] else [].

(** One pass of the loop, on these fields alone: the fields after the
    pass, the text and the thinking it emits, and whether the loop goes
    on. [think_step] does this to the handler (lemma
    [think_step_scanner]). *)
Definition scan_step (s : scan_state)
  : scan_state * (list pystr * list pystr) * bool :=
  let '(buf, in_think, pending, q) := s in
  if Nat.ltb 0 pending then
    if Nat.ltb (length buf) pending
    then (([], in_think, (pending - length buf)%nat, q), ([], []), false)
    else if negb (nonempty (drop pending buf))
    then ((drop pending buf, in_think, 0%nat, q), ([], []), false)
    else ((drop pending buf, in_think, 0%nat, q), ([], []), true)
  else if negb in_think then
    match find_real_tag buf THINKING_START_TAG 0 q with
    | None =>
        let held := _pending_tag_suffix buf THINKING_START_TAG in
        if Nat.eqb held (length buf) && Nat.ltb 0 held then
          (([], true, (length THINKING_START_TAG - held)%nat, q),
           ([], []), false)
        else
          let emit_len := (length buf - held)%nat in
          if Nat.leb emit_len 0 then (s, ([], []), false)
          else
            let chunk := take emit_len buf in
            ((drop emit_len buf, in_think, pending,
              if nonempty chunk then update q chunk else q),
             (chunk_list chunk, []), true)
    | Some think_start =>
        ((drop (think_start + length THINKING_START_TAG) buf, true, 0%nat,
          new_quote_state),
         (chunk_list (take think_start buf), []), true)
    end
  else
    match find_real_tag buf THINKING_END_TAG 0 q with
    | None =>
        let held := _pending_tag_suffix buf THINKING_END_TAG in
        let emit_len := (length buf - held)%nat in
        if Nat.leb emit_len 0 then (s, ([], []), false)
        else
          ((drop emit_len buf, in_think, pending, q),
           ([], chunk_list (take emit_len buf)), true)
    | Some think_end =>
        ((drop (think_end + length THINKING_END_TAG) buf, false, pending, q),
         ([], chunk_list (take think_end buf)), true)
    end.

(** The loop, with the fuel of [think_loop]. *)
Fixpoint scan_loop (fuel : nat) (s : scan_state)
  : option (scan_state * (list pystr * list pystr)) :=
  match fuel with
  | O => None
  | S fuel' =>
      if negb (nonempty s.1.1.1) then Some (s, ([], []))
      else
        let '(s1, (texts, thinkings), go_on) := scan_step s in
        if go_on then
          match scan_loop fuel' s1 with
          | Some (s2, (texts', thinkings')) =>
              Some (s2, (texts ++ texts', thinkings ++ thinkings'))
          | None => None
          end
        else Some (s1, (texts, thinkings))
  end.

(** The scanner is at [r] with [future] still to be fed. *)
Definition at_residual (s : scan_state) (r : residual) (future : pystr)
  : Prop :=
  let '(buf, in_think, pending, q) := s in
  remaining r = buf ++ future
  /\ q = new_quote_state
  /\ match r with
     | ROuter _ => in_think = false /\ pending = 0%nat
     | RTag n _ _ => in_think = true /\ pending = n
     | RInner _ _ => in_think = true /\ pending = 0%nat
     end.

(** Between two events the buffer is empty, or holds the start of an
    end tag. *)
Definition stalled (s : scan_state) : Prop :=
  let '(buf, in_think, pending, q) := s in
  buf = []
  \/ (in_think = true /\ pending = 0%nat
      /\ Py.find buf THINKING_END_TAG 0 = None).

(** One pass from [r]: the scanner is at some [r'] afterwards, what was
    emitted is what lies between [r] and [r'], and a pass that leaves
    the loop leaves the scanner stalled. *)
Definition pass_ok (s : scan_state) (r : residual) (future : pystr)
  : Prop :=
  exists s' texts thinkings go_on r',
    scan_step s = (s', (texts, thinkings), go_on)
    /\ at_residual s' r' future
    /\ residual_ok r' = true
    /\ (go_on = false -> stalled s')
    /\ text_left r = concat texts ++ text_left r'
    /\ thinking_left r = concat thinkings ++ thinking_left r'.

End StreamSpec.

Module StreamExamples.
Import Stream StreamSpec Reference.

(** A handler as the server creates it for one response. *)
Definition fresh : ClaudeStreamHandler :=
  new_handler (py "claude-sonnet-4.5") 0 None.

(** Text chunks as the upstream events that carry them. *)
Definition text_events (chunks : list string) : list upstream_event :=
  map (fun s => AssistantResponseEvent (py s)) chunks.

(** A tool call that is complete in one event, then a thinking span. *)
Definition tool_then_thinking : list upstream_event :=
  [ToolUseEvent (Some (py "t1")) (Some (py "search")) (JDict []) true;
   AssistantResponseEvent (py "<thinking>ok</thinking>");
   AssistantResponseEnd].

(** A tool call left open, then text. *)
Definition tool_then_text : list upstream_event :=
  [ToolUseEvent (Some (py "t1")) (Some (py "search")) (JDict []) false;
   AssistantResponseEvent (py "done");
   AssistantResponseEnd].

(** A text, a thinking span and a text, cut inside both tags. *)
Definition cut_inside_tags : list pystr :=
  [py "ab<thi"; py "nking>x<y</th"; py "inking>cd"].

(** A start tag between quotes, then a start tag outside quotes. *)
Definition quoted_then_real : pystr :=
  py "say '<thinking>' then <thinking>go".

(** The text of [cut_inside_tags], with its span. *)
Definition text_with_span : doc :=
  Span (py "ab") (py "x<y") (Done (py "cd")).

(** Quotes that are closed, then a start tag. *)
Definition closed_quotes_then_tag : pystr := py "a 'b' <thinking>x".

End StreamExamples.

(* ================================================================== *)
(** * The rest of the parser: [reset], [parse_message], [parse_stream]
      (claude_parser.py, lines 199-203 and 297-359) *)
(* ================================================================== *)

Module ParserTools.
Import EventStream.




Section WithBuiltins.
Context `{B : Builtins}.



(** The loop of [parse_stream] over the chunks of a finite stream: the
    messages it yields, in order. *)
Fixpoint parse_stream_loop (decoder : Decoder) (byte_stream : list (list byte))
  : outcome (list Message) parse_exception :=
  match byte_stream with
  | [] => Return []
  | chunk :: rest =>
      match feed decoder chunk with
      | Return (decoder, messages) =>
          if state_eqb (state decoder) STOPPED then Return messages
          else
            match parse_stream_loop decoder rest with
            | Return later => Return (messages ++ later)
            | Raised e => Raised e
            | OutOfFuel => OutOfFuel
            end
      | Raised e => Raised e
      | OutOfFuel => OutOfFuel
      end
  end.

(** [EventStreamParser.parse_stream] *)
Definition parse_stream (byte_stream : list (list byte)) (validate_crc : bool)
  : outcome (list Message) parse_exception :=
  parse_stream_loop (new_decoder 5 validate_crc) byte_stream.

End WithBuiltins.

(** ** Notions used to state the properties *)

(** One piece of a byte stream: bytes the decoder skips, then a frame. *)
Definition segment : Type := list byte * list byte.

Definition segment_bytes (s : segment) : list byte := s.1 ++ s.2.

(** The bytes of a stream cut into segments. *)
Definition segments_bytes (segs : list segment) : list byte :=
  concat (map segment_bytes segs).

(** The messages of [feed_all], whatever the decoder. *)
Definition messages_of {E} (o : outcome (Decoder * list Message) E)
  : outcome (list Message) E :=
  match o with
  | Return (_, ms) => Return ms
  | Raised e => Raised e
  | OutOfFuel => OutOfFuel
  end.

Section WithBuiltins.
Context `{B : Builtins}.

(** What a decoder may make of a byte stream: the stream is a run of
    segments, each holding a well-formed frame after the bytes skipped
    before it, then bytes skipped after the last frame, then the bytes
    [rest] still in the buffer; the messages are those of the frames, in
    their order. *)
Definition decodes (validate : bool) (stream : list byte)
    (ms : list Message) (rest : list byte) : Prop :=
  exists (segs : list segment) (skipped : list byte),
    stream = segments_bytes segs ++ skipped ++ rest
    /\ Forall (fun s => frame_ok validate s.2 = true) segs
    /\ ms = map (fun s => message_of s.2) segs.

(** What a run of the loop of [feed] guarantees: the messages added are
    decoded from the buffer, and counted. *)
Definition loop_sound (d : Decoder) (msgs : list Message)
    (d' : Decoder) (out : list Message) : Prop :=
  exists ms,
    out = msgs ++ ms
    /\ decodes (validate_crc d) (buffer d) ms (buffer d')
    /\ messages_parsed d' = messages_parsed d + Z.of_nat (length ms)
    /\ validate_crc d' = validate_crc d
    /\ max_errors d' = max_errors d.

End WithBuiltins.

End ParserTools.
(* ================================================================== *)
(** * Properties *)
(* ================================================================== *)

Import EventStream DecoderSpec.

(** ** CRC32C *)

Lemma lxor_mask_involutive (x m : Z) : Z.lxor (Z.lxor x m) m = x.
Proof. by rewrite Z.lxor_assoc, Z.lxor_nilpotent, Z.lxor_0_r. Qed.

(** C10: the pure-Python CRC32C of a concatenation is the CRC32C of the
    second part started from the checksum of the first, for every starting
    value; the claim is the case [initial = 0]. *)
Theorem C10_crc32c_chaining (a b : list byte) (initial : Z) :
  _crc32c_python (a ++ b) initial
  = _crc32c_python b (_crc32c_python a initial).
Proof.
  unfold _crc32c_python. rewrite fold_left_app. f_equal. f_equal.
  symmetry. apply lxor_mask_involutive.
Qed.

(** Read through [crc32c], the law holds whenever the extension is absent;
    with the extension the [initial] argument is not passed on. *)
Lemma crc32c_chaining_no_extension `{B : Builtins} (a b : list byte) :
  rust_crc32c = None ->
  crc32c (a ++ b) 0 = crc32c b (crc32c a 0).
Proof.
  intros Hpy. unfold crc32c. rewrite Hpy.
  unfold _crc32c_python. rewrite fold_left_app. f_equal. f_equal.
  symmetry. apply lxor_mask_involutive.
Qed.

(** ** Event Stream decoder *)
(* ---------- bytes and slices ---------- *)

#[local] Arguments be_bytes : simpl never.
#[local] Arguments slice : simpl never.
#[local] Arguments be_uint : simpl never.



Lemma byte_of_Z_bz (b : byte) : byte_of_Z (bz b) = b.
Proof.
  unfold byte_of_Z, bz. pose proof (Byte.to_N_bounded b).
  rewrite Z.mod_small by lia. rewrite N2Z.id, Byte.of_to_N. done.
Qed.




Lemma length_slice {A} (l : list A) i j :
  (j <= length l)%nat -> length (slice l i j) = (j - i)%nat.
Proof. intros H. unfold slice. rewrite length_take, length_drop. lia. Qed.

Lemma slice_app_l {A} (l r : list A) i j :
  (j <= length l)%nat -> slice (l ++ r) i j = slice l i j.
Proof.
  intros H. unfold slice.
  destruct (decide (i <= length l)%nat) as [Hi|Hi].
  - rewrite drop_app_le by done. rewrite take_app_le; [done|].
    rewrite length_drop. lia.
  - replace (j - i)%nat with 0%nat by lia. done.
Qed.



(* ---------- header codec ---------- *)





Lemma parse_header_advances data off off' name v :
  parse_header data off = HNext off' name v -> (off < off')%nat.
Proof.
  unfold parse_header, parse_value, fixed_value.
  repeat match goal with
         | |- context [match ?x with _ => _ end] => destruct x eqn:?
         end; intros [= <- _ _]; lia.
Qed.

(** The fuel of [parse_headers] is enough: the loop returns or raises. *)
Lemma parse_headers_loop_fuel fuel data off h :
  (length data - off < fuel)%nat ->
  parse_headers_loop fuel data off h <> OutOfFuel.
Proof.
  revert off h. induction fuel as [|fuel IH]; intros off h Hf; [lia|].
  simpl. destruct (Nat.ltb_spec off (length data)); [|done].
  destruct (parse_header data off) as [| |off' name v] eqn:E; [done..|].
  apply parse_header_advances in E. apply IH. lia.
Qed.

Lemma parse_headers_terminates data : parse_headers data <> OutOfFuel.
Proof. apply parse_headers_loop_fuel. lia. Qed.

(** More fuel never changes a result. *)
Lemma parse_headers_loop_mono fuel fuel' data off h r :
  parse_headers_loop fuel data off h = r -> r <> OutOfFuel ->
  (fuel <= fuel')%nat ->
  parse_headers_loop fuel' data off h = r.
Proof.
  revert fuel' off h. induction fuel as [|fuel IH]; intros fuel' off h.
  - simpl. congruence.
  - intros Hr Hne Hle. destruct fuel' as [|fuel']; [lia|].
    simpl in *. destruct (off <? length data)%nat; [|done].
    destruct (parse_header data off); [done..|].
    apply IH; [done..|lia].
Qed.

















(* ---------- the decoder on well-formed frames ---------- *)

Section DecoderFacts.
Context `{B : Builtins}.












End DecoderFacts.


Section DecoderChunks.
Context `{B : Builtins}.



(** ** Termination of [feed] *)

Lemma check_crcs_buffer d md d' r :
  check_crcs d md = (d', r) -> buffer d' = buffer d.
Proof.
  unfold check_crcs.
  repeat match goal with
         | |- context [match ?x with _ => _ end] => destruct x
         end; by intros [= <- _].
Qed.

Lemma try_parse_buffer d d' r :
  _try_parse_message d = (d', r) ->
  match r with
  | Parsed _ => (length (buffer d') + 16 <= length (buffer d))%nat
  | _ => buffer d' = buffer d
  end.
Proof.
  unfold _try_parse_message.
  destruct (unpack_I (slice (buffer d) 0 4)) as [total|];
    [|by intros [= <- <-]].
  destruct (Z.ltb_spec total 16); [by intros [= <- <-]|].
  destruct (Z.ltb_spec MAX_MESSAGE total); [by intros [= <- <-]|].
  simpl orb. cbv iota.
  destruct (Z.ltb_spec (Z.of_nat (length (buffer d))) total);
    [by intros [= <- <-]|].
  destruct (check_crcs d _) as [d0 o] eqn:Ec.
  apply check_crcs_buffer in Ec.
  destruct o as [[|]|]; [|by intros [= <- <-]..].
  destruct (unpack_I _); [|by intros [= <- <-]].
  destruct (parse_headers _); [|by intros [= <- <-]..].
  intros [= <- <-]. simpl. rewrite length_drop, Ec. lia.
Qed.

Lemma try_recover_buffer d d' :
  _try_recover d = (d', true) ->
  (length (buffer d') < length (buffer d))%nat.
Proof.
  unfold _try_recover.
  destruct (Nat.ltb_spec (length (buffer d)) 12); [by intros [= _ ?]|].
  destruct (List.find _ _); [|by intros [= _ ?]].
  intros [= <-]. simpl. rewrite !length_drop. lia.
Qed.


Lemma feed_loop_terminates fuel :
  forall d msgs,
    (feed_measure d < fuel)%nat ->
    exists r, feed_loop fuel d msgs = Return r.
Proof.
  induction fuel as [|fuel IH]; intros d msgs Hm; [lia|].
  simpl feed_loop. unfold feed_measure in Hm.
  destruct (state_eqb (state d) RECOVERING) eqn:Es.
  - destruct (_try_recover d) as [d1 ok] eqn:Er. destruct ok; [|eauto].
    apply try_recover_buffer in Er. simpl negb. cbv iota.
    destruct (Nat.ltb (length (buffer (set_state READY d1))) 12); [eauto|].
    destruct (_try_parse_message _) as [d2 r] eqn:Ep.
    apply try_parse_buffer in Ep. simpl in Ep.
    destruct r.
    + apply IH. unfold feed_measure. simpl. lia.
    + eauto.
    + destruct (_ <=? _); [eauto|]. apply IH. unfold feed_measure. simpl.
      rewrite Ep. lia.
  - simpl negb. cbv iota.
    destruct (Nat.ltb (length (buffer d)) 12); [eauto|].
    destruct (_try_parse_message _) as [d2 r] eqn:Ep.
    apply try_parse_buffer in Ep. simpl in Ep.
    destruct r.
    + apply IH. unfold feed_measure. simpl. lia.
    + eauto.
    + destruct (_ <=? _); [eauto|]. apply IH. unfold feed_measure. simpl.
      rewrite Ep. lia.
Qed.

(** [feed] always returns: the fuel of its loop is never exhausted. *)
Lemma feed_total d data : exists d' ms, feed d data = Return (d', ms).
Proof.
  unfold feed. destruct (state_eqb (state d) STOPPED); [eauto|].
  destruct (feed_loop_terminates
              (2 * length (buffer (set_buffer (buffer d ++ data) d)) + 2)
              (set_buffer (buffer d ++ data) d) []) as [[d' ms] H]; [|eauto].
  unfold feed_measure. simpl. destruct (state_eqb _ _); lia.
Qed.

End DecoderChunks.

(* ---------- the claims on the decoder ---------- *)

Section DecoderClaims.
Context `{B : Builtins}.



End DecoderClaims.

Import DecoderExamples Reference.






(** ** Request transcoder: the loop guard *)

Import Converter ConverterSpec.

Section LoopGuard.
Context `{B : Builtins}.

Lemma loop_blocks_events blocks st :
  fold_left loop_block blocks st
  = fold_left loop_event_step (omap call_of blocks) st.
Proof.
  revert st. induction blocks as [|b blocks IH]; intros st; [done|].
  destruct b; simpl; try apply IH.
Qed.

Lemma loop_message_events msg st :
  loop_message st msg = fold_left loop_event_step (events_of_message msg) st.
Proof.
  unfold loop_message, events_of_message.
  destruct (str_eqb (role msg) (py "assistant")), (content msg);
    try apply loop_blocks_events;
    by destruct (str_eqb (role msg) (py "user")).
Qed.

Lemma loop_messages_events msgs st :
  fold_left loop_message msgs st
  = fold_left loop_event_step (flat_map events_of_message msgs) st.
Proof.
  revert st. induction msgs as [|m msgs IH]; intros st; [done|].
  simpl. rewrite fold_left_app, <- loop_message_events. apply IH.
Qed.

Lemma repeat_snoc {A} (x : A) n : repeat x (S n) = repeat x n ++ [x].
Proof. induction n as [|n IH]; [done|]. simpl in *. by rewrite <- IH. Qed.

(** What the counter of the loop guard holds after the events [evs]: the
    length of the run of identical calls [evs] ends with. *)
Lemma loop_state_run (evs : list loop_event) :
  let st := fold_left loop_event_step evs (mkLoop 0 None) in
  0 <= consecutive_count st
  /\ (last_tool_call st = None -> consecutive_count st = 0)
  /\ forall c n, (1 <= n)%nat ->
       (exists pre, evs = pre ++ repeat (Call c) n)
       <-> (last_tool_call st = Some c /\ Z.of_nat n <= consecutive_count st).
Proof.
  induction evs as [|e evs IH] using rev_ind.
  - simpl. split; [lia|]. split; [done|]. intros c n Hn. split.
    + intros [pre H]. apply (f_equal length) in H.
      rewrite length_app, repeat_length in H. simpl in H. lia.
    + by intros [? _].
  - rewrite fold_left_app. cbn [fold_left].
    set (st := fold_left loop_event_step evs (mkLoop 0 None)) in *.
    cbv zeta in IH. destruct IH as (Hpos & Hnone & IH).
    assert (forall c n,
               (exists pre, evs ++ [e] = pre ++ repeat (Call c) (S n))
               <-> e = Call c /\ exists pre, evs = pre ++ repeat (Call c) n)
      as Hsnoc.
    { intros c n. rewrite repeat_snoc. split.
      - intros [pre H]. rewrite app_assoc in H.
        apply app_inj_tail in H as [-> ->]. eauto.
      - intros [-> [pre ->]]. exists pre. by rewrite app_assoc. }
    destruct e as [c0|]; cbn [loop_event_step].
    + destruct (bool_decide (Some c0 = last_tool_call st)) eqn:Ed.
      * apply bool_decide_eq_true in Ed.
        cbn [consecutive_count last_tool_call].
        split; [lia|]. split; [congruence|].
        intros c [|n] Hn; [lia|]. rewrite Hsnoc.
        destruct n as [|n].
        -- split.
           ++ intros [[= ->] _]. split; [done|lia].
           ++ intros [Hl _]. split; [congruence|]. by exists evs; rewrite app_nil_r.
        -- rewrite IH by lia. split.
           ++ intros [[= ->] [Hl Hc]]. split; [done|lia].
           ++ intros [Hl Hc]. split; [congruence|]. split; [done|lia].
      * apply bool_decide_eq_false in Ed.
        cbn [consecutive_count last_tool_call].
        split; [lia|]. split; [done|].
        intros c [|n] Hn; [lia|]. rewrite Hsnoc.
        destruct n as [|n].
        -- split.
           ++ intros [[= ->] _]. split; [done|lia].
           ++ intros [[= ->] _]. split; [done|]. by exists evs; rewrite app_nil_r.
        -- rewrite IH by lia. split.
           ++ intros [[= ->] [Hl Hc]]. congruence.
           ++ intros [[= ->] Hc]. lia.
    + cbn [consecutive_count last_tool_call].
      split; [lia|]. split; [done|].
      intros c [|n] Hn; [lia|]. rewrite Hsnoc. split.
      * by intros [? _].
      * by intros [? _].
Qed.

(** The loop guard reports exactly when the events of the last ten
    messages end with three identical calls. *)
Lemma detect_tool_call_loop_spec (msgs : list ClaudeMessage) :
  (exists tool count,
      _detect_tool_call_loop msgs 3 = Return (Some (tool, count)))
  <-> ends_with_run 3 (events_of msgs).
Proof.
  unfold _detect_tool_call_loop, events_of, ends_with_run.
  rewrite loop_messages_events.
  destruct (loop_state_run (flat_map events_of_message (last_ten msgs)))
    as (Hpos & Hnone & Hrun).
  set (st := fold_left loop_event_step _ _) in *.
  split.
  - intros (tool & count & H).
    destruct (Z.leb_spec 3 (consecutive_count st)); [|done].
    destruct (last_tool_call st) as [c|] eqn:El; [|done].
    destruct (proj2 (Hrun c 3%nat ltac:(lia))) as [pre ->]; [split; [done|lia]|].
    eauto.
  - intros (pre & c & H).
    destruct (proj1 (Hrun c 3%nat ltac:(lia))) as [Hl Hc]; [eauto|].
    rewrite Hl. destruct c as [tool input].
    destruct (Z.leb_spec 3 (consecutive_count st)); [eauto|lia].
Qed.

Lemma detect_tool_call_loop_returns (msgs : list ClaudeMessage) :
  exists r, _detect_tool_call_loop msgs 3 = Return r.
Proof.
  unfold _detect_tool_call_loop. rewrite loop_messages_events.
  destruct (loop_state_run (flat_map events_of_message (last_ten msgs)))
    as (Hpos & Hnone & _).
  set (st := fold_left loop_event_step _ _) in *.
  destruct (Z.leb_spec 3 (consecutive_count st)); [|eauto].
  destruct (last_tool_call st) as [[tool input]|]; [eauto|].
  specialize (Hnone eq_refl). lia.
Qed.

Lemma validate_from_error idx prev h e :
  validate_from idx prev h = Some e ->
  exists i b, e = MalformedHistory i b.
Proof.
  revert idx prev. induction h as [|item h IH]; intros idx prev; [done|].
  simpl. destruct (bool_decide _); [intros [= <-]; eauto|apply IH].
Qed.

Lemma ends_with_run_has_run n evs : ends_with_run n evs -> has_run n evs.
Proof.
  intros (pre & c & ->). exists pre, c, []. by rewrite app_nil_r.
Qed.

(** C4, as amended: the request fails with [LoopDetected] exactly when the
    tool calls of the last ten messages end with three identical calls in
    a row (same name, same canonical JSON input), no user message among
    or after them; a request without any run of three does not fail for
    this reason. *)
Theorem C4_loop_detected_iff_trailing_run
    (req : ClaudeRequest) (conversation_id : option pystr) :
  ((exists tool count,
       convert_claude_to_amazonq_request req conversation_id
       = Raised (LoopDetected tool count))
   <-> ends_with_run 3 (events_of (messages req)))
  /\ (~ has_run 3 (events_of (messages req)) ->
      forall tool count,
        convert_claude_to_amazonq_request req conversation_id
        <> Raised (LoopDetected tool count)).
Proof.
  assert ((exists tool count,
              convert_claude_to_amazonq_request req conversation_id
              = Raised (LoopDetected tool count))
          <-> ends_with_run 3 (events_of (messages req))) as Hiff.
  { rewrite <- detect_tool_call_loop_spec.
    unfold convert_claude_to_amazonq_request.
    destruct (detect_tool_call_loop_returns (messages req)) as [r ->].
    destruct r as [[tool count]|].
    - split; eauto.
    - split.
      + intros (tool & count & H).
        destruct (current_message_parts _) as [[? ?] ?].
        destruct (_validate_history_alternation _) as [e|] eqn:Ev; [|done].
        apply validate_from_error in Ev as (i & u & ->). done.
      + by intros (tool & count & H). }
  split; [done|].
  intros Hno tool count H. apply Hno, ends_with_run_has_run, Hiff. eauto.
Qed.

End LoopGuard.

(** ** Request transcoder: thinking mode *)

Section Thinking.
Context `{B : Builtins}.

Lemma str_eqb_eq (a b : pystr) : str_eqb a b = true <-> a = b.
Proof. unfold str_eqb. apply bool_decide_eq_true. Qed.

Lemma is_thinking_mode_enabled_spec (cfg : option json) :
  is_thinking_mode_enabled cfg = true <-> config_enables cfg.
Proof.
  unfold config_enables, is_thinking_mode_enabled.
  destruct cfg as [[| b | z | f | s | l | d]|].
  - split; [done|]. by intros [?|[(s & ? & _)|(d & ? & _)]].
  - split.
    + intros ->. by left.
    + intros [[= ->]|[(s & ? & _)|(d & ? & _)]]; done.
  - split; [done|]. by intros [?|[(s & ? & _)|(d & ? & _)]].
  - split; [done|]. by intros [?|[(s & ? & _)|(d & ? & _)]].
  - rewrite str_eqb_eq. split.
    + intros H. right. left. eauto.
    + intros [?|[(s' & [= <-] & H)|(d & ? & _)]]; done.
  - split; [done|]. by intros [?|[(s & ? & _)|(d & ? & _)]].
  - unfold type_enabled, enabled_flag, positive_budget.
    destruct (str_eqb _ (py "enabled")) eqn:Et.
    + apply str_eqb_eq in Et. split; [|done].
      intros _. right. right. exists d. eauto.
    + assert (str_lower (str_of (default (JStr []) (dict_get d (py "type"))))
              <> py "enabled") as Hne.
      { intros H. apply str_eqb_eq in H. congruence. }
      split.
      * intros H. right. right. exists d. split; [done|]. right.
        destruct (dict_get d (py "enabled")) as [[| ? | | | | |]|];
          try (left; by subst);
          right; (split; [done|]);
          destruct (dict_get d (py "budget_tokens")) as [[| ? | ? | ? | | |]|];
          try done; by apply Z.ltb_lt.
      * intros [?|[(s & ? & _)|(d' & [= <-] & [H|[H|[H1 H2]]])]]; try done.
        -- by destruct (dict_get d (py "enabled")) as [[| [] | | | | |]|].
        -- destruct (dict_get d (py "enabled")) as [[| ? | | | | |]|];
             try done;
             destruct (dict_get d (py "budget_tokens"))
               as [[| ? | ? | ? | | |]|];
             try done; by apply Z.ltb_lt.
  - split; [done|]. by intros [?|[(s & ? & _)|(d & ? & _)]].
Qed.

Lemma map_model_name_thinking (claude_model : pystr) :
  snd (map_model_name claude_model) = true
  <-> model_requests_thinking claude_model.
Proof.
  unfold map_model_name, model_requests_thinking.
  set (m := normalize_model claude_model).
  destruct (Nat.ltb_spec 100 (length m)) as [Hl|Hl].
  - simpl. split; [done|]. intros [? _]. lia.
  - destruct (ends_with (py "-thinking") m) eqn:Ee.
    + split; [by split|]. intros _.
      destruct (_ && _); [done|]. by destruct (dict_get _ _).
    + split; [|by intros [_ ?]].
      destruct (_ && _); [done|]. by destruct (dict_get _ _).
Qed.

(** C8, as amended: thinking mode is enabled exactly when the [thinking]
    value is [True], a string that lower-cases to "enabled", or a dict
    whose [type] reads "enabled", whose [enabled] is [True], or, when
    [enabled] is not a boolean, whose [budget_tokens] is a positive
    number; or when the trimmed, lower-cased model name has at most 100
    characters and ends in "-thinking". A dict with [enabled] false and
    no enabling [type] does not enable thinking, whatever its
    [budget_tokens]. *)
Theorem C8_thinking_mode_enabled (req : ClaudeRequest) :
  (thinking_enabled_of req = true
   <-> config_enables (thinking req)
       \/ model_requests_thinking (model req))
  /\ (forall d,
         ~ type_enabled d -> enabled_flag d = Some false ->
         is_thinking_mode_enabled (Some (JDict d)) = false).
Proof.
  split.
  - rewrite <- is_thinking_mode_enabled_spec, <- map_model_name_thinking.
    unfold thinking_enabled_of.
    destruct (map_model_name (model req)) as [m t]. simpl.
    destruct (is_thinking_mode_enabled (thinking req)), t; simpl; tauto.
  - intros d Ht Hf.
    destruct (is_thinking_mode_enabled (Some (JDict d))) eqn:E; [|done].
    apply is_thinking_mode_enabled_spec in E.
    destruct E as [?|[(s & ? & _)|(d' & [= <-] & [H|[H|[H _]]])]];
      try done; congruence.
Qed.

End Thinking.

(** ** Request transcoder: the sections of the current message *)

Section Sections.
Context `{B : Builtins}.

Lemma nonempty_app_l {A} (a b : list A) :
  nonempty a = true -> nonempty (a ++ b) = true.
Proof. by destruct a. Qed.





End Sections.

(** ** Request transcoder: the order of tool results *)

Section Reorder.
Context `{B : Builtins}.







(** *** Dictionaries with distinct keys *)



Lemma dict_del_absent {V} (d : odict V) k :
  k ∉ d.*1 -> dict_del d k = d.
Proof.
  induction d as [|[k' v'] d IH]; simpl; [done|].
  rewrite not_elem_of_cons. intros [Hne Hd].
  destruct (str_eqb k' k) eqn:E; [apply str_eqb_eq in E; congruence|].
  by rewrite IH.
Qed.






(** *** The loop over the order *)




(** *** The results the transcoder collects have distinct ids *)





(** *** The dictionary of the results *)








End Reorder.

(** ** Request transcoder: examples and counterexamples *)

Import ConverterExamples.

(** The scenario of the specification: three assistant messages in a row
    with the same call are refused. *)
Example three_in_a_row_is_refused :
  convert_claude_to_amazonq_request three_in_a_row_request None
  = Raised (LoopDetected (Some (py "search")) 3).
Proof. vm_compute. reflexivity. Qed.

(** C4, as stated, fails: the last ten messages hold a run of three
    identical calls, but a user message follows it, and the request is
    converted. *)
Lemma C4_counterexample_run_before_user_message :
  has_run 3 (events_of (messages parallel_calls_request))
  /\ exists p,
       convert_claude_to_amazonq_request parallel_calls_request None
       = Return p.
Proof.
  split.
  - exists [UserTurn],
           (Some (py "search"), json_dumps_sorted search_input), [UserTurn].
    vm_compute. reflexivity.
  - eexists. vm_compute. reflexivity.
Qed.

(** The scenario of the specification: results given as [C, A, B] for
    uses [A, B, C] come out as [A, B, C]. *)
Example results_follow_uses :
  _reorder_tool_results_by_tool_uses (tool_results_of results_c_a_b)
    [py "A"; py "B"; py "C"]
  = [ok_result (Some (py "A")) "a"; ok_result (Some (py "B")) "b";
     ok_result (Some (py "C")) "c"].
Proof. vm_compute. reflexivity. Qed.




(** C8, as stated, fails: [enabled] false with a positive
    [budget_tokens] does not enable thinking. *)
Lemma C8_counterexample_enabled_false_with_budget :
  is_thinking_mode_enabled (thinking budget_without_enabled_request) = false
  /\ thinking_enabled_of budget_without_enabled_request = false.
Proof. split; vm_compute; reflexivity. Qed.

(** ** Streaming emitter: the loops *)

Import Stream StreamSpec.

Section QuoteScan.
#[local] Open Scope nat_scope.

Lemma quote_step_advances text i q : i < (quote_step text i q).1.
Proof.
  unfold quote_step.
  repeat match goal with
         | |- context [if ?c then _ else _] => destruct c
         | |- context [match ?x with Some _ => _ | None => _ end] =>
             destruct x
         end; simpl; lia.
Qed.

(** Any fuel from [bound - i] on gives the state the loop ends in. *)
Lemma quote_loop_fuel fuel fuel' text bound i q :
  bound - i <= fuel -> bound - i <= fuel' ->
  quote_loop fuel text bound i q = quote_loop fuel' text bound i q.
Proof.
  revert fuel' i q.
  induction fuel as [|fuel IH]; intros [|fuel'] i q H1 H2; simpl; trivial.
  - destruct (Nat.ltb_spec i bound); [lia|done].
  - destruct (Nat.ltb_spec i bound); [lia|done].
  - destruct (Nat.ltb_spec i bound); [|done].
    pose proof (quote_step_advances text i q) as Hadv.
    destruct (quote_step text i q) as [i' q']. simpl in Hadv.
    apply IH; lia.
Qed.

Lemma toggle_plain c q : quote_char c = false -> toggle c q = q.
Proof.
  unfold quote_char, toggle. intros H.
  apply orb_false_elim in H as [H H3].
  apply orb_false_elim in H as [H1 H2].
  rewrite H1, H2, H3. done.
Qed.

Lemma quote_free_lookup s i c :
  quote_free s = true -> s !! i = Some c -> quote_char c = false.
Proof.
  unfold quote_free. rewrite forallb_forall. intros H Hc.
  apply negb_true_iff, H. apply list_elem_of_In.
  by eapply list_elem_of_lookup_2.
Qed.

Lemma slice_lookup_head {A} (l : list A) i j x rest :
  slice l i j = x :: rest -> l !! i = Some x.
Proof.
  unfold slice. intros H.
  assert (Hl : take (j - i) (drop i l) !! 0 = Some x) by by rewrite H.
  apply lookup_take_Some in Hl as [Hl _].
  rewrite lookup_drop in Hl. by rewrite Nat.add_0_r in Hl.
Qed.

(** A text without quotes and backticks leaves the flags as they are. *)
Lemma quote_step_plain text i q :
  quote_free text = true -> (quote_step text i q).2 = q.
Proof.
  intros Hfree. unfold quote_step.
  destruct (Nat.ltb (i + 2) (length text)
            && str_eqb (slice text i (i + 3)) [BACKTICK; BACKTICK; BACKTICK])
    eqn:Htriple.
  - apply andb_true_iff in Htriple as [_ Heq].
    apply bool_decide_eq_true in Heq.
    apply slice_lookup_head in Heq.
    by apply (quote_free_lookup _ _ _ Hfree) in Heq.
  - destruct (text !! i) as [ch|] eqn:Hch; [|done].
    match goal with |- context [if ?c then _ else _] => destruct c end;
      [done|].
    simpl. apply toggle_plain. by eapply quote_free_lookup.
Qed.

Lemma quote_loop_plain fuel text bound i q :
  quote_free text = true -> quote_loop fuel text bound i q = q.
Proof.
  intros Hfree. revert i q.
  induction fuel as [|fuel IH]; intros i q; simpl; [done|].
  destruct (Nat.ltb i bound); [|done].
  pose proof (quote_step_plain text i q Hfree) as Hq.
  destruct (quote_step text i q) as [i' q']. simpl in Hq. subst q'.
  apply IH.
Qed.

Lemma update_plain q text : quote_free text = true -> update q text = q.
Proof. apply quote_loop_plain. Qed.

Lemma check_at_position_plain q text pos :
  quote_free text = true ->
  check_at_position q text pos = is_inside_quotes q.
Proof.
  intros H. unfold check_at_position. by rewrite quote_loop_plain.
Qed.

Lemma update_nil q : update q [] = q.
Proof. done. Qed.

End QuoteScan.

Section TagSearch.
#[local] Open Scope nat_scope.

Lemma starts_with_spec pre s :
  starts_with pre s = true <-> exists rest, s = pre ++ rest.
Proof.
  revert s. induction pre as [|p pre IH]; intros s; simpl.
  - split; [by exists s|done].
  - destruct s as [|c s].
    + split; [done|]. by intros [rest H].
    + rewrite andb_true_iff, N.eqb_eq, IH. split.
      * intros [-> [rest ->]]. by exists rest.
      * intros [rest H]. injection H as -> ->. eauto.
Qed.

Lemma starts_with_app pre rest : starts_with pre (pre ++ rest) = true.
Proof. apply starts_with_spec. by exists rest. Qed.

Lemma starts_with_short pre s :
  length s < length pre -> starts_with pre s = false.
Proof.
  intros Hlen. apply not_true_is_false. intros H.
  apply starts_with_spec in H as [rest ->].
  rewrite length_app in Hlen. lia.
Qed.

(** Only the first [len(pre)] characters count. *)
Lemma starts_with_extend pre s x :
  length pre <= length s ->
  starts_with pre (s ++ x) = starts_with pre s.
Proof.
  revert s. induction pre as [|p pre IH]; intros s Hlen; simpl; [done|].
  destruct s as [|c s]; simpl in *; [lia|].
  rewrite IH by lia. done.
Qed.

Lemma starts_with_prefix pre s x :
  starts_with pre s = true -> starts_with pre (s ++ x) = true.
Proof.
  rewrite !starts_with_spec. intros [rest ->].
  exists (rest ++ x). by rewrite app_assoc.
Qed.

Lemma find_from_Some tag s i idx :
  find_from tag s i = Some idx ->
  exists j, idx = i + j /\ j <= length s
            /\ starts_with tag (drop j s) = true.
Proof.
  revert i. induction s as [|c s IH]; intros i; simpl.
  - destruct (starts_with tag []) eqn:H; [|done].
    intros [= <-]. exists 0. rewrite Nat.add_0_r. done.
  - destruct (starts_with tag (c :: s)) eqn:H.
    + intros [= <-]. exists 0. rewrite Nat.add_0_r. simpl.
      repeat split; [lia|done].
    + intros Hf. apply IH in Hf as (j & -> & Hj & Hs).
      exists (S j). simpl. repeat split; [lia|lia|done].
Qed.

Lemma find_Some text tag pos idx :
  find text tag pos = Some idx ->
  pos <= idx /\ starts_with tag (drop idx text) = true.
Proof.
  unfold find. intros H.
  apply find_from_Some in H as (j & -> & _ & Hs).
  rewrite drop_drop in Hs. split; [lia|done].
Qed.

Lemma find_Some_bound text tag pos idx :
  tag <> [] -> find text tag pos = Some idx -> idx < length text.
Proof.
  intros Htag H. apply find_Some in H as [_ H].
  destruct (Nat.lt_ge_cases idx (length text)) as [|Hge]; [done|].
  rewrite drop_ge in H by done. by destruct tag.
Qed.

(** Any fuel from [len(text) - pos + 1] on gives the same answer. *)
Lemma find_real_tag_loop_fuel fuel fuel' text tag pos q :
  tag <> [] ->
  length text - pos < fuel -> length text - pos < fuel' ->
  find_real_tag_loop fuel text tag pos q
  = find_real_tag_loop fuel' text tag pos q.
Proof.
  intros Htag. revert fuel' pos.
  induction fuel as [|fuel IH]; intros [|fuel'] pos H1 H2; try lia.
  simpl. destruct (find text tag pos) as [idx|] eqn:Hfind; [|done].
  destruct (negb (check_at_position q text idx)); [done|].
  pose proof (find_Some_bound _ _ _ _ Htag Hfind).
  apply find_Some in Hfind as [Hle _].
  apply IH; lia.
Qed.

Lemma find_real_tag_loop_Some fuel text tag pos q idx :
  find_real_tag_loop fuel text tag pos q = Some idx ->
  check_at_position q text idx = false
  /\ starts_with tag (drop idx text) = true.
Proof.
  revert pos. induction fuel as [|fuel IH]; intros pos; simpl; [done|].
  destruct (find text tag pos) as [i|] eqn:Hfind; [|done].
  destruct (check_at_position q text i) eqn:Hcheck; simpl.
  - apply IH.
  - intros [= <-]. split; [done|]. by apply find_Some in Hfind as [_ ?].
Qed.

(** Without quotes and backticks in the text, and outside quotes, the
    first occurrence is the real one. *)
Lemma find_real_tag_plain text tag :
  quote_free text = true ->
  find_real_tag text tag 0 new_quote_state = find text tag 0.
Proof.
  intros Hfree. unfold find_real_tag. simpl.
  destruct (find text tag 0) as [idx|]; [|done].
  by rewrite check_at_position_plain.
Qed.

End TagSearch.

Section LockStep.
#[local] Open Scope nat_scope.

(** Up to a character that is neither quote, backtick nor backslash,
    the scan of the text and the scan of the text cut there agree. *)
Lemma quote_step_take text idx c i q :
  text !! idx = Some c -> escapable c = false -> i < idx ->
  quote_step text i q = quote_step (take idx text) i q.
Proof.
  intros Hc Hesc Hi.
  assert (Hlen : idx < length text) by by eapply lookup_lt_Some.
  unfold quote_step, pystr in *. rewrite length_take_le by lia.
  rewrite (lookup_take_lt text idx i) by done.
  assert (Htriple :
    Nat.ltb (i + 2) (length text)
    && str_eqb (slice text i (i + 3)) [BACKTICK; BACKTICK; BACKTICK]
    = Nat.ltb (i + 2) idx
      && str_eqb (slice (take idx text) i (i + 3))
           [BACKTICK; BACKTICK; BACKTICK]).
  { destruct (Nat.ltb_spec (i + 2) idx) as [Hin|Hout].
    - destruct (Nat.ltb_spec (i + 2) (length text)); [|lia].
      unfold slice. rewrite skipn_firstn_comm, take_take.
      do 3 f_equal. lia.
    - rewrite andb_false_l. apply andb_false_intro2.
      apply bool_decide_eq_false. intros Heq.
      assert (Hl : slice text i (i + 3) !! (idx - i) = Some c).
      { unfold slice. rewrite lookup_take_lt by lia.
        rewrite lookup_drop. rewrite <- Hc. f_equal. lia. }
      rewrite Heq in Hl.
      destruct (idx - i) as [|[|[|n]]]; simpl in Hl; try done;
        injection Hl as <-; done. }
  rewrite Htriple.
  destruct (Nat.ltb (i + 2) idx && _); [done|].
  destruct (text !! i) as [ch|]; [|done].
  assert (Hesc' :
    Nat.ltb (i + 1) (length text)
    && match text !! (i + 1) with
       | Some next_ch => escapable next_ch
       | None => false
       end
    = Nat.ltb (i + 1) idx
      && match take idx text !! (i + 1) with
         | Some next_ch => escapable next_ch
         | None => false
         end).
  { destruct (Nat.ltb_spec (i + 1) idx) as [Hin|Hout].
    - rewrite lookup_take_lt by done.
      by destruct (Nat.ltb_spec (i + 1) (length text)); [|lia].
    - replace (i + 1) with idx by lia. rewrite Hc, Hesc.
      by rewrite andb_false_r. }
  rewrite <- !andb_assoc, Hesc'. done.
Qed.

Lemma quote_loop_take fuel text idx c i q :
  text !! idx = Some c -> escapable c = false ->
  quote_loop fuel text idx i q = quote_loop fuel (take idx text) idx i q.
Proof.
  intros Hc Hesc. revert i q.
  induction fuel as [|fuel IH]; intros i q; simpl; [done|].
  destruct (Nat.ltb_spec i idx); [|done].
  rewrite <- (quote_step_take text idx c) by done.
  destruct (quote_step text i q). apply IH.
Qed.

(** Where the scan of the buffer reports a tag outside quotes, the scan
    of the text before the tag ends with every flag down. *)
Lemma update_before_real_tag q text idx c :
  text !! idx = Some c -> escapable c = false ->
  check_at_position q text idx = false ->
  update q (take idx text) = new_quote_state.
Proof.
  intros Hc Hesc Hcheck.
  assert (Hlen : idx < length text) by by eapply lookup_lt_Some.
  unfold check_at_position in Hcheck. unfold update.
  rewrite length_take_le by lia.
  rewrite <- (quote_loop_take _ text idx c) by done.
  destruct (quote_loop idx text idx 0 q) as [[] [] [] []]; done.
Qed.

Lemma not_inside_quotes q : is_inside_quotes q = false -> q = new_quote_state.
Proof. by destruct q as [[] [] [] []]. Qed.

Lemma starts_with_head tag s c tag' :
  tag = c :: tag' -> starts_with tag s = true -> s !! 0 = Some c.
Proof.
  intros -> H. apply starts_with_spec in H as [rest ->]. done.
Qed.

End LockStep.

Section ThinkLoop.
Context `{B : Builtins}.
#[local] Open Scope nat_scope.
#[local] Arguments THINKING_START_TAG : simpl never.
#[local] Arguments THINKING_END_TAG : simpl never.
#[local] Arguments _pending_tag_suffix : simpl never.
#[local] Arguments find_real_tag : simpl never.
#[local] Arguments update : simpl never.

Lemma nonempty_length {A} (l : list A) :
  nonempty l = true <-> 0 < length l.
Proof. destruct l; simpl; split; (done || lia). Qed.

Lemma nonempty_false {A} (l : list A) : nonempty l = false <-> l = [].
Proof. by destruct l. Qed.

Lemma start_tag_length : length THINKING_START_TAG = 10.
Proof. reflexivity. Qed.

Lemma end_tag_length : length THINKING_END_TAG = 11.
Proof. reflexivity. Qed.

Ltac step_cases :=
  repeat match goal with
         | |- context [if ?c then _ else _] => destruct c eqn:?
         | |- context [match ?x with Some _ => _ | None => _ end] =>
             destruct x eqn:?
         end.

Ltac nat_tests :=
  repeat match goal with
         | H : Nat.ltb _ _ = true |- _ => apply Nat.ltb_lt in H
         | H : Nat.ltb _ _ = false |- _ => apply Nat.ltb_ge in H
         | H : Nat.leb _ _ = true |- _ => apply Nat.leb_le in H
         | H : Nat.leb _ _ = false |- _ => apply Nat.leb_gt in H
         | H : Nat.eqb _ _ = true |- _ => apply Nat.eqb_eq in H
         | H : Nat.eqb _ _ = false |- _ => apply Nat.eqb_neq in H
         end.

(** A pass that does not leave the loop shortens the buffer. *)
Lemma think_step_shortens h h' out :
  think_buffer h <> [] ->
  think_step h = (h', out, true) ->
  length (think_buffer h') < length (think_buffer h).
Proof.
  destruct h as [? ? ? ? ? ? ? ? ? ? ? ? ? ? ? ? ? ? buf pend ?].
  simpl. intros Hne.
  assert (0 < length buf) by (destruct buf; [done|simpl; lia]).
  unfold think_step, emit_text, stop_open_block, start_block, emit_thinking.
  simpl.
  step_cases; intros [= <- <-]; simpl; rewrite ?length_drop;
    rewrite ?start_tag_length, ?end_tag_length; nat_tests; lia.
Qed.

(** The loop leaves with the buffer it was given one pass of fuel more
    than its length. *)
Lemma think_loop_returns fuel h :
  length (think_buffer h) < fuel ->
  exists h' out, think_loop fuel h = Return (h', out).
Proof.
  revert h. induction fuel as [|fuel IH]; intros h Hfuel; [lia|].
  simpl. destruct (nonempty (think_buffer h)) eqn:Hne; simpl; [|eauto].
  destruct (think_step h) as [[h1 out1] go_on] eqn:Hstep.
  destruct go_on; [|eauto].
  apply think_step_shortens in Hstep; [|by destruct (think_buffer h)].
  destruct (IH h1) as (h' & out & ->); [lia|]. eauto.
Qed.

Lemma handle_event_returns h ev :
  exists h' out, handle_event h ev = Return (h', out).
Proof.
  unfold handle_event.
  destruct (response_ended h); [eauto|].
  destruct ev as [conv|content|tid tname input stop| |other]; eauto.
  - destruct (negb (message_start_sent h)); eauto.
  - destruct (close_tool_block h) as [h1 out1].
    destruct (nonempty content); [|eauto].
    match goal with
    | |- context [think_loop ?f ?x] =>
        destruct (think_loop_returns f x) as (h' & out & ->); [lia|]
    end.
    eauto.
  - repeat match goal with
           | |- context [let '(_, _) := ?x in _] => destruct x
           end.
    eauto.
  - destruct (content_block_started h && negb (content_block_stop_sent h));
      eauto.
Qed.

(** Every sequence of events is processed to its end. *)
Lemma handle_events_returns evs h :
  exists h' out, handle_events h evs = Return (h', out).
Proof.
  revert h. induction evs as [|ev evs IH]; intros h; simpl; [eauto|].
  destruct (handle_event_returns h ev) as (h1 & out1 & ->).
  destruct (IH h1) as (h' & out & ->). eauto.
Qed.

End ThinkLoop.

Section QuoteInvariant.
Context `{B : Builtins}.
#[local] Open Scope nat_scope.
#[local] Arguments THINKING_START_TAG : simpl never.
#[local] Arguments THINKING_END_TAG : simpl never.
#[local] Arguments _pending_tag_suffix : simpl never.
#[local] Arguments find_real_tag : simpl never.
#[local] Arguments update : simpl never.

Ltac step_cases :=
  repeat match goal with
         | |- context [if ?c then _ else _] => destruct c eqn:?
         | |- context [match ?x with Some _ => _ | None => _ end] =>
             destruct x eqn:?
         end.

(** Where a start tag is found, the flags are down after the text
    before it: [reset] changes nothing. *)
Lemma update_before_start_tag q buffer idx :
  find_real_tag buffer THINKING_START_TAG 0 q = Some idx ->
  update q (take idx buffer) = new_quote_state.
Proof.
  intros Hfind. apply find_real_tag_loop_Some in Hfind as [Hcheck Hstart].
  eapply starts_with_head in Hstart; [|reflexivity].
  unfold pystr in *. rewrite lookup_drop, Nat.add_0_r in Hstart.
  by eapply update_before_real_tag.
Qed.

Lemma think_step_quote_state h h' out go_on :
  think_step h = (h', out, go_on) ->
  quote_state h' = update_chunks (quote_state h) (text_deltas out).
Proof.
  destruct h as [? ? ? ? ? ? ? ? ? ? ? ? ? ? ? ? ? ? buf pend q].
  unfold think_step, emit_text, stop_open_block, start_block, emit_thinking.
  simpl.
  destruct (find_real_tag buf THINKING_START_TAG 0 q) as [idx|] eqn:Hstart.
  1: apply update_before_start_tag in Hstart.
  all: step_cases; intros [= <- <- <-]; simpl; trivial.
  all: try (symmetry; exact Hstart).
  all: match goal with
       | H : nonempty (take _ _) = false |- _ =>
           apply nonempty_false in H; rewrite H in Hstart;
           symmetry; exact Hstart
       end.
Qed.

Lemma text_deltas_app out out' :
  text_deltas (out ++ out') = text_deltas out ++ text_deltas out'.
Proof. apply omap_app. Qed.

Lemma thinking_deltas_app out out' :
  thinking_deltas (out ++ out') = thinking_deltas out ++ thinking_deltas out'.
Proof. apply omap_app. Qed.

Lemma update_chunks_app q chunks chunks' :
  update_chunks q (chunks ++ chunks')
  = update_chunks (update_chunks q chunks) chunks'.
Proof. apply fold_left_app. Qed.

Lemma think_loop_quote_state fuel h h' out :
  think_loop fuel h = Return (h', out) ->
  quote_state h' = update_chunks (quote_state h) (text_deltas out).
Proof.
  revert h out. induction fuel as [|fuel IH]; intros h out; simpl; [done|].
  destruct (nonempty (think_buffer h)); simpl; [|by intros [= <- <-]].
  destruct (think_step h) as [[h1 out1] go_on] eqn:Hstep.
  apply think_step_quote_state in Hstep.
  destruct go_on; [|by intros [= <- <-]].
  destruct (think_loop fuel h1) as [[h2 out2]| |] eqn:Hloop; try done.
  intros [= <- <-]. apply IH in Hloop.
  by rewrite text_deltas_app, update_chunks_app, <- Hstep.
Qed.

Lemma handle_event_quote_state h ev h' out :
  handle_event h ev = Return (h', out) ->
  quote_state h' = update_chunks (quote_state h) (text_deltas out).
Proof.
  unfold handle_event.
  destruct (response_ended h); [by intros [= <- <-]|].
  destruct ev as [conv|content|tid tname input stop| |other].
  - destruct (negb (message_start_sent h)); by intros [= <- <-].
  - destruct (close_tool_block h) as [h1 out1] eqn:Hclose.
    unfold close_tool_block in Hclose.
    assert (quote_state h1 = quote_state h /\ text_deltas out1 = [])
      as [Hq Hout].
    { destruct (current_tool_use h); [|by injection Hclose as <- <-].
      destruct (negb (content_block_stop_sent h));
        by injection Hclose as <- <-. }
    destruct (nonempty content); [|intros [= <- <-]; by rewrite Hout].
    destruct (think_loop _ _) as [[h2 out2]| |] eqn:Hloop; try done.
    intros [= <- <-]. apply think_loop_quote_state in Hloop.
    rewrite text_deltas_app, Hout. simpl. by rewrite Hloop, <- Hq.
  - destruct h. simpl.
    destruct (truthy_str tid), (truthy_str tname), current_tool_use0;
      simpl; step_cases; by intros [= <- <-].
  - destruct (content_block_started h && negb (content_block_stop_sent h));
      by intros [= <- <-].
  - by intros [= <- <-].
Qed.

End QuoteInvariant.

Section Tags.
#[local] Open Scope nat_scope.
#[local] Arguments THINKING_START_TAG : simpl never.
#[local] Arguments THINKING_END_TAG : simpl never.

Lemma app_split_le {A} (a b c d : list A) :
  a ++ b = c ++ d -> length a <= length c ->
  exists x, c = a ++ x /\ b = x ++ d.
Proof.
  revert c. induction a as [|y a IH]; intros c H Hlen; simpl in *.
  - by exists c.
  - destruct c as [|z c]; simpl in *; [lia|].
    injection H as -> H. destruct (IH c H) as (x & -> & ->); [lia|].
    by exists x.
Qed.

Lemma find_from_eq tag s i :
  find_from tag s i
  = if starts_with tag s then Some i
    else match s with
         | [] => None
         | _ :: s' => find_from tag s' (S i)
         end.
Proof. by destruct s. Qed.

Lemma find_from_short tag s i :
  length s < length tag -> find_from tag s i = None.
Proof.
  revert i. induction s as [|c s IH]; intros i Hlen; simpl.
  - by rewrite starts_with_short.
  - rewrite starts_with_short by done. apply IH. simpl in Hlen. lia.
Qed.

(** The first occurrence of the tag after [k] is the one behind [k]. *)
Lemma find_from_closed tag k x i :
  closed_by tag k = true ->
  find_from tag (k ++ tag ++ x) i = Some (i + length k).
Proof.
  revert i. induction k as [|c k IH]; intros i Hclosed.
  - simpl. rewrite Nat.add_0_r, find_from_eq, starts_with_app. done.
  - simpl in Hclosed. apply andb_true_iff in Hclosed as [Hhead Hclosed].
    apply negb_true_iff in Hhead.
    rewrite find_from_eq, app_assoc, starts_with_extend
      by (rewrite length_app; lia).
    simpl app. rewrite Hhead, <- app_assoc, IH by done.
    f_equal. simpl. lia.
Qed.

(** No occurrence is complete in a buffer that ends before the tag
    behind [k] does. *)
Lemma find_from_before_close tag k buffer future y i :
  closed_by tag k = true ->
  buffer ++ future = k ++ tag ++ y ->
  length buffer < length k + length tag ->
  find_from tag buffer i = None.
Proof.
  revert buffer i. induction k as [|c k IH]; intros buffer i Hclosed Heq Hlen.
  - by apply find_from_short.
  - simpl in Hclosed. apply andb_true_iff in Hclosed as [Hhead Hclosed].
    apply negb_true_iff in Hhead.
    assert (Hno : starts_with tag buffer = false).
    { apply not_true_is_false. intros Hs.
      apply (starts_with_prefix _ _ future) in Hs.
      rewrite Heq, app_assoc, starts_with_extend in Hs
        by (rewrite length_app; lia).
      simpl app in Hs. congruence. }
    rewrite find_from_eq, Hno.
    destruct buffer as [|b buffer]; [done|].
    simpl in Heq. injection Heq as -> Heq.
    apply (IH buffer (S i) Hclosed Heq). simpl in Hlen. lia.
Qed.

Lemma closed_by_drop tag k n :
  closed_by tag k = true -> closed_by tag (drop n k) = true.
Proof.
  revert n. induction k as [|c k IH]; intros [|n] H; simpl; trivial.
  simpl in H. apply andb_true_iff in H as [_ H]. by apply IH.
Qed.

Lemma not_in_closed c0 tag t :
  c0 ∉ t -> closed_by (c0 :: tag) t = true.
Proof.
  induction t as [|c t IH]; intros Hnot; [done|].
  apply not_elem_of_cons in Hnot as [Hc Ht].
  cbn [closed_by]. rewrite IH, andb_true_r by done.
  apply negb_true_iff, not_true_is_false. intros Hs.
  apply starts_with_spec in Hs as [rest Hs]. injection Hs as Hs _.
  by apply Hc.
Qed.

Lemma angle_free_not_in t :
  angle_free t = true -> LESS_THAN ∉ t.
Proof.
  unfold angle_free. rewrite forallb_forall. intros H Hin.
  apply list_elem_of_In, H in Hin. done.
Qed.

Lemma angle_free_closed t :
  angle_free t = true -> closed_by THINKING_START_TAG t = true.
Proof.
  intros H. apply (not_in_closed LESS_THAN). by apply angle_free_not_in.
Qed.

Lemma angle_free_app a b :
  angle_free (a ++ b) = angle_free a && angle_free b.
Proof. apply forallb_app. Qed.

Lemma quote_free_app a b :
  quote_free (a ++ b) = quote_free a && quote_free b.
Proof. apply forallb_app. Qed.

Lemma quote_free_drop s n : quote_free s = true -> quote_free (drop n s) = true.
Proof.
  intros H. rewrite <- (take_drop n s), quote_free_app in H.
  by apply andb_true_iff in H as [_ ?].
Qed.

Lemma start_tag_quote_free : quote_free THINKING_START_TAG = true.
Proof. reflexivity. Qed.

Lemma end_tag_quote_free : quote_free THINKING_END_TAG = true.
Proof. reflexivity. Qed.

Ltac split_andb :=
  repeat match goal with
         | H : _ && _ = true |- _ => apply andb_true_iff in H as [? ?]
         end.

Ltac quote_free_parts :=
  rewrite ?quote_free_app; repeat (apply andb_true_iff; split);
  auto using start_tag_quote_free, end_tag_quote_free, quote_free_drop.

Lemma quote_free_flatten d :
  well_formed d = true -> quote_free (flatten d) = true.
Proof.
  induction d as [t|t k rest IH]; cbn [well_formed flatten]; intros H;
    split_andb; [done|].
  quote_free_parts.
Qed.

Lemma quote_free_remaining r :
  residual_ok r = true -> quote_free (remaining r) = true.
Proof.
  destruct r as [d|n k d|k d]; cbn [residual_ok remaining]; intros H;
    split_andb; quote_free_parts; auto using quote_free_flatten.
Qed.

(** ** The held back start of a tag *)

Lemma pending_loop_le n buffer tag : pending_loop n buffer tag <= n.
Proof.
  induction n as [|n IH]; simpl; [done|].
  destruct (str_eqb _ _); lia.
Qed.

Lemma pending_tag_suffix_le buffer tag :
  _pending_tag_suffix buffer tag <= length buffer.
Proof.
  unfold _pending_tag_suffix.
  destruct (negb (nonempty buffer) || negb (nonempty tag)); [lia|].
  etrans; [apply pending_loop_le|lia].
Qed.

(** The longest match is at least as long as any match. *)
Lemma pending_loop_ge n buffer tag m :
  m <= n ->
  drop (length buffer - m) buffer = take m tag ->
  m <= pending_loop n buffer tag.
Proof.
  induction n as [|n IH]; intros Hm Hmatch; simpl; [lia|].
  destruct (str_eqb _ _) eqn:Htest; [done|].
  apply bool_decide_eq_false in Htest.
  destruct (decide (m = S n)) as [->|]; [done|].
  apply IH; [lia|done].
Qed.

Lemma pending_tag_suffix_ge k tag m :
  0 < m < length tag ->
  m <= _pending_tag_suffix (k ++ take m tag) tag.
Proof.
  intros Hm. unfold _pending_tag_suffix.
  assert (Hlen : length (take m tag) = m) by (rewrite length_take; lia).
  destruct (k ++ take m tag) as [|c s] eqn:Hs.
  { apply (f_equal length) in Hs. rewrite length_app in Hs.
    simpl in Hs. lia. }
  destruct tag as [|t tag]; [simpl in Hm; lia|].
  simpl negb. simpl orb. cbv iota. rewrite <- Hs.
  apply pending_loop_ge.
  - rewrite length_app. simpl length in *. lia.
  - rewrite length_app, Hlen.
    replace (length k + m - m) with (length k) by lia.
    by rewrite drop_app_length.
Qed.

(** Behind a text without [<], what is held back is the started tag and
    nothing else. *)
Lemma pending_loop_exact n t p c0 tag :
  c0 ∉ t -> p `prefix_of` (c0 :: tag) ->
  length p <= n <= length (t ++ p) ->
  pending_loop n (t ++ p) (c0 :: tag) = length p.
Proof.
  intros Ht Hp. induction n as [|n IH]; intros Hn; cbn [pending_loop];
    [lia|].
  destruct (decide (length p = S n)) as [Heq|Hne].
  - rewrite length_app, Heq.
    replace (length t + S n - S n) with (length t) by lia.
    rewrite drop_app_length.
    destruct Hp as [rest Hp].
    assert (take (S n) (c0 :: tag) = p) as ->.
    { rewrite Hp, <- Heq. by rewrite take_app_length. }
    unfold str_eqb. rewrite bool_decide_eq_true_2 by done. done.
  - assert (Htest : str_eqb (drop (length (t ++ p) - S n) (t ++ p))
                      (take (S n) (c0 :: tag)) = false).
    { apply bool_decide_eq_false. intros Heq.
      assert (Hi : length (t ++ p) - S n < length t).
      { rewrite length_app in *. lia. }
      apply lookup_lt_is_Some_2 in Hi as [x Hx].
      assert (Hx' : drop (length (t ++ p) - S n) (t ++ p) !! 0 = Some x).
      { rewrite lookup_drop, Nat.add_0_r. by apply lookup_app_l_Some. }
      rewrite Heq in Hx'. simpl in Hx'. injection Hx' as <-.
      apply Ht. by eapply list_elem_of_lookup_2. }
    rewrite Htest. apply IH. lia.
Qed.

Lemma pending_start_suffix t p :
  angle_free t = true -> p `prefix_of` THINKING_START_TAG ->
  length p < length THINKING_START_TAG ->
  _pending_tag_suffix (t ++ p) THINKING_START_TAG = length p.
Proof.
  intros Ht Hp Hlen. unfold _pending_tag_suffix.
  destruct (nonempty (t ++ p)) eqn:Hne; cbn [negb orb].
  - change (nonempty THINKING_START_TAG) with true. cbn [negb].
    assert (Hlen' : length (t ++ p) = length t + length p)
      by apply length_app.
    apply (pending_loop_exact _ t p LESS_THAN).
    + by apply angle_free_not_in.
    + exact Hp.
    + change (length THINKING_START_TAG) with 10 in *. lia.
  - apply nonempty_false, app_eq_nil in Hne as [_ ->]. done.
Qed.

End Tags.

Section Scanner.
Context `{B : Builtins}.
#[local] Open Scope nat_scope.
#[local] Arguments THINKING_START_TAG : simpl never.
#[local] Arguments THINKING_END_TAG : simpl never.
#[local] Arguments _pending_tag_suffix : simpl never.
#[local] Arguments find_real_tag : simpl never.
#[local] Arguments update : simpl never.

Ltac step_cases :=
  repeat match goal with
         | |- context [if ?c then _ else _] => destruct c eqn:?
         | |- context [match ?x with Some _ => _ | None => _ end] =>
             destruct x eqn:?
         end.

(** What a pass of the loop does to the handler is what [scan_step]
    does to the fields of the scanner; the pass touches neither
    [current_tool_use] nor [response_ended]. *)
Lemma think_step_scanner h h' out go_on :
  think_step h = (h', out, go_on) ->
  scan_step (scanner h)
  = (scanner h', (text_deltas out, thinking_deltas out), go_on)
  /\ current_tool_use h' = current_tool_use h
  /\ response_ended h' = response_ended h.
Proof.
  destruct h as [? ? ? ? ? ? ? ? ? ? ? ? ? ? ? ? ? inthink buf pend q].
  unfold think_step, emit_text, stop_open_block, start_block, emit_thinking,
    scan_step, scanner, chunk_list.
  simpl.
  step_cases; intros [= <- <- <-]; simpl; done.
Qed.

End Scanner.

Section Residuals.
#[local] Open Scope nat_scope.
#[local] Arguments _pending_tag_suffix : simpl never.
#[local] Arguments find_real_tag : simpl never.
#[local] Arguments update : simpl never.
#[local] Opaque THINKING_START_TAG THINKING_END_TAG.

Ltac split_andb :=
  repeat match goal with
         | H : _ && _ = true |- _ => apply andb_true_iff in H as [? ?]
         end.

Ltac andb_parts := repeat (apply andb_true_iff; split); auto.

Ltac by_computation r' :=
  eexists _, _, _, _, r'; split; [reflexivity|];
  unfold at_residual, stalled; simpl.

Ltac finish_pass :=
  rewrite ?app_nil_r; repeat split; auto with bool;
  try andb_parts; try (by rewrite <- ?app_assoc); try lia.

Ltac open_residual :=
  unfold at_residual; cbn [remaining flatten residual_ok well_formed].

Lemma find_start_in_text buffer :
  angle_free buffer = true -> quote_free buffer = true ->
  find_real_tag buffer THINKING_START_TAG 0 new_quote_state = None.
Proof.
  intros Hangle Hquote. rewrite find_real_tag_plain by done.
  unfold find. rewrite drop_0.
  apply (find_from_before_close _ buffer buffer THINKING_START_TAG []).
  - by apply angle_free_closed.
  - by rewrite app_nil_r.
  - rewrite start_tag_length. lia.
Qed.

Lemma pending_start_in_text buffer :
  angle_free buffer = true ->
  _pending_tag_suffix buffer THINKING_START_TAG = 0.
Proof.
  intros Hangle. rewrite <- (app_nil_r buffer) at 1.
  apply (pending_start_suffix buffer []); [done| |].
  - by exists THINKING_START_TAG.
  - rewrite start_tag_length. simpl. lia.
Qed.

Lemma chunk_list_concat chunk : concat (chunk_list chunk) = chunk.
Proof. destruct chunk; simpl; by rewrite ?app_nil_r. Qed.

Lemma update_chunk_plain chunk :
  quote_free chunk = true ->
  (if nonempty chunk then update new_quote_state chunk else new_quote_state)
  = new_quote_state.
Proof. intros H. destruct (nonempty chunk); by rewrite ?update_plain. Qed.

(** Text up to the end of the stream is emitted as it comes. *)
Lemma pass_outer_done s t future :
  at_residual s (ROuter (Done t)) future ->
  residual_ok (ROuter (Done t)) = true ->
  s.1.1.1 <> [] ->
  pass_ok s (ROuter (Done t)) future.
Proof.
  destruct s as [[[buf inthink] pend] q]. open_residual. simpl.
  intros (Hrem & -> & -> & ->) Hok Hne. subst t.
  rewrite angle_free_app, quote_free_app in Hok. split_andb.
  unfold pass_ok, scan_step. simpl.
  rewrite find_start_in_text, pending_start_in_text by done.
  rewrite !Nat.sub_0_r, firstn_all, drop_all, update_chunk_plain by done.
  replace (length buf <=? 0) with false by by destruct buf.
  rewrite andb_false_r.
  by_computation (ROuter (Done future)).
  rewrite chunk_list_concat. finish_pass.
Qed.

(** Text before a start tag that has not arrived is emitted as it
    comes. *)
Lemma pass_outer_text buf t2 k rest future :
  buf <> [] ->
  at_residual (buf, false, 0, new_quote_state)
    (ROuter (Span (buf ++ t2) k rest)) future ->
  residual_ok (ROuter (Span (buf ++ t2) k rest)) = true ->
  pass_ok (buf, false, 0, new_quote_state)
    (ROuter (Span (buf ++ t2) k rest)) future.
Proof.
  open_residual. intros Hne (Hrem & _) Hok.
  rewrite <- app_assoc in Hrem. apply app_inv_head in Hrem.
  rewrite angle_free_app, quote_free_app in Hok. split_andb.
  unfold pass_ok, scan_step. simpl.
  rewrite find_start_in_text, pending_start_in_text by done.
  rewrite !Nat.sub_0_r, firstn_all, drop_all, update_chunk_plain by done.
  replace (length buf <=? 0) with false by by destruct buf.
  rewrite andb_false_r.
  by_computation (ROuter (Span t2 k rest)).
  rewrite chunk_list_concat. finish_pass.
Qed.

Lemma find_start_before_tag t p s2 :
  angle_free t = true -> quote_free (t ++ p) = true ->
  THINKING_START_TAG = p ++ s2 -> s2 <> [] ->
  find_real_tag (t ++ p) THINKING_START_TAG 0 new_quote_state = None.
Proof.
  intros Hangle Hquote Htag Hs2. rewrite find_real_tag_plain by done.
  unfold find. rewrite drop_0.
  apply (find_from_before_close _ t (t ++ p) s2 []).
  - by apply angle_free_closed.
  - by rewrite <- app_assoc, Htag, <- app_assoc, app_nil_r.
  - rewrite Htag, !length_app. destruct s2; [done|]. simpl. lia.
Qed.

Lemma pending_start_before_tag t p s2 :
  angle_free t = true ->
  THINKING_START_TAG = p ++ s2 -> s2 <> [] ->
  _pending_tag_suffix (t ++ p) THINKING_START_TAG = length p.
Proof.
  intros Hangle Htag Hs2. apply pending_start_suffix; [done| |].
  - by exists s2.
  - rewrite Htag, length_app. destruct s2; [done|]. simpl. lia.
Qed.

Lemma start_tag_part_quote_free p s2 :
  THINKING_START_TAG = p ++ s2 -> quote_free p = true.
Proof.
  intros Htag. pose proof start_tag_quote_free as Hq.
  rewrite Htag, quote_free_app in Hq. by apply andb_true_iff in Hq as [? _].
Qed.

(** The text before a started tag is emitted, the started tag is held
    back. *)
Lemma pass_outer_hold t p s2 k rest future :
  t <> [] -> THINKING_START_TAG = p ++ s2 -> s2 <> [] ->
  at_residual (t ++ p, false, 0, new_quote_state)
    (ROuter (Span t k rest)) future ->
  residual_ok (ROuter (Span t k rest)) = true ->
  pass_ok (t ++ p, false, 0, new_quote_state)
    (ROuter (Span t k rest)) future.
Proof.
  open_residual. intros Ht Htag Hs2 (Hrem & _) Hok.
  rewrite <- app_assoc in Hrem. apply app_inv_head in Hrem.
  split_andb.
  assert (Hquote : quote_free (t ++ p) = true).
  { rewrite quote_free_app. andb_parts.
    by eapply start_tag_part_quote_free. }
  unfold pass_ok, scan_step. simpl.
  rewrite (find_start_before_tag t p s2),
    (pending_start_before_tag t p s2) by done.
  rewrite length_app.
  replace (length t + length p - length p) with (length t) by lia.
  rewrite take_app_length, drop_app_length, update_chunk_plain by done.
  replace (length p =? length t + length p) with false
    by (symmetry; apply Nat.eqb_neq; destruct t; [done|simpl; lia]).
  replace (length t <=? 0) with false by by destruct t.
  by_computation (ROuter (Span [] k rest)).
  rewrite chunk_list_concat. finish_pass.
Qed.

Lemma drop_app_app {A} (a b x : list A) :
  drop (length a + length b) (a ++ b ++ x) = x.
Proof.
  rewrite <- drop_drop, drop_app_length. apply drop_app_length.
Qed.

(** A buffer that is the start of a start tag and nothing else opens
    the thinking block at once; the rest of the tag is dropped when it
    arrives. *)
Lemma pass_outer_speculate p s2 k rest future :
  p <> [] -> THINKING_START_TAG = p ++ s2 -> s2 <> [] ->
  at_residual (p, false, 0, new_quote_state)
    (ROuter (Span [] k rest)) future ->
  residual_ok (ROuter (Span [] k rest)) = true ->
  pass_ok (p, false, 0, new_quote_state) (ROuter (Span [] k rest)) future.
Proof.
  open_residual. intros Hp Htag Hs2 (Hrem & _) Hok.
  cbn [app] in Hrem. rewrite Htag, <- app_assoc in Hrem.
  apply app_inv_head in Hrem.
  split_andb.
  assert (Hquote : quote_free p = true)
    by by eapply start_tag_part_quote_free.
  assert (Hlen : length THINKING_START_TAG = length p + length s2)
    by by rewrite Htag, length_app.
  assert (Hs2' : 0 < length s2) by (destruct s2; [done|simpl; lia]).
  assert (Hp' : 0 < length p) by (destruct p; [done|simpl; lia]).
  unfold pass_ok, scan_step. simpl.
  pose proof (find_start_before_tag [] p s2) as Hfind.
  pose proof (pending_start_before_tag [] p s2) as Hpend.
  cbn [app] in Hfind, Hpend.
  rewrite Hfind, Hpend by done.
  rewrite Nat.eqb_refl.
  replace (0 <? length p) with true by (symmetry; by apply Nat.ltb_lt).
  by_computation (RTag (length THINKING_START_TAG - length p) k rest).
  finish_pass.
  - replace (length THINKING_START_TAG
             - (length THINKING_START_TAG - length p))
      with (length p) by lia.
    by rewrite Htag, drop_app_length.
  - apply Nat.ltb_lt. lia.
  - apply Nat.leb_le. lia.
Qed.

Lemma find_tag_behind tag k x :
  closed_by tag k = true -> quote_free (k ++ tag ++ x) = true ->
  find_real_tag (k ++ tag ++ x) tag 0 new_quote_state = Some (length k).
Proof.
  intros Hclosed Hquote. rewrite find_real_tag_plain by done.
  unfold find. rewrite drop_0. apply (find_from_closed tag k x 0 Hclosed).
Qed.

(** A complete start tag closes the text and opens the thinking. *)
Lemma pass_outer_found t x k rest future :
  at_residual (t ++ THINKING_START_TAG ++ x, false, 0, new_quote_state)
    (ROuter (Span t k rest)) future ->
  residual_ok (ROuter (Span t k rest)) = true ->
  pass_ok (t ++ THINKING_START_TAG ++ x, false, 0, new_quote_state)
    (ROuter (Span t k rest)) future.
Proof.
  intros Hat Hok. pose proof (quote_free_remaining _ Hok) as Hquote.
  revert Hat Hok Hquote. open_residual.
  intros (Hrem & _) Hok Hquote.
  rewrite Hrem, quote_free_app in Hquote.
  rewrite <- !app_assoc in Hrem. do 2 apply app_inv_head in Hrem.
  split_andb.
  unfold pass_ok, scan_step. simpl.
  rewrite find_tag_behind by (done || by apply angle_free_closed).
  rewrite take_app_length, drop_app_app.
  by_computation (RInner k rest).
  rewrite chunk_list_concat. finish_pass.
Qed.

(** While the start tag that was opened early is still arriving, its
    characters are dropped. *)
Lemma pass_tag buf inthink pend q n k d future :
  buf <> [] ->
  at_residual (buf, inthink, pend, q) (RTag n k d) future ->
  residual_ok (RTag n k d) = true ->
  pass_ok (buf, inthink, pend, q) (RTag n k d) future.
Proof.
  open_residual. intros Hne (Hrem & -> & -> & ->) Hok.
  split_andb.
  match goal with H : (0 <? n) = true |- _ => rename H into Hpos end.
  match goal with H : (n <=? _) = true |- _ => apply Nat.leb_le in H end.
  unfold pass_ok, scan_step. rewrite Hpos. apply Nat.ltb_lt in Hpos.
  assert (Hdrop :
    length (drop (length THINKING_START_TAG - n) THINKING_START_TAG) = n)
    by (rewrite length_drop; lia).
  destruct (Nat.ltb_spec (length buf) n) as [Hshort|Hlong].
  - symmetry in Hrem. apply app_split_le in Hrem as (s2 & Hs & ->); [|lia].
    by_computation (RTag (n - length buf) k d). finish_pass.
    + replace (length THINKING_START_TAG - (n - length buf))
        with (length THINKING_START_TAG - n + length buf) by lia.
      rewrite <- drop_drop, Hs, drop_app_length. done.
    + apply Nat.ltb_lt. lia.
    + apply Nat.leb_le. lia.
  - apply app_split_le in Hrem as (x & -> & Hrem); [|lia].
    assert (Hx : drop n (drop (length THINKING_START_TAG - n)
                           THINKING_START_TAG ++ x) = x)
      by (rewrite <- Hdrop at 1; apply drop_app_length).
    rewrite Hx.
    destruct x as [|c x]; cbn [nonempty negb];
      by_computation (RInner k d); finish_pass.
Qed.

(** A complete end tag closes the thinking. *)
Lemma pass_inner_found k x d future :
  at_residual (k ++ THINKING_END_TAG ++ x, true, 0, new_quote_state)
    (RInner k d) future ->
  residual_ok (RInner k d) = true ->
  pass_ok (k ++ THINKING_END_TAG ++ x, true, 0, new_quote_state)
    (RInner k d) future.
Proof.
  intros Hat Hok. pose proof (quote_free_remaining _ Hok) as Hquote.
  revert Hat Hok Hquote. open_residual.
  intros (Hrem & _) Hok Hquote.
  rewrite Hrem, quote_free_app in Hquote.
  rewrite <- !app_assoc in Hrem. do 2 apply app_inv_head in Hrem.
  split_andb.
  unfold pass_ok, scan_step. simpl.
  rewrite find_tag_behind by done.
  rewrite take_app_length, drop_app_app.
  by_computation (ROuter d).
  rewrite chunk_list_concat. finish_pass.
Qed.

Lemma take_common {A} (a b x y : list A) n :
  a ++ x = b ++ y -> n <= length a -> n <= length b -> take n a = take n b.
Proof.
  intros Heq Ha Hb.
  rewrite <- (take_app_le a x n), <- (take_app_le b y n) by done.
  by rewrite Heq.
Qed.

Lemma drop_common {A} (a b x y : list A) n :
  a ++ x = b ++ y -> n <= length a -> n <= length b ->
  drop n a ++ x = drop n b ++ y.
Proof.
  intros Heq Ha Hb.
  rewrite <- (drop_app_le a x n), <- (drop_app_le b y n) by done.
  by rewrite Heq.
Qed.

(** What is held back while the end tag has not arrived in full is
    never more than the interior that is left. *)
Lemma held_within_interior buf future k z :
  buf ++ future = k ++ THINKING_END_TAG ++ z ->
  length buf < length k + length THINKING_END_TAG ->
  length buf - _pending_tag_suffix buf THINKING_END_TAG <= length k.
Proof.
  intros Heq Hlen.
  destruct (Nat.le_gt_cases (length buf) (length k)) as [|Hlong]; [lia|].
  symmetry in Heq. apply app_split_le in Heq as (p & -> & Heq); [|lia].
  rewrite length_app in *.
  symmetry in Heq. apply app_split_le in Heq as (y & Htag & _); [|lia].
  assert (Hp : p = take (length p) THINKING_END_TAG)
    by by rewrite Htag, take_app_length.
  pose proof (pending_tag_suffix_ge k THINKING_END_TAG (length p)) as Hge.
  rewrite <- Hp in Hge. lia.
Qed.

(** Inside the thinking, what cannot be the start of the end tag is
    emitted, the rest is held back. *)
Lemma pass_inner_wait buf k d future :
  length buf < length k + length THINKING_END_TAG ->
  at_residual (buf, true, 0, new_quote_state) (RInner k d) future ->
  residual_ok (RInner k d) = true ->
  pass_ok (buf, true, 0, new_quote_state) (RInner k d) future.
Proof.
  intros Hlen Hat Hok. pose proof (quote_free_remaining _ Hok) as Hquote.
  revert Hat Hok Hquote. open_residual.
  intros (Hrem & _) Hok Hquote.
  rewrite Hrem, quote_free_app in Hquote. split_andb.
  assert (Hfind : find buf THINKING_END_TAG 0 = None).
  { unfold find. rewrite drop_0.
    by eapply (find_from_before_close _ k buf future). }
  pose proof (held_within_interior buf future k _ (eq_sym Hrem) Hlen)
    as Hheld.
  pose proof (pending_tag_suffix_le buf THINKING_END_TAG) as Hle.
  unfold pass_ok, scan_step. simpl.
  rewrite find_real_tag_plain, Hfind by done.
  set (e := length buf - _pending_tag_suffix buf THINKING_END_TAG) in *.
  destruct (Nat.leb_spec e 0) as [Hzero|Hpos].
  - by_computation (RInner k d). finish_pass.
  - by_computation (RInner (drop e k) d).
    rewrite chunk_list_concat, (take_common buf k future
      (THINKING_END_TAG ++ flatten d) e) by (done || lia).
    finish_pass.
    + symmetry. apply (drop_common buf k); (done || lia).
    + by apply closed_by_drop.
    + by apply quote_free_drop.
    + by rewrite app_assoc, take_drop.
Qed.

(** Every pass from a residual of a well-formed text ends at one. *)
Lemma pass_residual s r future :
  at_residual s r future -> residual_ok r = true -> s.1.1.1 <> [] ->
  pass_ok s r future.
Proof.
  destruct s as [[[buf inthink] pend] q].
  destruct r as [[t|t k rest]|n k d|k d]; intros Hat Hok Hne.
  - by apply pass_outer_done.
  - pose proof Hat as (Hrem & -> & -> & ->). cbn [remaining flatten] in Hrem.
    simpl in Hne.
    destruct (Nat.le_gt_cases (length (t ++ THINKING_START_TAG))
                (length buf)) as [Hfound|Hnot].
    { rewrite app_assoc in Hrem.
      apply app_split_le in Hrem as (x & -> & _); [|done].
      rewrite <- app_assoc in Hat |- *. by apply pass_outer_found. }
    rewrite length_app in Hnot.
    destruct (Nat.le_gt_cases (length buf) (length t)) as [Htext|Hpart].
    { symmetry in Hrem. apply app_split_le in Hrem as (t2 & -> & _); [|done].
      by apply pass_outer_text. }
    apply app_split_le in Hrem as (p & -> & Hrem); [|lia].
    rewrite length_app in *.
    symmetry in Hrem. apply app_split_le in Hrem as (s2 & Htag & _); [|lia].
    assert (s2 <> []).
    { intros ->. rewrite app_nil_r in Htag. subst p. lia. }
    destruct t as [|c t].
    + by apply (pass_outer_speculate p s2).
    + by apply (pass_outer_hold (c :: t) p s2).
  - by apply pass_tag.
  - pose proof Hat as (Hrem & -> & -> & ->). cbn [remaining] in Hrem.
    destruct (Nat.le_gt_cases (length k + length THINKING_END_TAG)
                (length buf)) as [Hfound|Hnot].
    + rewrite app_assoc in Hrem.
      apply app_split_le in Hrem as (x & -> & _);
        [|by rewrite length_app].
      rewrite <- app_assoc in Hat |- *. by apply pass_inner_found.
    + by apply pass_inner_wait.
Qed.

#[local] Transparent THINKING_START_TAG THINKING_END_TAG.

End Residuals.

Section Separation.
Context `{B : Builtins}.
#[local] Open Scope nat_scope.
#[local] Arguments _pending_tag_suffix : simpl never.
#[local] Arguments find_real_tag : simpl never.
#[local] Arguments update : simpl never.

Ltac step_cases :=
  repeat match goal with
         | |- context [if ?c then _ else _] => destruct c eqn:?
         | |- context [match ?x with Some _ => _ | None => _ end] =>
             destruct x eqn:?
         end.

Ltac nat_tests :=
  repeat match goal with
         | H : Nat.ltb _ _ = true |- _ => apply Nat.ltb_lt in H
         | H : Nat.ltb _ _ = false |- _ => apply Nat.ltb_ge in H
         | H : Nat.leb _ _ = true |- _ => apply Nat.leb_le in H
         | H : Nat.leb _ _ = false |- _ => apply Nat.leb_gt in H
         | H : Nat.eqb _ _ = true |- _ => apply Nat.eqb_eq in H
         | H : Nat.eqb _ _ = false |- _ => apply Nat.eqb_neq in H
         end.

Lemma think_loop_scanner fuel h h' out :
  think_loop fuel h = Return (h', out) ->
  scan_loop fuel (scanner h)
  = Some (scanner h', (text_deltas out, thinking_deltas out))
  /\ current_tool_use h' = current_tool_use h
  /\ response_ended h' = response_ended h.
Proof.
  revert h out. induction fuel as [|fuel IH]; intros h out; [done|].
  cbn [think_loop scan_loop].
  change ((scanner h).1.1.1) with (think_buffer h).
  destruct (nonempty (think_buffer h)); cbn [negb];
    [|by intros [= <- <-]].
  destruct (think_step h) as [[h1 out1] go_on] eqn:Hstep.
  apply think_step_scanner in Hstep as (-> & Htool & Hend).
  destruct go_on; [|by intros [= <- <-]].
  destruct (think_loop fuel h1) as [[h2 out2]| |] eqn:Hloop; try done.
  intros [= <- <-]. apply IH in Hloop as (-> & Htool' & Hend').
  rewrite text_deltas_app, thinking_deltas_app. repeat split; congruence.
Qed.

(** What a text event does to the handler is the loop of the scanner
    on the buffer with the text appended. *)
Lemma handle_event_scanner h content h' out :
  response_ended h = false -> current_tool_use h = None ->
  handle_event h (AssistantResponseEvent content) = Return (h', out) ->
  (if nonempty content
   then scan_loop (S (length (think_buffer h ++ content)))
          (think_buffer h ++ content, in_think_block h,
           pending_start_tag_chars h, quote_state h)
   else Some (scanner h, ([], [])))
  = Some (scanner h', (text_deltas out, thinking_deltas out))
  /\ current_tool_use h' = None
  /\ response_ended h' = false.
Proof.
  intros Hend Htool. unfold handle_event, close_tool_block.
  rewrite Hend, Htool.
  destruct (nonempty content); [|by intros [= <- <-]].
  destruct (think_loop _ _) as [[h2 out2]| |] eqn:Hloop; try done.
  intros [= <- <-]. apply think_loop_scanner in Hloop as (Hloop & -> & ->).
  done.
Qed.

Lemma scan_step_shortens s s' emitted :
  s.1.1.1 <> [] -> scan_step s = (s', emitted, true) ->
  length s'.1.1.1 < length s.1.1.1.
Proof.
  destruct s as [[[buf inthink] pend] q]. simpl. intros Hne.
  assert (0 < length buf) by (destruct buf; [done|simpl; lia]).
  unfold scan_step.
  step_cases; intros [= <- <-]; simpl; rewrite ?length_drop;
    rewrite ?start_tag_length, ?end_tag_length; nat_tests; lia.
Qed.

(** The loop of the scanner, from a residual of a well-formed text,
    ends at a residual, stalled. *)
Lemma scan_loop_residual fuel s r future :
  length s.1.1.1 < fuel ->
  at_residual s r future -> residual_ok r = true ->
  exists s' texts thinkings r',
    scan_loop fuel s = Some (s', (texts, thinkings))
    /\ at_residual s' r' future
    /\ residual_ok r' = true
    /\ stalled s'
    /\ text_left r = concat texts ++ text_left r'
    /\ thinking_left r = concat thinkings ++ thinking_left r'.
Proof.
  revert s r. induction fuel as [|fuel IH]; intros s r Hfuel Hat Hok; [lia|].
  destruct s as [[[buf inthink] pend] q]. cbn [scan_loop fst] in Hfuel |- *.
  destruct (nonempty buf) eqn:Hne; cbn [negb].
  - assert (Hbuf : buf <> []) by (by destruct buf).
    destruct (pass_residual _ r future Hat Hok Hbuf)
      as (s1 & texts & thinkings & go_on & r1 & Hstep & Hat1 & Hok1
          & Hstall & Htext & Hthink).
    rewrite Hstep. destruct go_on.
    + apply scan_step_shortens in Hstep; [|done].
      destruct s1 as [[[buf1 inthink1] pend1] q1]. cbn [fst] in Hstep.
      destruct (IH (buf1, inthink1, pend1, q1) r1) as (s2 & texts' & thinkings' & r2 & -> & Hat2
                              & Hok2 & Hstall2 & Htext2 & Hthink2);
        [cbn [fst]; lia|done|done|].
      exists s2, (texts ++ texts'), (thinkings ++ thinkings'), r2.
      rewrite !concat_app, <- !app_assoc, <- Htext2, <- Hthink2.
      by repeat split.
    + exists s1, texts, thinkings, r1. repeat split; auto.
  - exists (buf, inthink, pend, q), [], [], r. apply nonempty_false in Hne.
    subst buf. do 3 (split; [done|]). split; [by left|]. by split.
Qed.

(** When the stream has ended, nothing is left of the text. *)
Lemma residual_end s r :
  at_residual s r [] -> residual_ok r = true -> stalled s ->
  text_left r = [] /\ thinking_left r = [].
Proof.
  destruct s as [[[buf inthink] pend] q].
  unfold at_residual, stalled. rewrite app_nil_r.
  intros (Hrem & -> & Hmode) Hok [->|(-> & -> & Hfind)].
  - destruct r as [[t|t k rest]|n k d|k d]; cbn [remaining flatten] in Hrem.
    + by subst t.
    + apply (f_equal length) in Hrem. rewrite !length_app in Hrem.
      rewrite start_tag_length in Hrem. simpl in Hrem. lia.
    + cbn [residual_ok] in Hok.
      repeat (apply andb_true_iff in Hok as [Hok ?]).
      apply Nat.ltb_lt in Hok.
      apply (f_equal length) in Hrem. rewrite !length_app in Hrem.
      rewrite end_tag_length in Hrem. simpl in Hrem. lia.
    + apply (f_equal length) in Hrem. rewrite !length_app in Hrem.
      rewrite end_tag_length in Hrem. simpl in Hrem. lia.
  - destruct r as [d|n k d|k d]; destruct Hmode as [Hin Hpend]; try done.
    + cbn [residual_ok] in Hok.
      repeat (apply andb_true_iff in Hok as [Hok ?]).
      apply Nat.ltb_lt in Hok. lia.
    + cbn [remaining residual_ok] in Hrem, Hok.
      repeat (apply andb_true_iff in Hok as [Hok ?]).
      rewrite <- Hrem in Hfind. unfold find in Hfind.
      rewrite drop_0, find_from_closed in Hfind by done. done.
Qed.

Lemma events_residual chunks h r :
  at_residual (scanner h) r (concat chunks) ->
  residual_ok r = true -> stalled (scanner h) ->
  current_tool_use h = None -> response_ended h = false ->
  exists h' out,
    handle_events h (map AssistantResponseEvent chunks) = Return (h', out)
    /\ text_left r = concat (text_deltas out)
    /\ thinking_left r = concat (thinking_deltas out).
Proof.
  revert h r. induction chunks as [|c chunks IH];
    intros h r Hat Hok Hstall Htool Hend.
  - exists h, []. split; [done|].
    by destruct (residual_end _ _ Hat Hok Hstall) as [-> ->].
  - cbn [map handle_events].
    destruct (handle_event_returns h (AssistantResponseEvent c))
      as (h1 & out1 & Hev).
    rewrite Hev.
    apply handle_event_scanner in Hev as (Hscan & Htool1 & Hend1);
      [|done|done].
    assert (exists r1,
              at_residual (scanner h1) r1 (concat chunks)
              /\ residual_ok r1 = true /\ stalled (scanner h1)
              /\ text_left r = concat (text_deltas out1) ++ text_left r1
              /\ thinking_left r
                 = concat (thinking_deltas out1) ++ thinking_left r1)
      as (r1 & Hat1 & Hok1 & Hstall1 & Htext & Hthink).
    { destruct (nonempty c) eqn:Hc.
      - edestruct (scan_loop_residual
                     (S (length (think_buffer h ++ c)))
                     (think_buffer h ++ c, in_think_block h,
                      pending_start_tag_chars h, quote_state h)
                     r (concat chunks))
          as (s' & texts & thinkings & r1 & Hloop & ?);
          [simpl; lia| |done|].
        + unfold at_residual, scanner in Hat |- *.
          cbn [concat] in Hat. by rewrite <- app_assoc.
        + rewrite Hloop in Hscan. injection Hscan as <- <- <-.
          by exists r1.
      - assert (scanner h1 = scanner h /\ text_deltas out1 = []
                /\ thinking_deltas out1 = []) as (-> & -> & ->)
          by (repeat split; congruence).
        apply nonempty_false in Hc. subst c. cbn [concat app] in Hat.
        exists r. split; [exact Hat|]. split; [done|].
        split; [exact Hstall|]. by split. }
    destruct (IH h1 r1) as (h2 & out2 & -> & Htext2 & Hthink2); try done.
    exists h2, (out1 ++ out2).
    rewrite text_deltas_app, thinking_deltas_app, !concat_app.
    split; [done|]. by rewrite Htext, Hthink, Htext2, Hthink2.
Qed.

End Separation.

(** ** Streaming emitter: the tag search *)

Section TagSearchSpec.
#[local] Open Scope nat_scope.

Lemma find_from_first tag s i idx :
  find_from tag s i = Some idx ->
  forall j, j < idx - i -> starts_with tag (drop j s) = false.
Proof.
  revert i. induction s as [|c s IH]; intros i; rewrite find_from_eq.
  - destruct (starts_with tag []); [|done]. intros [= <-] j Hj. lia.
  - destruct (starts_with tag (c :: s)) eqn:Hhead.
    + intros [= <-] j Hj. lia.
    + intros Hfind [|j] Hj; [done|]. simpl.
      apply (IH (S i) Hfind). apply find_from_Some in Hfind as (n & -> & _).
      lia.
Qed.

Lemma find_from_None tag s i :
  find_from tag s i = None ->
  forall j, starts_with tag (drop j s) = false.
Proof.
  revert i. induction s as [|c s IH]; intros i; rewrite find_from_eq.
  - destruct (starts_with tag []) eqn:Hhead; [done|].
    intros _ j. by rewrite drop_nil.
  - destruct (starts_with tag (c :: s)) eqn:Hhead; [done|].
    intros Hfind [|j]; [done|]. simpl. by apply (IH (S i)).
Qed.

(** [text.find(tag, pos)] is the first occurrence from [pos] on. *)
Lemma find_first text tag pos idx :
  find text tag pos = Some idx ->
  forall j, pos <= j < idx -> starts_with tag (drop j text) = false.
Proof.
  unfold find. intros Hfind j Hj.
  pose proof (find_from_first _ _ _ _ Hfind (j - pos)) as Hfirst.
  rewrite drop_drop in Hfirst. replace (pos + (j - pos)) with j in Hfirst by lia.
  apply Hfirst. lia.
Qed.

Lemma find_None text tag pos :
  find text tag pos = None ->
  forall j, pos <= j -> starts_with tag (drop j text) = false.
Proof.
  unfold find. intros Hfind j Hj.
  pose proof (find_from_None _ _ _ Hfind (j - pos)) as Hnone.
  rewrite drop_drop in Hnone. by replace (pos + (j - pos)) with j in Hnone by lia.
Qed.

Lemma find_real_tag_loop_spec fuel text tag pos q :
  tag <> [] -> length text - pos < fuel ->
  match find_real_tag_loop fuel text tag pos q with
  | Some idx =>
      pos <= idx /\ real_occurrence q text tag idx = true
      /\ forall j, pos <= j < idx -> real_occurrence q text tag j = false
  | None => forall j, pos <= j -> real_occurrence q text tag j = false
  end.
Proof.
  intros Htag. revert pos.
  induction fuel as [|fuel IH]; intros pos Hfuel; [lia|].
  cbn [find_real_tag_loop].
  destruct (find text tag pos) as [idx|] eqn:Hfind.
  - pose proof (find_Some_bound _ _ _ _ Htag Hfind) as Hbound.
    pose proof (find_first _ _ _ _ Hfind) as Hfirst.
    apply find_Some in Hfind as [Hle Hocc].
    destruct (check_at_position q text idx) eqn:Hcheck; cbn [negb].
    + specialize (IH (idx + 1)).
      destruct (find_real_tag_loop fuel text tag (idx + 1) q) as [idx'|].
      * destruct IH as (Hle' & Hreal & Hbefore); [lia|].
        split; [lia|]. split; [done|]. intros j Hj.
        destruct (Nat.lt_ge_cases j idx) as [Hlt|Hge].
        -- unfold real_occurrence. by rewrite Hfirst by lia.
        -- destruct (decide (j = idx)) as [->|Hne].
           ++ unfold real_occurrence. by rewrite Hcheck, andb_false_r.
           ++ apply Hbefore. lia.
      * intros j Hj.
        destruct (Nat.lt_ge_cases j idx) as [Hlt|Hge].
        -- unfold real_occurrence. by rewrite Hfirst by lia.
        -- destruct (decide (j = idx)) as [->|Hne].
           ++ unfold real_occurrence. by rewrite Hcheck, andb_false_r.
           ++ apply IH; lia.
    + split; [done|]. split.
      * unfold real_occurrence. by rewrite Hocc, Hcheck.
      * intros j Hj. unfold real_occurrence. by rewrite Hfirst by lia.
  - intros j Hj. unfold real_occurrence.
    by rewrite (find_None _ _ _ Hfind) by done.
Qed.

End TagSearchSpec.

(** ** Streaming emitter: what every run keeps *)

Section Runs.
Context `{B : Builtins}.

Lemma think_step_ended h h' out go_on :
  think_step h = (h', out, go_on) -> response_ended h' = response_ended h.
Proof. intros H. by apply think_step_scanner in H as (_ & _ & ?). Qed.

Lemma close_tool_block_ended h :
  response_ended (close_tool_block h).1 = response_ended h.
Proof.
  unfold close_tool_block.
  destruct (current_tool_use h); [|done].
  by destruct (negb (content_block_stop_sent h)).
Qed.

(** A relation that holds of no event, is transitive, and holds of
    every step of a handler that has not ended, holds of every run. *)
Section Lift.
Variable R : ClaudeStreamHandler -> list sse -> ClaudeStreamHandler -> Prop.
Hypothesis R_nil : forall h, R h [] h.
Hypothesis R_app : forall h out1 h1 out2 h2,
  R h out1 h1 -> R h1 out2 h2 -> R h (out1 ++ out2) h2.
Hypothesis R_step : forall h h' out go_on,
  response_ended h = false ->
  think_step h = (h', out, go_on) -> R h out h'.
Hypothesis R_close : forall h,
  response_ended h = false ->
  R h (close_tool_block h).2 (close_tool_block h).1.
Hypothesis R_buffer : forall h buffer,
  response_ended h = false -> R h [] (set_think_buffer buffer h).
Hypothesis R_other : forall h ev h' out,
  response_ended h = false ->
  (forall content, ev <> AssistantResponseEvent content) ->
  handle_event h ev = Return (h', out) -> R h out h'.

Lemma lift_loop fuel h h' out :
  response_ended h = false ->
  think_loop fuel h = Return (h', out) -> R h out h'.
Proof.
  revert h out. induction fuel as [|fuel IH]; intros h out Hend; [done|].
  cbn [think_loop].
  destruct (nonempty (think_buffer h)); cbn [negb];
    [|intros [= <- <-]; apply R_nil].
  destruct (think_step h) as [[h1 out1] go_on] eqn:Hstep.
  pose proof (think_step_ended _ _ _ _ Hstep) as Hend1.
  apply R_step in Hstep; [|done].
  destruct go_on; [|by intros [= <- <-]].
  destruct (think_loop fuel h1) as [[h2 out2]| |] eqn:Hloop; try done.
  intros [= <- <-]. eapply R_app; [done|]. apply IH; [congruence|done].
Qed.

Lemma lift_event h ev h' out :
  handle_event h ev = Return (h', out) -> R h out h'.
Proof.
  destruct (response_ended h) eqn:Hend.
  { unfold handle_event. rewrite Hend. intros [= <- <-]. apply R_nil. }
  destruct ev as [conv|content|tid tname input stop| |other];
    try (intros Hev; eapply R_other; [exact Hend| |exact Hev]; done).
  unfold handle_event. rewrite Hend.
  pose proof (R_close h Hend) as Hclose.
  pose proof (close_tool_block_ended h) as Hend1.
  destruct (close_tool_block h) as [h1 out1]. cbn [fst snd] in *.
  destruct (nonempty content); [|by intros [= <- <-]].
  destruct (think_loop _ _) as [[h2 out2]| |] eqn:Hloop; try done.
  intros [= <- <-]. eapply R_app; [done|].
  apply lift_loop in Hloop; [|by rewrite <- Hend1 in Hend].
  rewrite <- (app_nil_l out2). eapply R_app; [|done].
  apply R_buffer. congruence.
Qed.

Lemma lift_events evs h h' out :
  handle_events h evs = Return (h', out) -> R h out h'.
Proof.
  revert h out. induction evs as [|ev evs IH]; intros h out;
    cbn [handle_events]; [intros [= <- <-]; apply R_nil|].
  destruct (handle_event h ev) as [[h1 out1]| |] eqn:Hev; try done.
  destruct (handle_events h1 evs) as [[h2 out2]| |] eqn:Hevs; try done.
  intros [= <- <-].
  eapply R_app; [exact (lift_event _ _ _ _ Hev)|by apply IH].
Qed.

End Lift.

Lemma not_text_event content :
  (forall c, AssistantResponseEvent content <> AssistantResponseEvent c) ->
  False.
Proof. intros H. by apply (H content). Qed.

Ltac step_cases :=
  repeat match goal with
         | |- context [if ?c then _ else _] => destruct c eqn:?
         | |- context [match ?x with Some _ => _ | None => _ end] =>
             destruct x eqn:?
         end.

(** The passes of the buffer loop, one case each. *)
Ltac pass_cases h :=
  destruct h;
  unfold think_step, emit_text, stop_open_block, start_block, emit_thinking;
  simpl; step_cases; intros [= <- <- <-]; simpl.

(** The events other than text, one case each. *)
Ltac event_bodies_with ev Hne end_case :=
  destruct ev as [conv|content|tid tname input stop| |other];
  [ |exfalso; by apply (not_text_event _ Hne)| | | ]; clear Hne;
  unfold handle_event; simpl;
  [ step_cases; intros [= <- <-]; simpl
  | destruct (truthy_str tid), (truthy_str tname);
    simpl; step_cases; simpl; step_cases; intros [= <- <-]; simpl
  | end_case
  | step_cases; intros [= <- <-]; simpl ].

Ltac event_bodies ev Hne :=
  event_bodies_with ev Hne ltac:(step_cases; intros [= <- <-]; simpl).

Ltac event_cases h ev Hne := destruct h; event_bodies ev Hne.

(** *** The text kept for the token count *)

Lemma keeps_response_text_nil h : keeps_response_text h [] h.
Proof. unfold keeps_response_text. simpl. by rewrite app_nil_r. Qed.

Lemma keeps_response_text_app h out1 h1 out2 h2 :
  keeps_response_text h out1 h1 -> keeps_response_text h1 out2 h2 ->
  keeps_response_text h (out1 ++ out2) h2.
Proof.
  unfold keeps_response_text. intros H1 H2.
  by rewrite H2, H1, text_deltas_app, concat_app, app_assoc.
Qed.

Lemma keeps_response_text_run evs h h' out :
  handle_events h evs = Return (h', out) -> keeps_response_text h out h'.
Proof.
  apply lift_events.
  - apply keeps_response_text_nil.
  - apply keeps_response_text_app.
  - intros h0 h1 out0 go_on _. unfold keeps_response_text.
    pass_cases h0; rewrite ?concat_app; simpl; by rewrite ?app_nil_r.
  - intros h0 _. unfold keeps_response_text, close_tool_block.
    destruct (current_tool_use h0); [|simpl; by rewrite app_nil_r].
    destruct (negb (content_block_stop_sent h0)); simpl;
      by rewrite app_nil_r.
  - intros h0 buffer _. unfold keeps_response_text. simpl.
    by rewrite app_nil_r.
  - intros h0 ev h1 out0 _ Hne. unfold keeps_response_text.
    event_cases h0 ev Hne; by rewrite ?app_nil_r.
Qed.

(** *** The numbering of the blocks *)

Lemma start_indices_app out out' :
  start_indices (out ++ out') = start_indices out ++ start_indices out'.
Proof. apply omap_app. Qed.

Lemma numbers_blocks_nil h : numbers_blocks h [] h.
Proof. unfold numbers_blocks. simpl. split; [done|lia]. Qed.

Lemma numbers_blocks_app h out1 h1 out2 h2 :
  numbers_blocks h out1 h1 -> numbers_blocks h1 out2 h2 ->
  numbers_blocks h (out1 ++ out2) h2.
Proof.
  unfold numbers_blocks. intros [H1 Hi1] [H2 Hi2].
  rewrite start_indices_app, length_app, Nat2Z.inj_add.
  split; [|lia].
  rewrite seqZ_app by lia. rewrite <- H1. f_equal.
  rewrite H2 at 1. f_equal. lia.
Qed.

Lemma seqZ_one m : seqZ m 1 = [m].
Proof. unfold seqZ. simpl. by replace (Z.of_nat 0 + m) with m by lia. Qed.

Lemma seqZ_two m : seqZ m 2 = [m; m + 1].
Proof.
  unfold seqZ. simpl.
  replace (Z.of_nat 0 + m) with m by lia.
  by replace (Z.of_nat 1 + m) with (m + 1) by lia.
Qed.

Ltac numbered :=
  unfold numbers_blocks; simpl;
  rewrite ?seqZ_one, ?seqZ_two;
  split; [try done|lia].

Lemma numbers_blocks_run evs h h' out :
  handle_events h evs = Return (h', out) -> numbers_blocks h out h'.
Proof.
  apply lift_events.
  - apply numbers_blocks_nil.
  - apply numbers_blocks_app.
  - intros h0 h1 out0 go_on _. pass_cases h0; numbered.
  - intros h0 _. unfold close_tool_block.
    destruct (current_tool_use h0); [|numbered].
    destruct (negb (content_block_stop_sent h0)); numbered.
  - intros h0 buffer _. numbered.
  - intros h0 ev h1 out0 _ Hne. event_cases h0 ev Hne; numbered.
Qed.

(** *** [message_start] *)

Lemma count_app p out out' :
  count p (out ++ out') = (count p out + count p out')%nat.
Proof. unfold count. by rewrite List.filter_app, length_app. Qed.

Lemma starts_message_once_nil h : starts_message_once h [] h.
Proof.
  unfold starts_message_once.
  destruct (message_start_sent h) eqn:Hsent; [by split|by left].
Qed.

Lemma starts_message_once_app h out1 h1 out2 h2 :
  starts_message_once h out1 h1 -> starts_message_once h1 out2 h2 ->
  starts_message_once h (out1 ++ out2) h2.
Proof.
  unfold starts_message_once. rewrite count_app.
  destruct (message_start_sent h).
  - intros [-> ->] [-> ->]. by split.
  - intros [->|[-> ->]].
    + destruct (message_start_sent h1).
      * intros [-> _]. by left.
      * intros [->|[-> ->]]; [by left|by right].
    + intros [-> ->]. by right.
Qed.

Ltac sent_once :=
  unfold starts_message_once; simpl;
  repeat match goal with
         | |- context [if ?c then _ else _] => destruct c eqn:?
         end;
  try done; try (by split); try (by left); try (by right).

Lemma starts_message_once_run evs h h' out :
  handle_events h evs = Return (h', out) -> starts_message_once h out h'.
Proof.
  apply lift_events.
  - apply starts_message_once_nil.
  - apply starts_message_once_app.
  - intros h0 h1 out0 go_on _. pass_cases h0; sent_once.
  - intros h0 _. unfold close_tool_block.
    destruct (current_tool_use h0); [|sent_once].
    destruct (negb (content_block_stop_sent h0)); sent_once.
  - intros h0 buffer _. sent_once.
  - intros h0 ev h1 out0 _ Hne. event_cases h0 ev Hne; sent_once.
Qed.

(** *** [has_tool_use] *)





(** *** Text and thinking deltas *)

Lemma nonempty_not_nil {A} (l : list A) : nonempty l = true -> l <> [].
Proof. by destruct l. Qed.

Ltac filled :=
  unfold deltas_nonempty; simpl;
  repeat (first [apply List.Forall_nil | apply List.Forall_cons]);
  try (apply nonempty_not_nil; assumption).

Lemma deltas_nonempty_run evs h h' out :
  handle_events h evs = Return (h', out) -> deltas_nonempty out.
Proof.
  apply (lift_events (fun _ out _ => deltas_nonempty out)).
  - intros _. filled.
  - intros _ out1 _ out2 _. unfold deltas_nonempty.
    rewrite omap_app, Forall_app. by split.
  - intros h0 h1 out0 go_on _. pass_cases h0; filled.
  - intros h0 _. unfold close_tool_block.
    destruct (current_tool_use h0); [|filled].
    destruct (negb (content_block_stop_sent h0)); filled.
  - intros h0 buffer _. filled.
  - intros h0 ev h1 out0 _ Hne. event_cases h0 ev Hne; filled.
Qed.

(** *** The end of the response *)






End Runs.

(** ** Streaming emitter: properties *)

Section StreamProperties.
Context `{B : Builtins}.

(** X1. [find_real_tag] returns the first position from [start] on
    where the tag occurs outside quotes, and -1 ([None]) when there is
    none. *)
Theorem find_real_tag_first_real_occurrence text tag start q :
  tag <> [] ->
  first_real_occurrence q text tag start (find_real_tag text tag start q).
Proof.
  intros Htag. apply find_real_tag_loop_spec; [done|lia].
Qed.

Lemma pending_loop_match n buffer tag :
  drop (length buffer - pending_loop n buffer tag) buffer
  = take (pending_loop n buffer tag) tag.
Proof.
  induction n as [|n IH]; simpl.
  - by rewrite Nat.sub_0_r, drop_all.
  - destruct (str_eqb _ _) eqn:Htest; [|done].
    by apply bool_decide_eq_true in Htest.
Qed.

Lemma pending_loop_longest n buffer tag m :
  (pending_loop n buffer tag < m <= n)%nat ->
  drop (length buffer - m) buffer <> take m tag.
Proof.
  induction n as [|n IH]; simpl; [lia|].
  destruct (str_eqb _ _) eqn:Htest; [lia|].
  apply bool_decide_eq_false in Htest. intros Hm.
  destruct (decide (m = S n)) as [->|]; [done|]. apply IH. lia.
Qed.

(** X2. [_pending_tag_suffix] is the length of the longest suffix of
    the buffer that is a start of the tag and not the whole tag: that
    suffix matches, no longer one does, and it is 0 for an empty buffer
    or tag. *)
Theorem pending_tag_suffix_longest_match buffer tag :
  (_pending_tag_suffix buffer tag <= length buffer)%nat
  /\ (_pending_tag_suffix buffer tag <= length tag - 1)%nat
  /\ drop (length buffer - _pending_tag_suffix buffer tag) buffer
     = take (_pending_tag_suffix buffer tag) tag
  /\ forall m,
       (_pending_tag_suffix buffer tag < m)%nat ->
       (m <= length buffer)%nat -> (m <= length tag - 1)%nat ->
       drop (length buffer - m) buffer <> take m tag.
Proof.
  unfold _pending_tag_suffix.
  destruct buffer as [|c buffer]; [|destruct tag as [|t tag]].
  - simpl. repeat split; try lia; intros; simpl in *; lia.
  - simpl. rewrite drop_all.
    repeat split; try lia; intros; simpl in *; lia.
  - cbn [nonempty negb orb].
    pose proof (pending_loop_le
                  (Nat.min (length (c :: buffer)) (length (t :: tag) - 1))
                  (c :: buffer) (t :: tag)) as Hle.
    split; [lia|]. split; [lia|]. split; [apply pending_loop_match|].
    intros m Hm Hb Ht.
    apply (pending_loop_longest
             (Nat.min (length (c :: buffer)) (length (t :: tag) - 1))).
    lia.
Qed.

(** X3. Where [find_real_tag] finds a start tag, every quote flag is
    down after the text before the tag: the [reset] that follows
    changes nothing. *)
Theorem reset_at_start_tag_changes_nothing q buffer idx :
  find_real_tag buffer THINKING_START_TAG 0 q = Some idx ->
  update q (take idx buffer) = new_quote_state.
Proof. apply update_before_start_tag. Qed.

(** X4. After any sequence of events, the quote state of the handler is
    what [update] leaves after the text deltas emitted, one call per
    delta, from the state it had before. *)
Theorem quote_state_is_update_of_text_deltas h evs :
  exists h' out,
    handle_events h evs = Return (h', out)
    /\ quote_state h' = update_chunks (quote_state h) (text_deltas out).
Proof.
  revert h. induction evs as [|ev evs IH]; intros h; simpl.
  - by exists h, [].
  - destruct (handle_event_returns h ev) as (h1 & out1 & Hev).
    rewrite Hev. apply handle_event_quote_state in Hev.
    destruct (IH h1) as (h2 & out2 & -> & Hq).
    exists h2, (out1 ++ out2). split; [done|].
    by rewrite text_deltas_app, update_chunks_app, <- Hev.
Qed.

Lemma think_step_not_longer h h' out go_on :
  think_step h = (h', out, go_on) ->
  (length (think_buffer h') <= length (think_buffer h))%nat.
Proof.
  destruct h as [? ? ? ? ? ? ? ? ? ? ? ? ? ? ? ? ? ? buf pend ?].
  unfold think_step, emit_text, stop_open_block, start_block, emit_thinking.
  simpl.
  repeat match goal with
         | |- context [if ?c then _ else _] => destruct c eqn:?
         | |- context [match ?x with Some _ => _ | None => _ end] =>
             destruct x eqn:?
         end; intros [= <- <-]; simpl; rewrite ?length_drop; lia.
Qed.

(** X5. The loop over [think_buffer] ends: a pass that does not leave
    the loop shortens the buffer, so [len(think_buffer) + 1] passes are
    enough, whatever the state of the handler. *)
Theorem think_loop_ends h :
  exists h' out,
    think_loop (S (length (think_buffer h))) h = Return (h', out)
    /\ (length (think_buffer h') <= length (think_buffer h))%nat.
Proof.
  assert (Hgen : forall fuel h0,
            (length (think_buffer h0) < fuel)%nat ->
            exists h' out,
              think_loop fuel h0 = Return (h', out)
              /\ (length (think_buffer h') <= length (think_buffer h0))%nat).
  { induction fuel as [|fuel IH]; intros h0 Hfuel; [lia|].
    simpl. destruct (nonempty (think_buffer h0)) eqn:Hne; simpl;
      [|by exists h0, []].
    destruct (think_step h0) as [[h1 out1] go_on] eqn:Hstep.
    destruct go_on.
    - apply think_step_shortens in Hstep;
        [|by destruct (think_buffer h0)].
      destruct (IH h1) as (h' & out & -> & Hle); [lia|].
      exists h', (out1 ++ out). split; [done|lia].
    - exists h1, out1. split; [done|].
      by eapply think_step_not_longer. }
  apply Hgen. lia.
Qed.

(** X6. For a text whose parts outside the thinking spans hold no [<],
    whose spans are closed by the first end tag after their start tag,
    and which holds no quote and no backtick: however the text is cut
    into events, the text deltas add up to the text outside the spans
    and the thinking deltas to the interiors of the spans. *)
Theorem text_and_thinking_are_separated d chunks model input_tokens conv :
  well_formed d = true ->
  concat chunks = flatten d ->
  exists h out,
    handle_events (new_handler model input_tokens conv)
      (map AssistantResponseEvent chunks) = Return (h, out)
    /\ concat (text_deltas out) = text_of d
    /\ concat (thinking_deltas out) = thinking_of d.
Proof.
  intros Hwf Hchunks.
  assert (Hat : at_residual (scanner (new_handler model input_tokens conv))
                  (ROuter d) (concat chunks)).
  { unfold at_residual, scanner. simpl. by rewrite Hchunks. }
  assert (Hstall : stalled (scanner (new_handler model input_tokens conv)))
    by by left.
  destruct (events_residual chunks _ _ Hat Hwf Hstall eq_refl eq_refl)
    as (h & out & Hrun & Htext & Hthink).
  by exists h, out.
Qed.

Lemma handle_events_app h evs1 evs2 :
  handle_events h (evs1 ++ evs2)
  = match handle_events h evs1 with
    | Return (h1, out1) =>
        match handle_events h1 evs2 with
        | Return (h2, out2) => Return (h2, out1 ++ out2)
        | other => other
        end
    | other => other
    end.
Proof.
  revert h. induction evs1 as [|ev evs1 IH]; intros h; simpl.
  - by destruct (handle_events h evs2) as [[h2 out2]| |].
  - destruct (handle_event h ev) as [[h1 out1]| |]; try done.
    rewrite IH.
    destruct (handle_events h1 evs1) as [[h2 out2]| |]; try done.
    destruct (handle_events h2 evs2) as [[h3 out3]| |]; try done.
    by rewrite app_assoc.
Qed.

Lemma ended_ignores_events h evs :
  response_ended h = true -> handle_events h evs = Return (h, []).
Proof.
  intros Hend. induction evs as [|ev evs IH]; simpl; [done|].
  unfold handle_event. by rewrite Hend, IH.
Qed.

Lemma end_event_ends h h' out :
  handle_event h AssistantResponseEnd = Return (h', out) ->
  response_ended h' = true.
Proof.
  unfold handle_event. destruct (response_ended h) eqn:Hend.
  - by intros [= <- <-].
  - destruct (content_block_started h && negb (content_block_stop_sent h));
      by intros [= <- <-].
Qed.

(** X7. Once [assistantResponseEnd] has been handled, nothing more is
    emitted: the events that follow are ignored, and so is [finish]. *)
Theorem nothing_after_the_end h evs1 evs2 call_finish :
  response h (evs1 ++ AssistantResponseEnd :: evs2) call_finish
  = response h (evs1 ++ [AssistantResponseEnd]) false.
Proof.
  unfold response. rewrite !handle_events_app.
  destruct (handle_events h evs1) as [[h1 out1]| |]; try done.
  cbn [handle_events].
  destruct (handle_event_returns h1 AssistantResponseEnd)
    as (h2 & out2 & Hev).
  rewrite Hev. apply end_event_ends in Hev.
  rewrite (ended_ignores_events h2 evs2 Hev). simpl.
  destruct call_finish; [|done].
  unfold finish. by rewrite Hev, !app_nil_r.
Qed.




Lemma finish_events h :
  count is_message_start (finish h).2 = 0%nat
  /\ start_indices (finish h).2 = []
  /\ text_deltas (finish h).2 = [].
Proof.
  unfold finish. destruct (response_ended h); [done|].
  by destruct (content_block_started h && negb (content_block_stop_sent h)).
Qed.

(** X9. [message_start] is sent at most once, whatever the events are,
    and not at all by a handler that has sent it. *)
Theorem message_start_at_most_once h evs call_finish :
  exists h' out,
    response h evs call_finish = Return (h', out)
    /\ (count is_message_start out
        <= if message_start_sent h then 0 else 1)%nat.
Proof.
  unfold response.
  destruct (handle_events_returns evs h) as (h1 & out1 & Hrun).
  rewrite Hrun. apply starts_message_once_run in Hrun.
  unfold starts_message_once in Hrun.
  destruct call_finish.
  - destruct (finish_events h1) as (Hfin & _).
    destruct (finish h1) as [h2 out2]. simpl in Hfin.
    exists h2, (out1 ++ out2). split; [done|].
    rewrite count_app, Hfin.
    destruct (message_start_sent h); [lia|]. destruct Hrun as [?|[? ?]]; lia.
  - exists h1, out1. split; [done|].
    destruct (message_start_sent h); [lia|]. destruct Hrun as [?|[? ?]]; lia.
Qed.



(** X11. The blocks a handler starts are numbered one after the other,
    from the index after its own: from 0 for a new handler. *)
Theorem blocks_are_numbered_in_order h evs call_finish :
  exists h' out,
    response h evs call_finish = Return (h', out)
    /\ start_indices out
       = seqZ (content_block_index h + 1)
           (Z.of_nat (length (start_indices out))).
Proof.
  unfold response.
  destruct (handle_events_returns evs h) as (h1 & out1 & Hrun).
  rewrite Hrun. apply numbers_blocks_run in Hrun as [Hrun _].
  destruct call_finish.
  - destruct (finish_events h1) as (_ & Hfin & _).
    destruct (finish h1) as [h2 out2]. simpl in Hfin.
    exists h2, (out1 ++ out2). split; [done|].
    by rewrite start_indices_app, Hfin, app_nil_r.
  - by exists h1, out1.
Qed.

(** X12. The text kept in [response_buffer], which the output token
    count is computed from, is the text sent in text deltas. *)
Theorem response_buffer_is_text_sent h evs :
  exists h' out,
    handle_events h evs = Return (h', out)
    /\ concat (response_buffer h')
       = concat (response_buffer h) ++ concat (text_deltas out).
Proof.
  destruct (handle_events_returns evs h) as (h1 & out1 & Hrun).
  exists h1, out1. split; [done|]. by apply keeps_response_text_run in Hrun.
Qed.

(** X13. No text delta and no thinking delta is sent with an empty
    payload. *)
Theorem no_empty_delta h evs :
  exists h' out,
    handle_events h evs = Return (h', out)
    /\ deltas_nonempty out.
Proof.
  destruct (handle_events_returns evs h) as (h1 & out1 & Hrun).
  exists h1, out1. split; [done|]. by apply deltas_nonempty_run in Hrun.
Qed.

End StreamProperties.

Import StreamExamples.

(** The search in a text with a quoted and a real start tag. *)
Lemma find_real_tag_first_real_occurrence_witness :
  THINKING_START_TAG <> []
  /\ first_real_occurrence new_quote_state quoted_then_real
       THINKING_START_TAG 0
       (find_real_tag quoted_then_real THINKING_START_TAG 0 new_quote_state).
Proof.
  assert (H : THINKING_START_TAG <> []) by discriminate.
  split; [exact H|].
  exact (find_real_tag_first_real_occurrence quoted_then_real
           THINKING_START_TAG 0 new_quote_state H).
Defined.

(** The start tag behind closed quotes. *)
Lemma reset_at_start_tag_changes_nothing_witness :
  find_real_tag closed_quotes_then_tag THINKING_START_TAG 0 new_quote_state
  = Some 6%nat
  /\ update new_quote_state (take 6 closed_quotes_then_tag)
     = new_quote_state.
Proof.
  assert (H : find_real_tag closed_quotes_then_tag THINKING_START_TAG 0
                new_quote_state = Some 6%nat) by reflexivity.
  split; [exact H|].
  exact (reset_at_start_tag_changes_nothing new_quote_state
           closed_quotes_then_tag 6 H).
Defined.

(** A text with a span, cut inside both tags. *)
Lemma text_and_thinking_are_separated_witness :
  well_formed text_with_span = true
  /\ concat cut_inside_tags = flatten text_with_span
  /\ exists h out,
       handle_events fresh (map AssistantResponseEvent cut_inside_tags)
       = Return (h, out)
       /\ concat (text_deltas out) = text_of text_with_span
       /\ concat (thinking_deltas out) = thinking_of text_with_span.
Proof.
  assert (Hwf : well_formed text_with_span = true) by reflexivity.
  assert (Hcut : concat cut_inside_tags = flatten text_with_span)
    by reflexivity.
  split; [exact Hwf|]. split; [exact Hcut|].
  exact (text_and_thinking_are_separated text_with_span cut_inside_tags
           (py "claude-sonnet-4.5") 0 None Hwf Hcut).
Defined.

(* ================================================================== *)
(** * The parser: checksums, frames and the one-shot parser *)
(* ================================================================== *)

Import ParserTools.

(** ** The range of the checksum *)

Lemma lxor_below (n a b : Z) :
  0 <= n -> 0 <= a < 2 ^ n -> 0 <= b < 2 ^ n -> 0 <= Z.lxor a b < 2 ^ n.
Proof.
  intros Hn Ha Hb. split; [apply Z.lxor_nonneg; lia|].
  destruct (Z.eq_dec n 0) as [->|Hn0].
  { change (2 ^ 0) with 1 in *. replace a with 0 by lia.
    replace b with 0 by lia. done. }
  destruct (Z.eq_dec (Z.lxor a b) 0) as [->|Hne]; [lia|].
  assert (0 < Z.lxor a b) by (pose proof (Z.lxor_nonneg a b); lia).
  apply Z.log2_lt_pow2; [done|].
  pose proof (Z.log2_lxor a b ltac:(lia) ltac:(lia)) as Hl.
  assert (Z.log2 a < n).
  { destruct (Z.eq_dec a 0) as [->|]; [simpl; lia|].
    apply Z.log2_lt_pow2; lia. }
  assert (Z.log2 b < n).
  { destruct (Z.eq_dec b 0) as [->|]; [simpl; lia|].
    apply Z.log2_lt_pow2; lia. }
  lia.
Qed.

Lemma table_below (i : nat) : 0 <= nth i CRC32C_TABLE 0 < 2 ^ 32.
Proof.
  assert (forallb (fun x => (0 <=? x) && (x <? 2 ^ 32)) CRC32C_TABLE = true)
    as Hall by (vm_compute; reflexivity).
  rewrite forallb_forall in Hall.
  destruct (Nat.lt_ge_cases i (length CRC32C_TABLE)) as [Hi|Hi].
  - specialize (Hall _ (nth_In _ 0 Hi)). lia.
  - rewrite nth_overflow by done. lia.
Qed.

Lemma crc_step_below (crc : Z) (b : byte) :
  0 <= crc < 2 ^ 32 -> 0 <= crc_step crc b < 2 ^ 32.
Proof.
  intros Hc. unfold crc_step. apply lxor_below; [lia|apply table_below|].
  rewrite Z.shiftr_div_pow2 by lia. split.
  - apply Z.div_pos; lia.
  - apply Z.le_lt_trans with crc; [|lia].
    apply Z.div_le_upper_bound; lia.
Qed.

Lemma crc32c_python_below (data : list byte) (initial : Z) :
  0 <= initial < 2 ^ 32 -> 0 <= _crc32c_python data initial < 2 ^ 32.
Proof.
  intros Hi. unfold _crc32c_python.
  apply lxor_below; [lia| |lia].
  assert (0 <= Z.lxor initial 4294967295 < 2 ^ 32) as H0
      by (apply lxor_below; lia).
  revert H0. generalize (Z.lxor initial 4294967295).
  induction data as [|b data IH]; intros c Hc; [done|].
  cbn [fold_left]. apply IH, crc_step_below, Hc.
Qed.

Section ParserFrames.
Context `{B : Builtins}.


(** ** A frame built to the wire format is a checked frame *)









(** ** Slices with integer bounds *)







(** ** The one-shot parser on one frame *)



End ParserFrames.

(* ================================================================== *)
(** * The decoder on arbitrary bytes *)
(* ================================================================== *)

Section DecoderSound.
Context `{B : Builtins}.

Lemma unpack_I_Some (bs : list byte) (v : Z) :
  unpack_I bs = Some v -> length bs = 4%nat /\ v = be_uint bs.
Proof.
  unfold unpack_I. destruct (Nat.eqb_spec (length bs) 4); [|done].
  by intros [= <-].
Qed.

Lemma check_crcs_true d md d' :
  check_crcs d md = (d', Some true) ->
  d' = d
  /\ (validate_crc d = true ->
      be_uint (slice md 8 12) = crc32c (slice md 0 8) 0
      /\ be_uint (drop (length md - 4) md)
         = crc32c (take (length md - 4) md) 0).
Proof.
  unfold check_crcs. destruct (validate_crc d); [|by intros [= <-]].
  destruct (unpack_I (slice md 8 12)) as [e1|] eqn:E1; [|done].
  apply unpack_I_Some in E1 as [_ ->].
  destruct (Z.eqb_spec (be_uint (slice md 8 12)) (crc32c (slice md 0 8) 0))
    as [Hp|]; [|done].
  cbn [negb].
  destruct (unpack_I (drop _ md)) as [e2|] eqn:E2; [|done].
  apply unpack_I_Some in E2 as [_ ->].
  destruct (Z.eqb_spec (be_uint (drop (length md - 4) md))
              (crc32c (take (length md - 4) md) 0)) as [Hm|]; [|done].
  cbn [negb]. by intros [= <-].
Qed.

(** A message comes out of [_try_parse_message] only for a buffer that
    starts with a well-formed frame, which is removed from it. *)
Lemma try_parse_parsed d d' m :
  _try_parse_message d = (d', Parsed m) ->
  exists f,
    frame_ok (validate_crc d) f = true
    /\ buffer d = f ++ buffer d'
    /\ m = message_of f
    /\ d' = set_buffer (buffer d') d.
Proof.
  unfold _try_parse_message.
  destruct (unpack_I (slice (buffer d) 0 4)) as [total|] eqn:Et; [|done].
  apply unpack_I_Some in Et as [Hl4 ->].
  set (total := be_uint (slice (buffer d) 0 4)).
  destruct (Z.ltb_spec total 16); [done|].
  destruct (Z.ltb_spec MAX_MESSAGE total); [done|].
  cbn [orb].
  destruct (Z.ltb_spec (Z.of_nat (length (buffer d))) total); [done|].
  set (f := take (Z.to_nat total) (buffer d)).
  destruct (check_crcs d f) as [d0 o] eqn:Ec.
  destruct o as [[|]|]; [|done..].
  apply check_crcs_true in Ec as [-> Hc].
  destruct (unpack_I (slice f 4 8)) as [hl|] eqn:Eh; [|done].
  apply unpack_I_Some in Eh as [_ ->].
  destruct (parse_headers _) as [hs| |] eqn:Ep; [|done..].
  intros [= <- <-]. exists f.
  assert (length f = Z.to_nat total) as Hlen
      by (unfold f; rewrite length_take; lia).
  assert (buffer d = f ++ drop (Z.to_nat total) (buffer d)) as Hb
      by (unfold f; by rewrite take_drop).
  assert (frame_total f = total) as Ht.
  { unfold frame_total.
    transitivity
      (be_uint (slice (f ++ drop (Z.to_nat total) (buffer d)) 0 4));
      [by rewrite slice_app_l by lia|by rewrite <- Hb]. }
  cbn [buffer set_buffer].
  split; [|split; [exact Hb|split; [|done]]].
  - unfold frame_ok, frame_checked, headers_decodable.
    rewrite Ht. fold (frame_headers_length f) in Ep.
    fold (header_region f) in Ep. rewrite Ep.
    rewrite !andb_true_iff, !Z.leb_le, Z.eqb_eq.
    repeat split; try lia.
    destruct (validate_crc d); [|done]. cbn [negb orb].
    destruct (Hc eq_refl) as [-> ->]. by rewrite !Z.eqb_refl.
  - unfold message_of. fold (frame_headers_length f) in Ep.
    fold (header_region f) in Ep. rewrite Ep, Ht.
    do 2 f_equal. unfold payload_region. fold (frame_headers_length f).
    f_equal. lia.
Qed.

Lemma try_parse_not_parsed d d' r :
  _try_parse_message d = (d', r) ->
  (forall m, r <> Parsed m) ->
  buffer d' = buffer d
  /\ validate_crc d' = validate_crc d /\ max_errors d' = max_errors d
  /\ messages_parsed d' = messages_parsed d.
Proof.
  unfold _try_parse_message.
  destruct (unpack_I _); [|by intros [= <- _]].
  destruct (_ || _); [by intros [= <- _]|].
  destruct (_ <? _); [by intros [= <- _]|].
  destruct (check_crcs d _) as [d0 o] eqn:Ec.
  assert (buffer d0 = buffer d
          /\ validate_crc d0 = validate_crc d /\ max_errors d0 = max_errors d
          /\ messages_parsed d0 = messages_parsed d) as Hd0.
  { revert Ec. unfold check_crcs.
    repeat match goal with
           | |- context [match ?x with _ => _ end] => destruct x eqn:?
           end; by intros [= <- _]. }
  destruct o as [[|]|]; [|by intros [= <- _]..].
  destruct (unpack_I _); [|by intros [= <- _]].
  destruct (parse_headers _); [|by intros [= <- _]..].
  intros [= _ <-] Hr. exfalso. by eapply Hr.
Qed.

(** Recovery only drops bytes from the front of the buffer. *)
Lemma try_recover_drops d d' ok :
  _try_recover d = (d', ok) ->
  exists skipped,
    buffer d = skipped ++ buffer d' /\ d' = set_buffer (buffer d') d.
Proof.
  unfold _try_recover.
  destruct (Nat.ltb (length (buffer d)) 12).
  { intros [= <- _]. exists []. by destruct d. }
  destruct (List.find _ _) as [i|].
  - intros [= <- _]. cbn [buffer set_buffer].
    exists (take (1 + i) (buffer d)). split; [|done].
    rewrite drop_drop. by rewrite take_drop.
  - intros [= <- _]. cbn [buffer set_buffer].
    destruct (_ <? _).
    + exists (take (1 + Z.to_nat (Z.of_nat (length (drop 1 (buffer d))) - 1024))
                (buffer d)).
      split; [|done]. rewrite drop_drop. by rewrite take_drop.
    + exists (take 1 (buffer d)). by rewrite take_drop.
Qed.

(** ** What [feed] makes of a stream *)

Lemma decodes_rest validate skipped rest :
  decodes validate (skipped ++ rest) [] rest.
Proof. exists [], skipped. by repeat split. Qed.

Lemma decodes_skip validate g stream ms rest :
  decodes validate stream ms rest ->
  decodes validate (g ++ stream) ms rest.
Proof.
  intros (segs & skipped & -> & Hok & ->).
  destruct segs as [|[g0 f] segs].
  - exists [], (g ++ skipped). repeat split; [|done].
    unfold segments_bytes. cbn. by rewrite app_assoc.
  - exists ((g ++ g0, f) :: segs), skipped. repeat split.
    + unfold segments_bytes, segment_bytes. cbn. by rewrite <- !app_assoc.
    + apply Forall_cons in Hok as [Hf Hok]. by apply List.Forall_cons.
Qed.

Lemma decodes_frame validate f stream ms rest :
  frame_ok validate f = true ->
  decodes validate stream ms rest ->
  decodes validate (f ++ stream) (message_of f :: ms) rest.
Proof.
  intros Hf (segs & skipped & -> & Hok & ->).
  exists (([], f) :: segs), skipped. repeat split.
  - unfold segments_bytes, segment_bytes. cbn. by rewrite <- !app_assoc.
  - by apply List.Forall_cons.
Qed.

Ltac sound_parts tac :=
  split; [done|split; [tac|split; [cbn; lia|split; done]]].

Lemma loop_sound_skip d1 d msgs d' out g :
  buffer d = g ++ buffer d1 ->
  validate_crc d1 = validate_crc d -> max_errors d1 = max_errors d ->
  messages_parsed d1 = messages_parsed d ->
  loop_sound d1 msgs d' out -> loop_sound d msgs d' out.
Proof.
  intros Hb Hv Hm Hp (ms & -> & Hdec & Hn & Hv' & Hm').
  exists ms. rewrite Hb, <- Hv, <- Hm, <- Hp.
  sound_parts ltac:(by apply decodes_skip).
Qed.

Lemma feed_loop_recovered fuel d d1 msgs :
  state_eqb (state d) RECOVERING = true ->
  _try_recover d = (d1, true) ->
  feed_loop (S fuel) d msgs = feed_loop (S fuel) (set_state READY d1) msgs.
Proof. intros Es Er. cbn [feed_loop]. by rewrite Es, Er. Qed.

Lemma feed_loop_sound fuel :
  forall d msgs d' out,
    feed_loop fuel d msgs = Return (d', out) -> loop_sound d msgs d' out.
Proof.
  induction fuel as [|fuel IH]; intros d msgs d' out; [done|].
  assert (forall d,
             state_eqb (state d) RECOVERING = false ->
             feed_loop (S fuel) d msgs = Return (d', out) ->
             loop_sound d msgs d' out) as Hready.
  { clear d. intros d Es. cbn [feed_loop]. rewrite Es. cbn [negb].
    destruct (Nat.ltb (length (buffer d)) 12).
    { intros [= <- <-]. exists []. rewrite app_nil_r.
      sound_parts ltac:(apply (decodes_rest _ [])). }
    destruct (_try_parse_message (set_state PARSING d)) as [d2 r] eqn:Ep.
    destruct r as [m| |].
    - apply try_parse_parsed in Ep as (f & Hok & Hb & -> & Hd2).
      intros Hloop. apply IH in Hloop as (ms & -> & Hdec & Hn & Hv & Hm).
      rewrite Hd2 in Hdec, Hn, Hv, Hm. cbn in Hdec, Hn, Hv, Hm, Hok, Hb.
      exists (message_of f :: ms). rewrite <- app_assoc. cbn [app length].
      sound_parts ltac:(rewrite Hb; by apply decodes_frame).
    - apply try_parse_not_parsed in Ep as (Hb & Hv & Hm & Hp); [|done].
      cbn in Hb, Hv, Hm, Hp.
      intros [= <- <-]. exists []. rewrite app_nil_r.
      sound_parts ltac:(rewrite Hb; apply (decodes_rest _ [])).
    - apply try_parse_not_parsed in Ep as (Hb & Hv & Hm & Hp); [|done].
      cbn in Hb, Hv, Hm, Hp.
      destruct (_ <=? _).
      + intros [= <- <-]. exists []. rewrite app_nil_r. cbn.
        sound_parts ltac:(rewrite Hb; apply (decodes_rest _ [])).
      + intros Hloop. apply IH in Hloop.
        eapply (loop_sound_skip _ d _ _ _ []); [| | | |exact Hloop]; done. }
  destruct (state_eqb (state d) RECOVERING) eqn:Es; [|by apply Hready].
  destruct (_try_recover d) as [d1 ok] eqn:Er.
  pose proof (try_recover_drops _ _ _ Er) as (g & Hg & Hd1).
  destruct ok.
  - rewrite (feed_loop_recovered _ _ _ _ Es Er). intros Hloop.
    apply Hready in Hloop; [|done].
    eapply (loop_sound_skip _ d _ _ _ g); [| | | |exact Hloop];
      [done|by rewrite Hd1..].
  - cbn [feed_loop]. rewrite Es, Er. cbn [negb].
    intros [= <- <-]. exists []. rewrite app_nil_r. rewrite Hd1 at 2 3 4.
    sound_parts ltac:(rewrite Hg; apply decodes_rest).
Qed.

End DecoderSound.

(* ================================================================== *)
(** * Recovery and the stream parser *)
(* ================================================================== *)

Section Recovery.
Context `{B : Builtins}.

(** The test of the recovery scan at offset [i] is the test at the start
    of the buffer without its first [i] bytes. *)
Lemma prelude_at_drop (buf : list byte) (i : nat) :
  prelude_at buf i = prelude_at (drop i buf) 0.
Proof.
  unfold prelude_at, slice. rewrite !drop_drop, length_drop.
  replace (i + 0)%nat with i by lia.
  replace (i + 4 - i)%nat with 4%nat by lia.
  replace (i + 12 - (i + 8))%nat with 4%nat by lia.
  replace (i + 8 - i)%nat with 8%nat by lia.
  cbn [Nat.add Nat.sub].
  destruct (unpack_I (take 4 (drop i buf))); [|done].
  destruct (_ && _); [|done].
  destruct (Nat.leb_spec (i + 12) (length buf)),
           (Nat.leb_spec 12 (length buf - i)); try lia; done.
Qed.

Lemma prelude_at_short (buf : list byte) :
  (length buf < 12)%nat -> prelude_at buf 0 = false.
Proof.
  intros Hl. unfold prelude_at.
  destruct (unpack_I _); [|done]. destruct (_ && _); [|done].
  by destruct (Nat.leb_spec (0 + 12) (length buf)); [lia|].
Qed.

Lemma find_seq_first (f : nat -> bool) (a n i : nat) :
  List.find f (seq a n) = Some i ->
  (a <= i < a + n)%nat /\ f i = true
  /\ forall j, (a <= j < i)%nat -> f j = false.
Proof.
  revert a. induction n as [|n IH]; intros a; [done|].
  cbn [seq List.find]. destruct (f a) eqn:Ea.
  - intros [= <-]. repeat split; [lia..|done|]. intros j Hj. lia.
  - intros Hf. apply IH in Hf as (Hr & Hi & Hfirst).
    repeat split; [lia..|done|]. intros j Hj.
    destruct (Nat.eq_dec j a) as [->|]; [done|]. apply Hfirst. lia.
Qed.

Lemma find_seq_none (f : nat -> bool) (a n : nat) :
  List.find f (seq a n) = None ->
  forall j, (a <= j < a + n)%nat -> f j = false.
Proof.
  intros Hf j Hj. apply (find_none _ _ Hf). apply in_seq. lia.
Qed.

Lemma try_recover_found d d' :
  _try_recover d = (d', true) ->
  exists k,
    (1 <= k)%nat /\ buffer d' = drop k (buffer d)
    /\ prelude_at (buffer d') 0 = true
    /\ forall j, (1 <= j < k)%nat ->
                 prelude_at (drop j (buffer d)) 0 = false.
Proof.
  unfold _try_recover.
  destruct (Nat.ltb_spec (length (buffer d)) 12); [done|].
  destruct (List.find _ _) as [i|] eqn:Ef; [|done].
  intros [= <-]. apply find_seq_first in Ef as (Hr & Hi & Hfirst).
  exists (1 + i)%nat. cbn [buffer set_buffer]. rewrite drop_drop.
  split; [lia|]. split; [done|]. split.
  - rewrite prelude_at_drop, drop_drop in Hi. exact Hi.
  - intros j Hj. specialize (Hfirst (j - 1)%nat ltac:(lia)).
    rewrite prelude_at_drop, drop_drop in Hfirst.
    by replace (1 + (j - 1))%nat with j in Hfirst by lia.
Qed.

Lemma try_recover_not_found d d' :
  (12 <= length (buffer d))%nat ->
  _try_recover d = (d', false) ->
  (forall j, (1 <= j)%nat -> prelude_at (drop j (buffer d)) 0 = false)
  /\ (length (buffer d') <= 16 * 1024)%nat.
Proof.
  intros Hl. unfold _try_recover.
  destruct (Nat.ltb_spec (length (buffer d)) 12); [lia|].
  destruct (List.find _ _) as [i|] eqn:Ef; [done|].
  intros [= <-]. cbn [buffer set_buffer]. split.
  - intros j Hj.
    destruct (Nat.le_gt_cases (j + 12) (length (buffer d))) as [Hin|Hout].
    + pose proof (find_seq_none _ _ _ Ef (j - 1)%nat) as Hn.
      rewrite length_drop in Hn. specialize (Hn ltac:(lia)).
      rewrite prelude_at_drop, drop_drop in Hn.
      by replace (1 + (j - 1))%nat with j in Hn by lia.
    + apply prelude_at_short. rewrite length_drop. lia.
  - destruct (Z.ltb_spec (16 * 1024) (Z.of_nat (length (drop 1 (buffer d))))).
    + rewrite !length_drop in *. lia.
    + lia.
Qed.

(** ** The stream parser *)

Lemma feed_stopped d data :
  state d = STOPPED -> feed d data = Return (d, []).
Proof. intros Hs. unfold feed. by rewrite Hs. Qed.

Lemma feed_all_stopped d chunks :
  state d = STOPPED -> feed_all d chunks = Return (d, []).
Proof.
  intros Hs. induction chunks as [|c chunks IH]; [done|].
  cbn [feed_all]. by rewrite (feed_stopped _ _ Hs), IH.
Qed.

Lemma state_eqb_eq (a b : DecoderState) : state_eqb a b = true <-> a = b.
Proof. destruct a, b; by split. Qed.

Lemma parse_stream_loop_feed_all chunks :
  forall d, parse_stream_loop d chunks = messages_of (feed_all d chunks).
Proof.
  induction chunks as [|c chunks IH]; intros d; [done|].
  cbn [parse_stream_loop feed_all].
  destruct (feed d c) as [[d1 ms]| |]; [|done..].
  destruct (state_eqb (state d1) STOPPED) eqn:Es.
  - apply state_eqb_eq in Es. rewrite (feed_all_stopped _ _ Es).
    cbn. by rewrite app_nil_r.
  - rewrite IH. by destruct (feed_all d1 chunks) as [[d2 ms2]| |].
Qed.

Lemma feed_all_total chunks :
  forall d, exists d' ms, feed_all d chunks = Return (d', ms).
Proof.
  induction chunks as [|c chunks IH]; intros d; [by eexists _, _|].
  cbn [feed_all]. destruct (feed_total d c) as (d1 & ms1 & ->).
  destruct (IH d1) as (d2 & ms2 & ->). by eexists _, _.
Qed.

Lemma feed_sound d data d' ms :
  state d <> STOPPED ->
  feed d data = Return (d', ms) ->
  loop_sound (set_buffer (buffer d ++ data) d) [] d' ms.
Proof.
  intros Hs. unfold feed.
  destruct (state_eqb (state d) STOPPED) eqn:Es;
    [by apply state_eqb_eq in Es|].
  apply feed_loop_sound.
Qed.

Lemma segments_bytes_app (s1 s2 : list segment) :
  segments_bytes (s1 ++ s2) = segments_bytes s1 ++ segments_bytes s2.
Proof. unfold segments_bytes. by rewrite map_app, concat_app. Qed.

Lemma decodes_app validate s1 ms1 r1 s2 ms2 r2 :
  decodes validate s1 ms1 r1 ->
  decodes validate (r1 ++ s2) ms2 r2 ->
  decodes validate (s1 ++ s2) (ms1 ++ ms2) r2.
Proof.
  intros (segs1 & sk1 & -> & Hok1 & ->) Hd2.
  apply (decodes_skip _ sk1) in Hd2.
  destruct Hd2 as (segs2 & sk2 & Hs & Hok2 & ->).
  exists (segs1 ++ segs2), sk2. split; [|split].
  - rewrite segments_bytes_app, <- !app_assoc. f_equal.
    exact Hs.
  - by apply Forall_app.
  - by rewrite map_app.
Qed.

Lemma feed_all_sound chunks :
  forall d d' ms,
    feed_all d chunks = Return (d', ms) ->
    exists rest,
      decodes (validate_crc d) (buffer d ++ concat chunks) ms rest.
Proof.
  induction chunks as [|c chunks IH]; intros d d' ms.
  { intros [= <- <-]. exists []. exists [], (buffer d ++ concat []).
    split; [|done]. unfold segments_bytes. cbn. by rewrite !app_nil_r. }
  destruct (state_eqb (state d) STOPPED) eqn:Es;
    [apply state_eqb_eq in Es as Hs
    |assert (state d <> STOPPED) as Hs
       by (intros Hs; apply state_eqb_eq in Hs; congruence)].
  { rewrite (feed_all_stopped _ _ Hs). intros [= <- <-].
    exists []. exists [], (buffer d ++ concat (c :: chunks)).
    split; [|done]. unfold segments_bytes. cbn. by rewrite !app_nil_r. }
  cbn [feed_all]. destruct (feed d c) as [[d1 ms1]| |] eqn:Ef; [|done..].
  apply (feed_sound _ _ _ _ Hs) in Ef as (ms0 & -> & Hdec & _ & Hv & _).
  cbn in Hdec, Hv.
  destruct (feed_all d1 chunks) as [[d2 ms2]| |] eqn:Ea; [|done..].
  intros [= <- <-]. apply IH in Ea as (rest & Hrest). rewrite Hv in Hrest.
  exists rest. cbn [concat app]. rewrite app_assoc.
  by apply (decodes_app _ _ _ (buffer d1)).
Qed.

End Recovery.

(* ================================================================== *)
(** * Properties of the parser beyond the claims *)
(* ================================================================== *)

Lemma parse_header_no_struct_error data off :
  parse_header data off <> HRaise StructError.
Proof.
  unfold parse_header.
  destruct (data !! off) as [nl|]; [|done].
  destruct (Nat.ltb _ _); [done|].
  destruct (utf8_decode _) as [name|]; [|done].
  destruct (data !! _) as [vt|]; [|done].
  generalize (off + 1 + Z.to_nat (bz nl) + 1)%nat. clear off.
  intros off.
  assert (forall w unpack,
             (forall bs, length bs = w -> unpack bs <> None) ->
             fixed_value data off w name unpack <> HRaise StructError)
    as Hfixed.
  { intros w unpack Hu. unfold fixed_value.
    destruct (Nat.ltb_spec (length data) (off + w)); [done|].
    destruct (unpack _) eqn:Eu; [done|]. exfalso.
    apply (Hu (slice data off (off + w))); [|exact Eu].
    rewrite length_slice by lia. lia. }
  unfold parse_value.
  destruct (_ =? HEADER_TYPE_BOOL_TRUE); [done|].
  destruct (_ =? HEADER_TYPE_BOOL_FALSE); [done|].
  destruct (_ =? HEADER_TYPE_BYTE).
  { destruct (Nat.ltb_spec (length data) (off + 1)); [done|].
    destruct (data !! off) eqn:El; [done|].
    apply lookup_ge_None in El. lia. }
  destruct (_ =? HEADER_TYPE_SHORT).
  { apply Hfixed. intros bs Hbs. unfold unpack_h. by rewrite Hbs. }
  destruct (_ =? HEADER_TYPE_INT).
  { apply Hfixed. intros bs Hbs. unfold unpack_i. by rewrite Hbs. }
  destruct (_ =? HEADER_TYPE_LONG).
  { apply Hfixed. intros bs Hbs. unfold unpack_q. by rewrite Hbs. }
  destruct (_ =? HEADER_TYPE_TIMESTAMP).
  { apply Hfixed. intros bs Hbs. unfold unpack_q. by rewrite Hbs. }
  destruct (_ || _).
  { destruct (Nat.ltb_spec (length data) (off + 2)); [done|].
    unfold unpack_H. rewrite length_slice by lia.
    replace (off + 2 - off)%nat with 2%nat by lia. cbn [Nat.eqb].
    destruct (Nat.ltb _ _); [done|].
    destruct (_ =? HEADER_TYPE_STRING); [|done].
    by destruct (utf8_decode _). }
  destruct (_ =? HEADER_TYPE_UUID); [|done].
  by destruct (Nat.ltb _ _).
Qed.

Lemma parse_headers_loop_no_struct_error fuel data :
  forall off h, parse_headers_loop fuel data off h <> Raised StructError.
Proof.
  induction fuel as [|fuel IH]; intros off h; [done|].
  cbn [parse_headers_loop]. destruct (Nat.ltb _ _); [|done].
  destruct (parse_header data off) as [|e|off' name v] eqn:E; [done| |apply IH].
  destruct e; [|done]. by destruct (parse_header_no_struct_error data off).
Qed.

Section ParserProperties.
Context `{B : Builtins}.

(** X14. The pure-Python CRC32C started from a 32-bit value is a 32-bit
    unsigned value, for every input: it can be compared with what
    [struct.unpack('>I', ...)] reads. *)
Theorem crc32c_python_is_32_bit (data : list byte) (initial : Z) :
  0 <= initial < 2 ^ 32 -> 0 <= _crc32c_python data initial < 2 ^ 32.
Proof. apply crc32c_python_below. Qed.



(** X17. Whatever the bytes, [feed] on a decoder that is not stopped
    returns, and the messages it returns are those of well-formed frames
    that lie in the buffer followed by the new data, in their order and
    without overlap; the bytes in between are skipped, the new buffer is
    what follows, [messages_parsed] grows by the number of messages
    returned, and [validate_crc] and [max_errors] are unchanged. *)
Theorem feed_yields_frames_of_the_stream (d : Decoder) (data : list byte) :
  state d <> STOPPED ->
  exists d' ms,
    feed d data = Return (d', ms)
    /\ decodes (validate_crc d) (buffer d ++ data) ms (buffer d')
    /\ messages_parsed d' = messages_parsed d + Z.of_nat (length ms)
    /\ validate_crc d' = validate_crc d
    /\ max_errors d' = max_errors d.
Proof.
  intros Hs. destruct (feed_total d data) as (d' & ms & Hf).
  exists d', ms. split; [done|].
  apply (feed_sound _ _ _ _ Hs) in Hf as (ms0 & -> & Hdec & Hn & Hv & Hm).
  by cbn in *.
Qed.

(** X18. [_try_recover] on a buffer of twelve bytes or more drops at least
    one byte from the front and nothing else. When it succeeds, the new
    buffer starts with a plausible prelude (a length within bounds and a
    matching prelude checksum), and no offset between 1 and the one
    chosen has such a prelude; when it fails, no offset from 1 on has one,
    and at most 16384 bytes are kept. *)
Theorem recovery_resumes_at_the_first_prelude (d : Decoder) :
  (12 <= length (buffer d))%nat ->
  let '(d', ok) := _try_recover d in
  exists k,
    (1 <= k)%nat /\ buffer d' = drop k (buffer d)
    /\ if ok
       then prelude_at (buffer d') 0 = true
            /\ forall j, (1 <= j < k)%nat ->
                         prelude_at (drop j (buffer d)) 0 = false
       else (forall j, (1 <= j)%nat ->
                       prelude_at (drop j (buffer d)) 0 = false)
            /\ (length (buffer d') <= 16 * 1024)%nat.
Proof.
  intros Hl. destruct (_try_recover d) as [d' ok] eqn:Er. destruct ok.
  - apply try_recover_found in Er as (k & Hk & Hb & Hp & Hfirst).
    by exists k.
  - pose proof (try_recover_not_found _ _ Hl Er) as [Hnone Hlen].
    revert Er. unfold _try_recover.
    destruct (Nat.ltb_spec (length (buffer d)) 12); [lia|].
    destruct (List.find _ _); [done|].
    intros [= <-]. cbn [buffer set_buffer] in *.
    destruct (_ <? _).
    + exists (1 + Z.to_nat (Z.of_nat (length (drop 1 (buffer d))) - 1024))%nat.
      rewrite drop_drop in *. split; [lia|]. split; [reflexivity|].
      split; [exact Hnone|exact Hlen].
    + exists 1%nat. split; [lia|]. split; [reflexivity|].
      split; [exact Hnone|exact Hlen].
Qed.


(** X20. [parse_stream] over a finite stream of chunks always ends, and
    yields exactly the messages that feeding every chunk to one decoder
    with [max_errors = 5] gives: leaving the loop when the decoder has
    stopped loses nothing. These messages are those of well-formed frames
    of the concatenated stream, in their order and without overlap. *)
Theorem parse_stream_yields_frames_of_the_stream
    (chunks : list (list byte)) (validate : bool) :
  parse_stream chunks validate
  = messages_of (feed_all (new_decoder 5 validate) chunks)
  /\ exists ms rest,
       parse_stream chunks validate = Return ms
       /\ decodes validate (concat chunks) ms rest.
Proof.
  unfold parse_stream. rewrite parse_stream_loop_feed_all. split; [done|].
  destruct (feed_all_total chunks (new_decoder 5 validate))
    as (d' & ms & Hf).
  rewrite Hf. apply feed_all_sound in Hf as (rest & Hdec).
  by exists ms, rest.
Qed.

(** X21. [parse_headers] returns a mapping or raises [UnicodeDecodeError]
    (a name or a string value that is not UTF-8), whatever the bytes: no
    [struct.unpack] in it is ever given a slice of the wrong size, and
    its loop ends. *)
Theorem parse_headers_returns_or_unicode_error (headers_data : list byte) :
  (exists headers, parse_headers headers_data = Return headers)
  \/ parse_headers headers_data = Raised UnicodeDecodeError.
Proof.
  pose proof (parse_headers_terminates headers_data) as Hfuel.
  pose proof (parse_headers_loop_no_struct_error
                (S (length headers_data)) headers_data 0 []) as Hstruct.
  fold (parse_headers headers_data) in Hstruct.
  destruct (parse_headers headers_data) as [h|[]|].
  - left. by exists h.
  - done.
  - by right.
  - done.
Qed.

End ParserProperties.

Lemma crc32c_python_is_32_bit_witness :
  0 <= _crc32c_python (bytes_of [49; 50; 51]) 0 < 2 ^ 32.
Proof. apply (crc32c_python_is_32_bit (bytes_of [49; 50; 51]) 0). lia. Defined.



Lemma feed_yields_frames_of_the_stream_witness :
  exists d' ms,
    feed (new_decoder 3 true) garbage_then_frame = Return (d', ms)
    /\ decodes true ([] ++ garbage_then_frame) ms (buffer d')
    /\ messages_parsed d' = 0 + Z.of_nat (length ms)
    /\ validate_crc d' = true
    /\ max_errors d' = 3.
Proof.
  apply (feed_yields_frames_of_the_stream (new_decoder 3 true)
           garbage_then_frame).
  discriminate.
Defined.

Lemma recovery_resumes_at_the_first_prelude_witness :
  let d := mkDecoder RECOVERING garbage_then_frame 1 3 true 0 0 in
  let '(d', ok) := _try_recover d in
  exists k,
    (1 <= k)%nat /\ buffer d' = drop k (buffer d)
    /\ if ok
       then prelude_at (buffer d') 0 = true
            /\ forall j, (1 <= j < k)%nat ->
                         prelude_at (drop j (buffer d)) 0 = false
       else (forall j, (1 <= j)%nat ->
                       prelude_at (drop j (buffer d)) 0 = false)
            /\ (length (buffer d') <= 16 * 1024)%nat.
Proof.
  apply (recovery_resumes_at_the_first_prelude
           (mkDecoder RECOVERING garbage_then_frame 1 3 true 0 0)).
  vm_compute. lia.
Defined.

